(** * Smart-door controller: command relay, event logs and broadcast hub

    A shallow embedding of [telegram_bot.py] and of the stateful core of
    [app.py].  Python objects that are mutated in place and reachable through
    more than one name (the dicts held by the two logs, the per-connection
    queues held by [sse_clients]) live in explicit stores indexed by
    references; everything the code obtains from outside (HTTP answers, the
    injected door callback, the clock, uuid4, DeepFace) is an explicit input
    or an operation of an abstract environment. *)

From Stdlib Require Import Ascii.
From stdpp Require Import base decidable option numbers list gmap strings pretty sorting.

Open Scope Z_scope.

(** ** Python runtime functions used by the code

    [str.lower], [str.strip], [os.path.basename], the stem
    [os.path.splitext(os.path.basename(p))[0]] and [json.dumps] are library
    functions; the code is verified for every implementation of them. *)

#[warnings="-register-all"]
Inductive json :=
  | JNull
  | JBool (b : bool)
  | JStr (s : string)
  | JList (items : list json)
  | JObj (fields : list (string * json)).

Class PyRuntime := {
  str_lower : string → string;
  str_strip : string → string;
  path_basename : string → string;
  path_stem : string → string;
  json_dumps : json → string;
}.

(** [text.startswith(p)] *)
Definition startswith (p text : string) : bool := String.prefix p text.

(** [d.get(key)] on a JSON object *)
Fixpoint assoc_get (key : string) (fields : list (string * json)) : option json :=
  match fields with
  | [] => None
  | (k, v) :: rest => if String.eqb k key then Some v else assoc_get key rest
  end.

Definition json_get (key : string) (j : json) : option json :=
  match j with
  | JObj fields => assoc_get key fields
  | _ => None
  end.

(** * telegram_bot.py *)

(** The value found under [message["chat"]["id"]], before [str(...)]. *)
Inductive chat_ident :=
  | IdMissing
  | IdInt (z : Z)
  | IdStr (s : string).

(** [str(v)] on such a value: [str(None)] is ["None"]. *)
Definition py_str (v : chat_ident) : string :=
  match v with
  | IdMissing => "None"
  | IdInt z => pretty z
  | IdStr s => s
  end.

Record Message := {
  chat_id_of : chat_ident;          (* message.get("chat", {}).get("id") *)
  text_of : option string;          (* message.get("text") *)
}.

Record Update := {
  update_id : Z;
  message : option Message;         (* "message" in update *)
}.

(** What [requests.get(.../getUpdates)] does in one iteration of the loop. *)
Inductive poll_outcome :=
  | PollTimeout                                    (* requests.exceptions.Timeout *)
  | PollRaises (exc : string)                      (* any other exception *)
  | PollResponse (status_code : Z) (result : list Update).

(** What [requests.post(.../sendMessage)] does. *)
Inductive post_outcome :=
  | PostRaises (exc : string)
  | PostResponse (status_code : Z).

(** What the injected door controller does when called. *)
Inductive controller_outcome :=
  | CtrlRaises (exc : string)                      (* str(e) *)
  | CtrlNone                                       (* returned None *)
  | CtrlDict (success : bool) (msg : option string).

(** Calls that leave the bot, in the order they are made. *)
Inductive effect :=
  | DoorControllerCalled
  | MessagePosted (chat text : string)
  | Slept (seconds : Z)
  | ThreadStarted (t : nat).

#[global] Instance effect_eq_dec : EqDecision effect.
Proof. solve_decision. Defined.

(** The environment the bot runs in: the Telegram HTTP API and the clock. *)
Class Environment (W : Type) := {
  requests_post : string → string → string → W → post_outcome * W;
  strftime_now : W → string;
}.

Section TelegramBot.
Context {W : Type} `{!PyRuntime} `{!Environment W}.

Record TelegramBot := {
  bot_token : string;
  chat_id : string;
  enabled : bool;
  command_offset : Z;
  command_thread : option nat;
  running : bool;
  door_controller : option (W → controller_outcome * W);
}.

(** [TelegramBot.__init__] *)
Definition new_bot (token chat : string) (en : bool) : TelegramBot :=
  {| bot_token := token; chat_id := chat; enabled := en;
     command_offset := 0; command_thread := None; running := false;
     door_controller := None |}.

Definition set_door_controller (f : W → controller_outcome * W)
    (b : TelegramBot) : TelegramBot :=
  {| bot_token := bot_token b; chat_id := chat_id b; enabled := enabled b;
     command_offset := command_offset b; command_thread := command_thread b;
     running := running b; door_controller := Some f |}.

Definition set_command_offset (z : Z) (b : TelegramBot) : TelegramBot :=
  {| bot_token := bot_token b; chat_id := chat_id b; enabled := enabled b;
     command_offset := z; command_thread := command_thread b;
     running := running b; door_controller := door_controller b |}.

Definition set_running (r : bool) (b : TelegramBot) : TelegramBot :=
  {| bot_token := bot_token b; chat_id := chat_id b; enabled := enabled b;
     command_offset := command_offset b; command_thread := command_thread b;
     running := r; door_controller := door_controller b |}.

Definition set_command_thread (t : option nat) (b : TelegramBot) : TelegramBot :=
  {| bot_token := bot_token b; chat_id := chat_id b; enabled := enabled b;
     command_offset := command_offset b; command_thread := t;
     running := running b; door_controller := door_controller b |}.

Definition set_bot_token (s : string) (b : TelegramBot) : TelegramBot :=
  {| bot_token := s; chat_id := chat_id b; enabled := enabled b;
     command_offset := command_offset b; command_thread := command_thread b;
     running := running b; door_controller := door_controller b |}.

Definition set_chat_id (s : string) (b : TelegramBot) : TelegramBot :=
  {| bot_token := bot_token b; chat_id := s; enabled := enabled b;
     command_offset := command_offset b; command_thread := command_thread b;
     running := running b; door_controller := door_controller b |}.

Definition set_enabled (e : bool) (b : TelegramBot) : TelegramBot :=
  {| bot_token := bot_token b; chat_id := chat_id b; enabled := e;
     command_offset := command_offset b; command_thread := command_thread b;
     running := running b; door_controller := door_controller b |}.

(** The bot object together with what surrounds it: the environment, the
    threads that are alive, and the calls made so far. *)
Record machine := {
  bot : TelegramBot;
  world : W;
  alive : gset nat;
  spawned : nat;
  trace : list effect;
}.

Definition with_bot (f : TelegramBot → TelegramBot) (m : machine) : machine :=
  {| bot := f (bot m); world := world m; alive := alive m;
     spawned := spawned m; trace := trace m |}.

Definition with_world (w : W) (m : machine) : machine :=
  {| bot := bot m; world := w; alive := alive m;
     spawned := spawned m; trace := trace m |}.

Definition emit (e : effect) (m : machine) : machine :=
  {| bot := bot m; world := world m; alive := alive m;
     spawned := spawned m; trace := trace m ++ [e] |}.

(** [is_configured]: [bool(self.bot_token and self.chat_id)] *)
Definition is_configured (b : TelegramBot) : bool :=
  negb (String.eqb (bot_token b) "") && negb (String.eqb (chat_id b) "").

(** [send_message] *)
Definition send_message (text : string) (m : machine) : bool * machine :=
  if negb (enabled (bot m)) || negb (is_configured (bot m)) then (false, m)
  else
    let m1 := emit (MessagePosted (chat_id (bot m)) text) m in
    match requests_post (bot_token (bot m)) (chat_id (bot m)) text (world m) with
    | (PostResponse code, w) => (bool_decide (code = 200), with_world w m1)
    | (PostRaises _, w) => (false, with_world w m1)
    end.

Definition reply_status (b : TelegramBot) (now : string) : string :=
  "📊 <b>Status Smart Door</b>

🎥 Camera: " +:+ (if enabled b then "🟢 Online" else "🔴 Offline") +:+ "
🔒 Sistem: " +:+ (if enabled b then "🟢 Activ" else "🔴 Inactiv") +:+ "
📱 Telegram: " +:+ (if is_configured b then "🟢 Conectat" else "🔴 NeConfigurat") +:+ "
🕐 " +:+ now.

Definition reply_help : string :=
  "🤖 <b>Comenzi disponibile:</b>

/open - Deschide ușa din distanță
/status - Afișează status-ul sistemului  
/help - Afișează această listă
/settings - Afișează setările curente

💡 <b>Funcționalități:</b>
- Detectare automată persoane cunoscute
- Notificări instant cu poze
- Control de la distanță
- Istoric complet accesări".

Definition reply_settings (b : TelegramBot) : string :=
  "⚙️ <b>Setări curente:</b>

📱 Notificări: " +:+ (if enabled b then "🟢 Activate" else "🔴 Dezactivate") +:+ "
🔑 Chat ID: <code>" +:+ chat_id b +:+ "</code>
🤖 Bot Status: " +:+ (if is_configured b then "🟢 Configurat" else "🔴 Neconfigurat") +:+ "

Pentru a modifica setările, folosiți dashboard-ul web.".

Definition reply_unknown : string :=
  "❓ <b>Comandă necunoscută</b>

Folosiți /help pentru a vedea comenzile disponibile.".

(** The text returned by the [/open] branch for each behaviour of the
    controller; [None.get] raises AttributeError inside the [try]. *)
Definition reply_open (o : controller_outcome) : string :=
  match o with
  | CtrlDict true _ => "🚪 Comandă trimisă! Ușa se deschide..."
  | CtrlDict false msg =>
      "❌ Eroare la trimiterea comenzii: " +:+ default "Eroare necunoscută" msg
  | CtrlNone => "❌ Eroare tehnică: 'NoneType' object has no attribute 'get'"
  | CtrlRaises e => "❌ Eroare tehnică: " +:+ e
  end.

(** [handle_command] *)
Definition handle_command (command : string) (m : machine) : string * machine :=
  let command := str_strip (str_lower command) in
  if String.eqb command "/open" then
    match door_controller (bot m) with
    | Some controller =>
        let m1 := emit DoorControllerCalled m in
        let '(o, w) := controller (world m) in
        (reply_open o, with_world w m1)
    | None => ("❌ Controlul ușii nu este disponibil", m)
    end
  else if String.eqb command "/status" then
    (reply_status (bot m) (strftime_now (world m)), m)
  else if String.eqb command "/help" then (reply_help, m)
  else if String.eqb command "/settings" then (reply_settings (bot m), m)
  else (reply_unknown, m).

(** The part of the [for update in ...] body that follows the assignment
    to [command_offset]. *)
Definition dispatch_update (u : Update) (m : machine) : machine :=
  match message u with
  | None => m
  | Some msg =>
      if String.eqb (py_str (chat_id_of msg)) (chat_id (bot m)) then
        let text := default "" (text_of msg) in
        if startswith "/" text then
          let '(response_text, m1) := handle_command text m in
          (send_message response_text m1).2
        else m
      else m
  end.

(** One pass through the body of [for update in data.get("result", [])]. *)
Definition process_update (u : Update) (m : machine) : machine :=
  dispatch_update u (with_bot (set_command_offset (update_id u + 1)) m).

Definition process_batch (us : list Update) (m : machine) : machine :=
  foldl (λ m u, process_update u m) m us.

(** The body of [while self.running], for one answer of [requests.get]. *)
Definition worker_iteration (p : poll_outcome) (m : machine) : machine :=
  match p with
  | PollResponse code result =>
      if bool_decide (code = 200) then process_batch result m
      else emit (Slept 5) m
  | PollTimeout => m
  | PollRaises _ => emit (Slept 5) m
  end.

(** [_command_listener_worker], driven by the answers of its polls; the
    loop is left when [running] is found false. *)
Fixpoint command_listener_worker (polls : list poll_outcome) (m : machine)
    : machine :=
  match polls with
  | [] => m
  | p :: polls' =>
      if running (bot m) then
        command_listener_worker polls' (worker_iteration p m)
      else m
  end.

(** [self.command_thread and self.command_thread.is_alive()] *)
Definition thread_is_alive (m : machine) : bool :=
  match command_thread (bot m) with
  | Some t => bool_decide (t ∈ alive m)
  | None => false
  end.

(** [start_command_listener] *)
Definition start_command_listener (m : machine) : machine :=
  if thread_is_alive m then m
  else if negb (is_configured (bot m)) then m
  else
    let t := spawned m in
    {| bot := set_command_thread (Some t) (set_running true (bot m));
       world := world m;
       alive := {[t]} ∪ alive m;
       spawned := S t;
       trace := trace m ++ [ThreadStarted t] |}.

(** [stop_command_listener] *)
Definition stop_command_listener (m : machine) : machine :=
  with_bot (set_running false) m.

(** [time.sleep(1)] inside [update_config].  The worker leaves its loop
    only at an iteration boundary, after [requests.get] (which may block
    for up to 35 seconds) has answered; [worker_returned] says whether that
    happened within the pause. *)
Definition pause (worker_returned : bool) (m : machine) : machine :=
  let m1 := emit (Slept 1) m in
  if worker_returned && negb (running (bot m)) then
    {| bot := bot m1; world := world m1;
       alive := match command_thread (bot m) with
                | Some t => alive m ∖ {[t]}
                | None => alive m
                end;
       spawned := spawned m1; trace := trace m1 |}
  else m1.

(** [update_config] *)
Definition update_config (new_token new_chat : option string)
    (new_enabled : option bool) (worker_returned : bool) (m : machine)
    : machine :=
  let restart1 :=
    match new_token with
    | Some t => negb (String.eqb t (bot_token (bot m)))
    | None => false
    end in
  let m1 :=
    match new_token with
    | Some t => if restart1 then with_bot (set_bot_token t) m else m
    | None => m
    end in
  let restart2 :=
    match new_chat with
    | Some c => negb (String.eqb c (chat_id (bot m1)))
    | None => false
    end in
  let m2 :=
    match new_chat with
    | Some c => if restart2 then with_bot (set_chat_id c) m1 else m1
    | None => m1
    end in
  let m3 :=
    match new_enabled with
    | Some e => with_bot (set_enabled e) m2
    | None => m2
    end in
  if (restart1 || restart2) && running (bot m3) then
    start_command_listener (pause worker_returned (stop_command_listener m3))
  else m3.

End TelegramBot.

Arguments TelegramBot : clear implicits.
Arguments machine : clear implicits.

(** * app.py *)

(** ** Face recognition *)

(** What [DeepFace.find] does: it raises, or returns a list of data frames,
    each given here by the [identity] column of its rows. *)
Inductive deepface_outcome :=
  | FindRaises (exc : string)
  | FindResult (frames : list (list string)).

(** The dict returned by [recognize_face]. *)
Record RecognitionResult := {
  rr_access_granted : bool;
  rr_recognized_person : option string;
  rr_status : string;
  rr_error : option string;             (* key "error", only on failure *)
}.

(** The dict built by [create_access_record]; [manual_grant_timestamp] is
    the key that [grant_access] adds. *)
Record AccessRecord := {
  uid : string;                         (* key "id" *)
  timestamp : string;
  filename : string;
  image_url : string;
  access_granted : bool;
  status : string;
  method : string;
  recognized_person : option string;
  recognition_result : string;
  manual_grant_timestamp : option string;
}.

(** The dict built by [create_notification]. *)
Record Notification := {
  n_uid : string;                       (* key "id" *)
  n_timestamp : string;
  n_filename : string;
  n_image_url : string;
  n_access_granted : bool;
  n_status : string;
  n_recognition_result : string;
  n_method : string;
}.

(** A global list of dicts: the dict objects, by reference, and the list
    of references in list order. *)
Record Log (A : Type) := {
  store : gmap nat A;
  entries : list nat;
}.
Arguments store {A} _.
Arguments entries {A} _.

(** What [telegram_bot.send_visitor_notification] does, seen from app.py. *)
Inductive notifier_outcome :=
  | NotifierRaises (exc : string)
  | NotifierReturns (sent : bool).

(** What [requests.get] does inside [ESP32Controller.open_door]; only
    [requests.exceptions.RequestException] is caught there. *)
Inductive esp32_outcome :=
  | EspResponse (status_code : Z)
  | EspRequestException (exc : string)
  | EspOtherException (exc : string).

(** Calls that leave app.py, in the order they are made. *)
Inductive app_effect :=
  | VisitorNotification (granted : bool) (person : option string) (image_path : string)
  | OpenDoorRequest.

Record AppState := {
  access_history : Log AccessRecord;
  notifications : Log Notification;
  queue_store : gmap nat (list string);   (* the [client_queue] list objects *)
  sse_clients : list nat;
  uploads : gmap string string;           (* files written under UPLOAD_FOLDER *)
  executor : list (string * string);      (* submitted tasks that have not run *)
  calls : list app_effect;
}.

(** The state the module body creates. *)
Definition initial_state : AppState :=
  {| access_history := {| store := ∅; entries := [] |};
     notifications := {| store := ∅; entries := [] |};
     queue_store := ∅; sse_clients := [];
     uploads := ∅; executor := []; calls := [] |}.

Definition with_access_history (f : Log AccessRecord → Log AccessRecord)
    (st : AppState) : AppState :=
  {| access_history := f (access_history st); notifications := notifications st;
     queue_store := queue_store st; sse_clients := sse_clients st;
     uploads := uploads st; executor := executor st; calls := calls st |}.

Definition with_notifications (f : Log Notification → Log Notification)
    (st : AppState) : AppState :=
  {| access_history := access_history st; notifications := f (notifications st);
     queue_store := queue_store st; sse_clients := sse_clients st;
     uploads := uploads st; executor := executor st; calls := calls st |}.

Definition with_hub (qs : gmap nat (list string)) (cs : list nat)
    (st : AppState) : AppState :=
  {| access_history := access_history st; notifications := notifications st;
     queue_store := qs; sse_clients := cs;
     uploads := uploads st; executor := executor st; calls := calls st |}.

Definition with_uploads (f : gmap string string → gmap string string)
    (st : AppState) : AppState :=
  {| access_history := access_history st; notifications := notifications st;
     queue_store := queue_store st; sse_clients := sse_clients st;
     uploads := f (uploads st); executor := executor st; calls := calls st |}.

Definition with_executor (f : list (string * string) → list (string * string))
    (st : AppState) : AppState :=
  {| access_history := access_history st; notifications := notifications st;
     queue_store := queue_store st; sse_clients := sse_clients st;
     uploads := uploads st; executor := f (executor st); calls := calls st |}.

Definition call (e : app_effect) (st : AppState) : AppState :=
  {| access_history := access_history st; notifications := notifications st;
     queue_store := queue_store st; sse_clients := sse_clients st;
     uploads := uploads st; executor := executor st; calls := calls st ++ [e] |}.

(** A new dict object holding [x]; the reference is one no object has. *)
Definition new_dict {A} (x : A) (l : Log A) : nat * Log A :=
  let r := fresh (dom (store l)) in
  (r, {| store := <[r := x]> (store l); entries := entries l |}).

(** [lst.insert(0, r)] followed by [if len(lst) > cap: lst.pop()] *)
Definition insert_front (cap : nat) (r : nat) (l : list nat) : list nat :=
  let l1 := r :: l in
  if bool_decide (cap < length l1)%nat then removelast l1 else l1.

(** The dicts a list of references denotes, in list order. *)
Definition deref {A} (h : gmap nat A) (refs : list nat) : list A :=
  omap (λ r, h !! r) refs.

(** [for x in lst: if p(x): ...; break]: the first element satisfying [p]. *)
Fixpoint find_first {A} (p : A → bool) (h : gmap nat A) (refs : list nat)
    : option nat :=
  match refs with
  | [] => None
  | r :: refs' =>
      match h !! r with
      | Some x => if p x then Some r else find_first p h refs'
      | None => find_first p h refs'
      end
  end.

Section App.
Context `{!PyRuntime}.

(** [FaceRecognitionService.recognize_face]: a match is found when the
    first frame exists and has a row; every exception ends in the error
    verdict. *)
Definition recognize_face (o : deepface_outcome) : RecognitionResult :=
  match o with
  | FindRaises e =>
      {| rr_access_granted := false; rr_recognized_person := None;
         rr_status := "error"; rr_error := Some e |}
  | FindResult ((best_match_path :: _) :: _) =>
      {| rr_access_granted := true;
         rr_recognized_person := Some (path_stem best_match_path);
         rr_status := "granted"; rr_error := None |}
  | FindResult _ =>
      {| rr_access_granted := false; rr_recognized_person := None;
         rr_status := "denied"; rr_error := None |}
  end.

(** [AccessRecordManager.create_access_record]; [uuid] and [now] are the
    values of [str(uuid.uuid4())] and [datetime.now().isoformat()]. *)
Definition create_access_record (uuid now : string) (fname : string)
    (recognition : RecognitionResult) (meth : string) : AccessRecord :=
  {| uid := uuid;
     timestamp := now;
     filename := fname;
     image_url := "/uploads/" +:+ fname;
     access_granted := rr_access_granted recognition;
     status := rr_status recognition;
     method := meth;
     recognized_person := rr_recognized_person recognition;
     recognition_result :=
       if rr_access_granted recognition then "Persoană recunoscută"
       else "Persoană necunoscută";
     manual_grant_timestamp := None |}.

(** [AccessRecordManager.add_access_record] *)
Definition add_access_record (r : nat) (st : AppState) : AppState :=
  with_access_history
    (λ l, {| store := store l; entries := insert_front 50 r (entries l) |}) st.

(** [AccessRecordManager.create_notification] *)
Definition create_notification (uuid : string) (record : AccessRecord)
    : Notification :=
  {| n_uid := uuid;
     n_timestamp := timestamp record;
     n_filename := filename record;
     n_image_url := image_url record;
     n_access_granted := access_granted record;
     n_status := status record;
     n_recognition_result := recognition_result record;
     n_method := method record |}.

(** [AccessRecordManager.add_notification] *)
Definition add_notification (n : nat) (st : AppState) : AppState :=
  with_notifications
    (λ l, {| store := store l; entries := insert_front 20 n (entries l) |}) st.

Definition json_opt (o : option string) : json :=
  match o with
  | Some s => JStr s
  | None => JNull
  end.

(** The JSON object of an access record dict, keys in insertion order. *)
Definition record_json (r : AccessRecord) : json :=
  JObj ([("id", JStr (uid r));
         ("timestamp", JStr (timestamp r));
         ("filename", JStr (filename r));
         ("image_url", JStr (image_url r));
         ("access_granted", JBool (access_granted r));
         ("status", JStr (status r));
         ("method", JStr (method r));
         ("recognized_person", json_opt (recognized_person r));
         ("recognition_result", JStr (recognition_result r))]
        ++ match manual_grant_timestamp r with
           | Some t => [("manual_grant_timestamp", JStr t)]
           | None => []
           end).

Definition notification_json (n : Notification) : json :=
  JObj [("id", JStr (n_uid n));
        ("timestamp", JStr (n_timestamp n));
        ("filename", JStr (n_filename n));
        ("image_url", JStr (n_image_url n));
        ("access_granted", JBool (n_access_granted n));
        ("status", JStr (n_status n));
        ("recognition_result", JStr (n_recognition_result n));
        ("method", JStr (n_method n))].

(** [notify_clients]: [client_queue.append(message)] for every element of
    [sse_clients]. *)
Definition notify_clients (msg : string) (st : AppState) : AppState :=
  with_hub
    (foldl (λ qs c, alter (λ q, q ++ [msg]) c qs) (queue_store st) (sse_clients st))
    (sse_clients st) st.

(** [ESP32Controller.open_door]: the returned dict, or the exception that
    leaves the function. *)
Definition open_door (o : esp32_outcome) (st : AppState)
    : (string + bool * string) * AppState :=
  let st1 := call OpenDoorRequest st in
  match o with
  | EspResponse code =>
      if bool_decide (code = 200) then (inr (true, "Door opened successfully"), st1)
      else (inr (false, "ESP32 error: " +:+ pretty code), st1)
  | EspRequestException e => (inr (false, "Connection error: " +:+ e), st1)
  | EspOtherException e => (inl e, st1)
  end.

(** Everything one run of the recognition pipeline obtains from outside. *)
Record PipelineInputs := {
  in_deepface : deepface_outcome;
  in_record_uuid : string;
  in_now : string;
  in_notification_uuid : string;
  in_telegram : notifier_outcome;
  in_esp32 : esp32_outcome;
}.

(** The event type chosen at the end of the pipeline. *)
Definition event_type_of (meth : string) (granted : bool) : string :=
  if String.eqb meth "automatic" then "new_visitor"
  else if String.eqb meth "stream_detection" then
    if granted then "stream_face_recognized" else "stream_face_denied"
  else "face_recognition_complete".

(** The body of [process_face_recognition_async]: the reference of the
    record it returns, or the exception that leaves it. *)
Definition process_face_recognition (inp : PipelineInputs)
    (image_path meth : string) (st : AppState) : (string + nat) * AppState :=
  let recognition := recognize_face (in_deepface inp) in
  let fname := path_basename image_path in
  let record :=
    create_access_record (in_record_uuid inp) (in_now inp) fname recognition meth in
  let '(r, history) := new_dict record (access_history st) in
  let st1 := add_access_record r (with_access_history (λ _, history) st) in
  let notification := create_notification (in_notification_uuid inp) record in
  let '(n, notes) := new_dict notification (notifications st1) in
  let st2 := add_notification n (with_notifications (λ _, notes) st1) in
  let st3 :=
    let called :=
      call (VisitorNotification (rr_access_granted recognition)
              (rr_recognized_person recognition) image_path) st2 in
    match in_telegram inp with
    | NotifierReturns _ => called        (* the outcome is printed *)
    | NotifierRaises _ => called         (* except Exception: printed *)
    end in
  let publish st' :=
    notify_clients
      (json_dumps (JObj [("type", JStr (event_type_of meth (rr_access_granted recognition)));
                         ("data", notification_json notification)])) st' in
  if rr_access_granted recognition then
    match open_door (in_esp32 inp) st3 with
    | (inl exc, st4) => (inl exc, st4)
    | (inr _, st4) => (inr r, publish st4)
    end
  else (inr r, publish st3).

(** [run_task] inside [async_task]: an exception is printed and [None]
    is the result. *)
Definition run_task (inp : PipelineInputs) (task : string * string)
    (st : AppState) : option nat * AppState :=
  match process_face_recognition inp task.1 task.2 st with
  | (inl _, st') => (None, st')
  | (inr r, st') => (Some r, st')
  end.

(** Calling the decorated function: [executor.submit(run_task)]. *)
Definition process_face_recognition_async (image_path meth : string)
    (st : AppState) : AppState :=
  with_executor (λ q, q ++ [(image_path, meth)]) st.

(** A worker of the pool takes the oldest submitted task and runs it. *)
Definition executor_step (inp : PipelineInputs) (st : AppState)
    : option (option nat) * AppState :=
  match executor st with
  | [] => (None, st)
  | task :: rest =>
      let '(res, st') := run_task inp task (with_executor (λ _, rest) st) in
      (Some res, st')
  end.

(** ** Request handlers *)

(** The answer of a handler: the JSON body built by [jsonify] and the
    status code. *)
Definition unauthenticated : json * Z :=
  (JObj [("error", JStr "Neautentificat")], 401).

(** [upload]: [timestamp] is the value of [generate_timestamp()], [data]
    the request body. *)
Definition upload (timestamp_now data : string) (st : AppState)
    : (json * Z) * AppState :=
  let fname := "visitor_" +:+ timestamp_now +:+ ".jpg" in
  let file_path := "uploads/" +:+ fname in
  let st1 := with_uploads (λ fs, <[file_path := data]> fs) st in
  let st2 := process_face_recognition_async file_path "automatic" st1 in
  ((JObj [("status", JStr "processing");
          ("message", JStr "Image uploaded, processing face recognition...");
          ("filename", JStr fname);
          ("access_granted", JBool false)], 200), st2).

(** [lst.copy()]: a new list object holding the same references. *)
Definition list_copy (refs : list nat) : list nat := refs.

(** [get_notifications]: [jsonify(notifications.copy())], built while the
    lock is held. *)
Definition get_notifications (logged_in : bool) (st : AppState) : json * Z :=
  if negb logged_in then unauthenticated
  else
    let copy := list_copy (entries (notifications st)) in
    (JList (notification_json <$> deref (store (notifications st)) copy), 200).

(** [get_access_history]: [jsonify(access_history.copy())] *)
Definition get_access_history (logged_in : bool) (st : AppState) : json * Z :=
  if negb logged_in then unauthenticated
  else
    let copy := list_copy (entries (access_history st)) in
    (JList (record_json <$> deref (store (access_history st)) copy), 200).

(** [clear_notifications] *)
Definition clear_notifications (logged_in : bool) (st : AppState)
    : (json * Z) * AppState :=
  if negb logged_in then (unauthenticated, st)
  else
    ((JObj [("success", JBool true)], 200),
     with_notifications (λ l, {| store := store l; entries := [] |}) st).

(** The assignments [grant_access] makes to a matching record. *)
Definition grant_record (now : string) (r : AccessRecord) : AccessRecord :=
  {| uid := uid r;
     timestamp := timestamp r;
     filename := filename r;
     image_url := image_url r;
     access_granted := true;
     status := "granted";
     method := method r +:+ "_manual_override";
     recognized_person := recognized_person r;
     recognition_result := "Acces permis manual";
     manual_grant_timestamp := Some now |}.

(** The assignments [grant_access] makes to a matching notification. *)
Definition grant_notification (n : Notification) : Notification :=
  {| n_uid := n_uid n;
     n_timestamp := n_timestamp n;
     n_filename := n_filename n;
     n_image_url := n_image_url n;
     n_access_granted := true;
     n_status := "granted";
     n_recognition_result := "Acces permis manual";
     n_method := n_method n |}.

Definition record_matches (fname : string) (r : AccessRecord) : bool :=
  String.eqb (filename r) fname.

Definition notification_matches (fname : string) (n : Notification) : bool :=
  String.eqb (n_filename n) fname.

(** The first loop of [grant_access]: the record found, if any, is
    changed in place. *)
Definition grant_in_history (fname now : string) (l : Log AccessRecord)
    : bool * Log AccessRecord :=
  match find_first (record_matches fname) (store l) (entries l) with
  | Some r =>
      (true, {| store := alter (grant_record now) r (store l); entries := entries l |})
  | None => (false, l)
  end.

(** The second loop of [grant_access]. *)
Definition grant_in_notifications (fname : string) (l : Log Notification)
    : bool * Log Notification :=
  match find_first (notification_matches fname) (store l) (entries l) with
  | Some n =>
      (true, {| store := alter grant_notification n (store l); entries := entries l |})
  | None => (false, l)
  end.

(** The last part of [grant_access]: the record is looked up again and
    sent, as it is then, to the dashboard clients. *)
Definition announce_grant (fname : string) (st : AppState) : AppState :=
  let l := access_history st in
  match find_first (record_matches fname) (store l) (entries l) with
  | Some r =>
      match store l !! r with
      | Some updated_record =>
          notify_clients
            (json_dumps (JObj [("type", JStr "access_granted_manual");
                               ("data", record_json updated_record)])) st
      | None => st
      end
  | None => st
  end.

(** [grant_access]; [now] is the value of [datetime.now().isoformat()]. *)
Definition grant_access (logged_in : bool) (fname now : string) (st : AppState)
    : (json * Z) * AppState :=
  if negb logged_in then (unauthenticated, st)
  else
    let '(record_updated, history) := grant_in_history fname now (access_history st) in
    let st1 := with_access_history (λ _, history) st in
    let '(notification_updated, notes) :=
      grant_in_notifications fname (notifications st1) in
    let st2 := with_notifications (λ _, notes) st1 in
    let st3 := if record_updated then announce_grant fname st2 else st2 in
    ((JObj [("success", JBool true);
            ("message", JStr ("Acces permis pentru " +:+ fname +:+ " - se deschide ușa..."));
            ("record_updated", JBool record_updated);
            ("notification_updated", JBool notification_updated)], 200), st3).

(** ** The event stream of one dashboard connection *)

(** What the generator yields: the connected frame, a queued message, or
    the keep-alive. *)
Inductive sse_frame :=
  | FrameConnected
  | FrameData (msg : string)
  | FramePing.

(** The start of [event_stream]: [client_queue = []] is a new list object,
    appended to [sse_clients]; the first frame is the connected one. *)
Definition event_stream_open (st : AppState) : (nat * sse_frame) * AppState :=
  let q := fresh (dom (queue_store st)) in
  ((q, FrameConnected),
   with_hub (<[q := []]> (queue_store st)) (sse_clients st ++ [q]) st).

(** One pass of [while True] in [event_stream], for the queue [q]. *)
Definition event_stream_next (q : nat) (st : AppState) : sse_frame * AppState :=
  match queue_store st !! q with
  | Some (msg :: rest) =>
      (FrameData msg, with_hub (<[q := rest]> (queue_store st)) (sse_clients st) st)
  | _ => (FramePing, st)
  end.

(** [x in lst] and [lst.remove(x)] for a list of list objects: an element
    matches when it is the same object or compares equal with [==], that is
    when it holds the same items. *)
Definition same_or_equal (qs : gmap nat (list string)) (q c : nat) : bool :=
  bool_decide (c = q) || bool_decide (qs !! c = qs !! q).

Definition list_contains (qs : gmap nat (list string)) (q : nat) (cs : list nat)
    : bool :=
  existsb (same_or_equal qs q) cs.

Fixpoint list_remove (qs : gmap nat (list string)) (q : nat) (cs : list nat)
    : list nat :=
  match cs with
  | [] => []
  | c :: cs' => if same_or_equal qs q c then cs' else c :: list_remove qs q cs'
  end.

(** The [except GeneratorExit] handler of [event_stream]. *)
Definition event_stream_close (q : nat) (st : AppState) : AppState :=
  if list_contains (queue_store st) q (sse_clients st) then
    with_hub (queue_store st) (list_remove (queue_store st) q (sse_clients st)) st
  else st.

(** [door_controller_callback], the controller app.py injects into the
    bot; [now] is the value of [datetime.now().isoformat()]. *)
Definition door_controller_callback (now : string) (st : AppState)
    : controller_outcome * AppState :=
  (CtrlDict true (Some "Command sent to frontend"),
   notify_clients
     (json_dumps (JObj [("type", JStr "telegram_open_door");
                        ("message", JStr "Telegram door open command received");
                        ("timestamp", JStr now)])) st).

End App.

(** ** Runs of the application

    The requests and background steps that change the shared state, and
    their effect; a reachable state is [app_run es initial_state]. *)
Inductive app_event :=
  | Upload (timestamp_now data : string)
  | WorkerStep (inp : PipelineInputs)
  | GrantAccess (logged_in : bool) (fname now : string)
  | ClearNotifications (logged_in : bool)
  | StreamOpen
  | StreamNext (q : nat)
  | StreamClose (q : nat)
  | TelegramOpenDoor (now : string).

Definition app_step `{!PyRuntime} (e : app_event) (st : AppState) : AppState :=
  match e with
  | Upload ts data => (upload ts data st).2
  | WorkerStep inp => (executor_step inp st).2
  | GrantAccess li fname now => (grant_access li fname now st).2
  | ClearNotifications li => (clear_notifications li st).2
  | StreamOpen => (event_stream_open st).2
  | StreamNext q => (event_stream_next q st).2
  | StreamClose q => event_stream_close q st
  | TelegramOpenDoor now => (door_controller_callback now st).2
  end.

Definition app_run `{!PyRuntime} (es : list app_event) (st : AppState) : AppState :=
  foldl (λ s e, app_step e s) st es.


(** Insertions into the two logs, by the reference inserted. *)
Definition insert_step (st : AppState) (i : nat + nat) : AppState :=
  match i with
  | inl r => add_access_record r st
  | inr n => add_notification n st
  end.

Definition inserted_records (ins : list (nat + nat)) : list nat :=
  omap (λ i, match i with inl r => Some r | inr _ => None end) ins.

Definition inserted_notifications (ins : list (nat + nat)) : list nat :=
  omap (λ i, match i with inl _ => None | inr n => Some n end) ins.

(** ** Observations on the bot's trace *)

Definition door_calls (tr : list effect) : nat :=
  length (filter (λ e, e = DoorControllerCalled) tr).

Definition posted_messages (tr : list effect) : list (string * string) :=
  omap (λ e, match e with MessagePosted c t => Some (c, t) | _ => None end) tr.



Definition threads_started (tr : list effect) : list nat :=
  omap (λ e, match e with ThreadStarted t => Some t | _ => None end) tr.

(** ** A command source that honours the cursor

    [served_in_order c us]: the ids of [us] ascend and none is below the
    cursor [c] the poll was made with; [polls_in_order c polls]: every
    successful poll of a run does so for the cursor then in force. *)
Fixpoint served_in_order (c : Z) (us : list Update) : bool :=
  match us with
  | [] => true
  | u :: rest => bool_decide (c ≤ update_id u) && served_in_order (update_id u + 1) rest
  end.

Definition cursor_after (c : Z) (us : list Update) : Z :=
  match last us with
  | Some u => update_id u + 1
  | None => c
  end.

Fixpoint polls_in_order (c : Z) (polls : list poll_outcome) : bool :=
  match polls with
  | [] => true
  | PollResponse code result :: rest =>
      if bool_decide (code = 200) then
        served_in_order c result && polls_in_order (cursor_after c result) rest
      else polls_in_order c rest
  | _ :: rest => polls_in_order c rest
  end.

(** ** A concrete runtime and environment, to run the model on inputs

    ASCII versions of the string functions, POSIX paths, and a printer
    for JSON that escapes nothing. *)
Definition ascii_lower (c : ascii) : ascii :=
  let n := nat_of_ascii c in
  if (65 <=? n)%nat && (n <=? 90)%nat then ascii_of_nat (n + 32) else c.

Fixpoint lower_ascii (s : string) : string :=
  match s with
  | EmptyString => EmptyString
  | String c s' => String (ascii_lower c) (lower_ascii s')
  end.

Definition ascii_isspace (c : ascii) : bool :=
  let n := nat_of_ascii c in
  ((9 <=? n)%nat && (n <=? 13)%nat) || ((28 <=? n)%nat && (n <=? 32)%nat).

Fixpoint lstrip_ascii (s : string) : string :=
  match s with
  | EmptyString => EmptyString
  | String c s' => if ascii_isspace c then lstrip_ascii s' else s
  end.

Definition strip_ascii (s : string) : string :=
  String.rev (lstrip_ascii (String.rev (lstrip_ascii s))).

(** The part after the last slash, the second argument holding what was
    read since the last slash. *)
Fixpoint basename_go (s acc : string) : string :=
  match s with
  | EmptyString => String.rev acc
  | String c s' =>
      if bool_decide (c = "/"%char) then basename_go s' EmptyString
      else basename_go s' (String c acc)
  end.

Definition posix_basename (p : string) : string := basename_go p EmptyString.

(** The name without its last extension. *)
Fixpoint drop_to_dot (s : string) : option string :=
  match s with
  | EmptyString => None
  | String c s' => if bool_decide (c = "."%char) then Some s' else drop_to_dot s'
  end.

Definition posix_stem (p : string) : string :=
  let b := posix_basename p in
  match drop_to_dot (String.rev b) with
  | Some s => if String.eqb s EmptyString then b else String.rev s
  | None => b
  end.

Definition dquote : string := String (ascii_of_nat 34) EmptyString.

Fixpoint dumps (j : json) : string :=
  match j with
  | JNull => "null"
  | JBool true => "true"
  | JBool false => "false"
  | JStr s => dquote +:+ s +:+ dquote
  | JList items =>
      "[" +:+
      (fix go (l : list json) : string :=
         match l with
         | [] => EmptyString
         | x :: l' =>
             dumps x +:+ match l' with [] => EmptyString | _ => ", " +:+ go l' end
         end) items +:+ "]"
  | JObj fields =>
      "{" +:+
      (fix go (l : list (string * json)) : string :=
         match l with
         | [] => EmptyString
         | (k, v) :: l' =>
             dquote +:+ k +:+ dquote +:+ ": " +:+ dumps v +:+
             match l' with [] => EmptyString | _ => ", " +:+ go l' end
         end) fields +:+ "}"
  end.

#[global] Instance ascii_runtime : PyRuntime := {|
  str_lower := lower_ascii;
  str_strip := strip_ascii;
  path_basename := posix_basename;
  path_stem := posix_stem;
  json_dumps := dumps;
|}.

(** An environment given by the list of answers the Telegram API will
    give to the next posts (200 once the list is used up) and a fixed
    clock. *)
#[global] Instance scripted_environment : Environment (list post_outcome) := {|
  requests_post _ _ _ w :=
    match w with
    | [] => (PostResponse 200, [])
    | o :: w' => (o, w')
    end;
  strftime_now _ := "01.01.2025 la 12:00:00";
|}.

(** ** Relations and invariants used in the statements *)


(** No element of the list refers to a missing dict. *)
Definition log_wf {A} (l : Log A) : Prop :=
  ∀ r, r ∈ entries l → is_Some (store l !! r).

(** What every reachable state satisfies: both lists within capacity and
    without dangling references. *)
Definition logs_ok (st : AppState) : Prop :=
  (length (entries (access_history st)) ≤ 50)%nat ∧
  (length (entries (notifications st)) ≤ 20)%nat ∧
  log_wf (access_history st) ∧ log_wf (notifications st).

(** ** Concrete inputs *)

(** A controller that behaves as [door_controller_callback] does towards
    the bot. *)
Definition demo_controller (w : list post_outcome)
    : controller_outcome * list post_outcome :=
  (CtrlDict true (Some "Command sent to frontend"), w).

(** The bot as app.py sets it up at import: created from the stored
    configuration, given its controller, and its listener started. *)
Definition demo_bot (en : bool) : TelegramBot (list post_outcome) :=
  set_door_controller demo_controller (new_bot "123:abc" "777" en).

Definition demo_machine (en : bool) : machine (list post_outcome) :=
  start_command_listener
    {| bot := demo_bot en; world := []; alive := ∅; spawned := 0; trace := [] |}.

Definition command_update (id : Z) (sender : chat_ident) (text : string) : Update :=
  {| update_id := id;
     message := Some {| chat_id_of := sender; text_of := Some text |} |}.

Definition bare_update (id : Z) : Update := {| update_id := id; message := None |}.

Definition authorized_open : Update := command_update 7 (IdInt 777) "/open".

Definition stranger_open : Update := command_update 8 (IdInt 999) "/open".

Definition demo_polls_before : list poll_outcome :=
  [PollResponse 200 [bare_update 40; bare_update 41; bare_update 42]; PollTimeout].

Definition demo_polls_after : list poll_outcome :=
  [PollResponse 502 []; PollRaises "connection reset"; PollResponse 200 [bare_update 50]].

Definition demo_inputs (o : deepface_outcome) : PipelineInputs :=
  {| in_deepface := o; in_record_uuid := "rec-1";
     in_now := "2025-01-01T12:00:00"; in_notification_uuid := "note-1";
     in_telegram := NotifierReturns true; in_esp32 := EspResponse 200 |}.

Definition demo_events : list app_event :=
  [Upload "20250101_120000" "jpeg"; WorkerStep (demo_inputs (FindResult []))].

(** One visitor has been recorded and denied. *)
Definition demo_state : AppState := app_run demo_events initial_state.

(** The bot inside the application: its world is the state of app.py
    together with the answers the Telegram API will give, and its
    controller is [door_controller_callback]. *)
#[global] Instance app_environment : Environment (AppState * list post_outcome) := {|
  requests_post _ _ _ w :=
    match w.2 with
    | [] => (PostResponse 200, w)
    | o :: rest => (o, (w.1, rest))
    end;
  strftime_now _ := "01.01.2025 la 12:00:00";
|}.

Definition app_controller (now : string) (w : AppState * list post_outcome)
    : controller_outcome * (AppState * list post_outcome) :=
  let '(o, st) := door_controller_callback now w.1 in (o, (st, w.2)).

(** One dashboard is connected when the listener starts. *)
Definition app_machine : machine (AppState * list post_outcome) :=
  start_command_listener
    {| bot := set_door_controller (app_controller "2025-01-01T12:10:00")
                (new_bot "123:abc" "777" true);
       world := ((event_stream_open initial_state).2, []);
       alive := ∅; spawned := 0; trace := [] |}.

(** ** Further observations on runs of the bot *)

(** The pauses recorded in a trace, in seconds. *)
Definition sleeps (tr : list effect) : list Z :=
  omap (λ e, match e with Slept s => Some s | _ => None end) tr.

(** A poll after which the loop pauses: an exception other than a timeout,
    or an answer with another status than 200. *)
Definition poll_failed (p : poll_outcome) : bool :=
  match p with
  | PollTimeout => false
  | PollRaises _ => true
  | PollResponse code _ => negb (bool_decide (code = 200))
  end.

(** The updates a run of polls delivers: the results of the answers with
    status 200, in order. *)
Definition delivered (polls : list poll_outcome) : list Update :=
  polls ≫= (λ p, match p with
                 | PollResponse code result =>
                     if bool_decide (code = 200) then result else []
                 | _ => []
                 end).

(** The text the loop reads from an update: [message.get("text", "")]. *)
Definition command_text (u : Update) : string :=
  match message u with
  | Some msg => default "" (text_of msg)
  | None => ""
  end.

(** An update the loop hands to [handle_command]: a message from chat
    [chat] whose text starts with a slash. *)
Definition is_command_from (chat : string) (u : Update) : bool :=
  match message u with
  | Some msg =>
      String.eqb (py_str (chat_id_of msg)) chat &&
      startswith "/" (default "" (text_of msg))
  | None => false
  end.


(** What dispatching a command can add to the trace: a call of the
    controller or a posted message. *)
Definition is_dispatch_effect (e : effect) : bool :=
  match e with
  | DoorControllerCalled | MessagePosted _ _ => true
  | _ => false
  end.

(** ** Further invariants and observations of app.py *)

(** What every reachable state satisfies for the hub: no queue is
    registered twice and every registered queue exists. *)
Definition hub_ok (st : AppState) : Prop :=
  NoDup (sse_clients st) ∧ ∀ c, c ∈ sse_clients st → is_Some (queue_store st !! c).

(** No dict is in a log twice. *)
Definition logs_nodup (st : AppState) : Prop :=
  NoDup (entries (access_history st)) ∧ NoDup (entries (notifications st)).

(** A record whose flag and status agree, as every record the code builds. *)
Definition record_consistent (r : AccessRecord) : Prop :=
  (access_granted r = true ↔ status r = "granted") ∧
  (status r = "granted" ∨ status r = "denied" ∨ status r = "error").

Definition notification_consistent (n : Notification) : Prop :=
  (n_access_granted n = true ↔ n_status n = "granted") ∧
  (n_status n = "granted" ∨ n_status n = "denied" ∨ n_status n = "error").

(** The frames the generator of queue [q] yields in [n] passes of its loop,
    and the state after them. *)
Fixpoint stream_frames (n : nat) (q : nat) (st : AppState)
    : list sse_frame * AppState :=
  match n with
  | O => ([], st)
  | S n' =>
      let '(f, st1) := event_stream_next q st in
      let '(fs, st2) := stream_frames n' q st1 in
      (f :: fs, st2)
  end.

(** ** The notification senders of telegram_bot.py *)

(** What the body of [send_photo] after its two tests does: [open] raises
    before any request is made, or [requests.post(.../sendPhoto)] is
    called. *)
Inductive photo_outcome :=
  | OpenRaises (exc : string)
  | PhotoRequested (o : post_outcome).

(** What the senders use beyond [Environment]: [os.path.exists], the
    sendPhoto request (token, chat, image path, caption) and the clock read
    with the format [%H:%M:%S]. *)
Class NotifierEnvironment (W : Type) := {
  path_exists : string → W → bool;
  requests_post_photo : string → string → string → string → W → photo_outcome * W;
  strftime_hms : W → string;
}.

(** [bool(x)] for an optional string: neither None nor empty. *)
Definition truthy (o : option string) : bool :=
  match o with
  | Some s => negb (String.eqb s "")
  | None => false
  end.

Section Notifier.
Context {W : Type} `{!Environment W} `{!NotifierEnvironment W}.

(** The bot together with the sendPhoto requests made so far: chat, image
    path and caption of each. *)
Record notifier := {
  core : machine W;
  photos : list (string * string * string);
}.

Definition with_core (f : machine W → machine W) (n : notifier) : notifier :=
  {| core := f (core n); photos := photos n |}.

(** [send_message], on the bot with its photo log. *)
Definition send_text (text : string) (n : notifier) : bool * notifier :=
  let '(ok, m) := send_message text (core n) in
  (ok, {| core := m; photos := photos n |}).

(** [send_photo] *)
Definition send_photo (image_path caption : string) (n : notifier)
    : bool * notifier :=
  let m := core n in
  if negb (enabled (bot m)) || negb (is_configured (bot m)) then (false, n)
  else if negb (path_exists image_path (world m)) then (false, n)
  else
    match requests_post_photo (bot_token (bot m)) (chat_id (bot m))
            image_path caption (world m) with
    | (OpenRaises _, w) => (false, with_core (with_world w) n)
    | (PhotoRequested o, w) =>
        (match o with
         | PostResponse code => bool_decide (code = 200)
         | PostRaises _ => false
         end,
         {| core := with_world w m;
            photos := photos n ++ [(chat_id (bot m), image_path, caption)] |})
    end.

(** The text [send_visitor_notification] builds. *)
Definition visitor_message (access_granted : bool)
    (recognized_person : option string) (current_time : string) : string :=
  if access_granted && truthy recognized_person then
    "🚪 <b>ACCES PERMIS</b>
            
✅ Persoană recunoscută: <b>" +:+ default "" recognized_person +:+ "</b>
🕐 Ora: " +:+ current_time +:+ "
🔓 Ușa s-a deschis automat

Bun venit acasă! 🏠"
  else
    "🚨 <b>VIZITATOR NECUNOSCUT</b>
            
👤 Persoană necunoscută la ușă
🕐 Ora: " +:+ current_time +:+ "
⚠️ Acces refuzat - verificați cine este

Răspundeți cu /open pentru a deschide ușa manual.".

(** [send_visitor_notification] *)
Definition send_visitor_notification (access_granted : bool)
    (recognized_person image_path : option string) (n : notifier)
    : bool * notifier :=
  let current_time := strftime_now (world (core n)) in
  let message := visitor_message access_granted recognized_person current_time in
  match image_path with
  | Some p =>
      if negb (String.eqb p "") && path_exists p (world (core n))
      then send_photo p message n
      else send_text message n
  | None => send_text message n
  end.

(** [send_system_notification] *)
Definition send_system_notification (title message : string) (n : notifier)
    : bool * notifier :=
  let current_time := strftime_hms (world (core n)) in
  send_text ("🔧 <b>" +:+ title +:+ "</b>

" +:+ message +:+ "

🕐 " +:+ current_time) n.

(** The text [send_door_opened_notification] builds. *)
Definition door_opened_message (method current_time : string) : string :=
  if String.eqb method "manual" then
    "🚪 <b>UȘA DESCHISĂ MANUAL</b>

✋ Deschis din dashboard
🕐 Ora: " +:+ current_time
  else if String.eqb method "telegram" then
    "🚪 <b>UȘA DESCHISĂ</b>

📱 Deschis prin comanda Telegram
🕐 Ora: " +:+ current_time
  else
    "🚪 <b>UȘA DESCHISĂ</b>

🔓 Deschis automat
🕐 Ora: " +:+ current_time.

(** [send_door_opened_notification] *)
Definition send_door_opened_notification (method : string) (n : notifier)
    : bool * notifier :=
  send_text (door_opened_message method (strftime_hms (world (core n)))) n.

(** [send_test_notification] *)
Definition send_test_notification (n : notifier) : bool * notifier :=
  send_text ("🧪 <b>Test Smart Door</b>

✅ Notificările Telegram funcționează perfect!
🕐 " +:+ strftime_hms (world (core n)) +:+ "

Sistemul este gata de utilizare! 🚀") n.

(** [get_status] *)
Definition get_status (b : TelegramBot W) : json :=
  JObj [("configured", JBool (is_configured b));
        ("enabled", JBool (enabled b));
        ("listening", JBool (running b));
        ("chat_id", JStr (chat_id b));
        ("has_token", JBool (negb (String.eqb (bot_token b) "")))].

End Notifier.

Arguments notifier : clear implicits.

(** ** Configuration and creation of the bot *)

(** What is found at [telegram_config.json]: no file, a file that cannot
    be opened or parsed, or the value [json.load] returns (numbers are
    outside [json]). *)
Inductive config_file :=
  | ConfigMissing
  | ConfigUnreadable (exc : string)
  | ConfigJson (j : json).

(** [TelegramConfig.load_config] *)
Definition load_config (f : config_file) : json :=
  match f with
  | ConfigJson j => j
  | ConfigMissing | ConfigUnreadable _ =>
      JObj [("bot_token", JStr ""); ("chat_id", JStr ""); ("enabled", JBool true)]
  end.

(** What [create_telegram_bot] does: [config.get] raises when the loaded
    value is no dict; a token or chat that is no str and a flag that is no
    bool give a bot whose fields this model has no values for. *)
Inductive creation (W : Type) :=
  | CreationRaises (exc : string)
  | Created (b : TelegramBot W)
  | CreatedUntyped.
Arguments CreationRaises {W} _.
Arguments Created {W} _.
Arguments CreatedUntyped {W}.

(** The name Python gives the type of a JSON value in the AttributeError. *)
Definition py_type_name (j : json) : string :=
  match j with
  | JNull => "NoneType"
  | JBool _ => "bool"
  | JStr _ => "str"
  | JList _ => "list"
  | JObj _ => "dict"
  end.

(** [create_telegram_bot] *)
Definition create_telegram_bot {W} (f : config_file) : creation W :=
  match load_config f with
  | JObj fields =>
      match default (JStr "") (assoc_get "bot_token" fields),
            default (JStr "") (assoc_get "chat_id" fields),
            default (JBool true) (assoc_get "enabled" fields) with
      | JStr token, JStr chat, JBool en => Created (new_bot token chat en)
      | _, _, _ => CreatedUntyped
      end
  | j =>
      CreationRaises ("'" +:+ py_type_name j +:+ "' object has no attribute 'get'")
  end.

(** The end of the module body of app.py: the bot is created, given
    [door_controller_callback] and its listener started. *)
Definition start_bot {W} (f : config_file) (controller : W → controller_outcome * W)
    (w : W) : string + option (machine W) :=
  match create_telegram_bot f with
  | CreationRaises exc => inl exc
  | Created b =>
      inr (Some (start_command_listener
                   {| bot := set_door_controller controller b; world := w;
                      alive := ∅; spawned := 0; trace := [] |}))
  | CreatedUntyped => inr None
  end.

(** ** The door route of app.py *)

(** The ESP32 answered the request with status 200. *)
Definition answered_200 (o : esp32_outcome) : bool :=
  match o with
  | EspResponse code => bool_decide (code = 200)
  | _ => false
  end.

(** The Telegram API seen from app.py: it answers as it does for the bot
    alone and does not touch the state of app.py. *)
Definition lift_environment {X} `{!Environment X} : Environment (AppState * X) := {|
  requests_post token chat text w :=
    let '(o, x) := requests_post token chat text w.2 in (o, (w.1, x));
  strftime_now w := strftime_now w.2;
|}.

Section DoorRoute.
Context {X : Type} `{!Environment X} `{!NotifierEnvironment (AppState * X)}.
#[local] Existing Instance lift_environment.

(** The handler of [/api/door/open], [open_door] in app.py; the bot's
    environment holds the state of app.py.  An exception that leaves
    [ESP32Controller.open_door] leaves the handler. *)
Definition open_door_route (logged_in : bool) (o : esp32_outcome)
    (n : notifier (AppState * X))
    : (string + json * Z) * notifier (AppState * X) :=
  if negb logged_in then (inr unauthenticated, n)
  else
    let w := world (core n) in
    let '(door_result, st1) := open_door o w.1 in
    let n1 := with_core (with_world (st1, w.2)) n in
    match door_result with
    | inl exc => (inl exc, n1)
    | inr (true, _) =>
        (inr (JObj [("success", JBool true);
                    ("message", JStr "Ușa a fost deschisă cu succes")], 200),
         (send_door_opened_notification "manual" n1).2)
    | inr (false, msg) =>
        (inr (JObj [("success", JBool false); ("message", JStr msg)], 500), n1)
    end.

End DoorRoute.

(** ** ResourceManager *)

(** The manager object.  [lock_held] is the state of [self.lock], a
    [threading.Lock]: a thread that holds it and takes it again waits for
    ever. *)
Record ResourceManager := {
  temp_files : gset string;
  lock_held : bool;
}.

(** The manager and the files that exist. *)
Record resources := {
  manager : ResourceManager;
  files : gset string;
}.

(** [ResourceManager.__init__] *)
Definition new_manager : ResourceManager := {| temp_files := ∅; lock_held := false |}.

(** Entering [with self.lock]: None when the call never returns. *)
Definition acquire (rm : ResourceManager) : option ResourceManager :=
  if lock_held rm then None
  else Some {| temp_files := temp_files rm; lock_held := true |}.

(** Leaving [with self.lock]. *)
Definition release (rm : ResourceManager) : ResourceManager :=
  {| temp_files := temp_files rm; lock_held := false |}.

(** [cleanup_file]; [remove_raises] says whether [os.remove] raises when it
    is called.  None: the call never returns. *)
Definition cleanup_file (remove_raises : bool) (file_path : string) (s : resources)
    : option resources :=
  rm ← acquire (manager s);
  let s1 :=
    if bool_decide (file_path ∈ temp_files rm) then
      if bool_decide (file_path ∈ files s) && remove_raises then
        {| manager := rm; files := files s |}       (* except Exception: printed *)
      else
        {| manager := {| temp_files := temp_files rm ∖ {[file_path]};
                         lock_held := lock_held rm |};
           files := files s ∖ {[file_path]} |}
    else {| manager := rm; files := files s |} in
  Some {| manager := release (manager s1); files := files s1 |}.

(** [cleanup_all]: the loop runs over [list(self.temp_files)] while the lock
    is held. *)
Definition cleanup_all (remove_raises : string → bool) (s : resources)
    : option resources :=
  rm ← acquire (manager s);
  s1 ← foldl (λ acc file_path,
               acc ≫= cleanup_file (remove_raises file_path) file_path)
             (Some {| manager := rm; files := files s |})
             (elements (temp_files rm));
  Some {| manager := release (manager s1); files := files s1 |}.

(** [temp_image_file] up to its [yield]: [temp_path] is the name of the file
    [NamedTemporaryFile] has created. *)
Definition temp_image_file_enter (temp_path : string) (s : resources)
    : option resources :=
  let fs := {[temp_path]} ∪ files s in
  rm ← acquire (manager s);
  Some {| manager := release {| temp_files := {[temp_path]} ∪ temp_files rm;
                                lock_held := lock_held rm |};
          files := fs |}.

(** [with resource_manager.temp_image_file() as temp_path: body]: the
    [finally] clause runs [cleanup_file] however the body ends. *)
Definition with_temp_image_file (temp_path : string)
    (body : string → gset string → gset string) (remove_raises : bool)
    (s : resources) : option resources :=
  s1 ← temp_image_file_enter temp_path s;
  cleanup_file remove_raises temp_path
    {| manager := manager s1; files := body temp_path (files s1) |}.

(** ** Manual capture *)

(** What [requests.get(.../capture)] does inside [capture_image]. *)
Inductive capture_outcome :=
  | CaptureResponse (status_code : Z) (content : string)
  | CaptureRequestException (exc : string)
  | CaptureOtherException (exc : string).

(** [ESP32Controller.capture_image]: the bytes or None, or the exception
    that leaves the function. *)
Definition capture_image (o : capture_outcome) : string + option string :=
  match o with
  | CaptureResponse code content =>
      inr (if bool_decide (code = 200) then Some content else None)
  | CaptureRequestException _ => inr None
  | CaptureOtherException e => inl e
  end.

(** The image a capture yields: the content of an answer with status 200
    when it is not empty. *)
Definition captured (o : capture_outcome) : option string :=
  match capture_image o with
  | inr (Some content) => if String.eqb content "" then None else Some content
  | _ => None
  end.

Section Capture.
Context `{!PyRuntime}.

(** [capture_and_process] inside [take_photo], the target of the thread:
    the reference of the record it returns, or the message of the
    failure dict.  Of [inp] the Telegram outcome is not used. *)
Definition capture_and_process (o : capture_outcome) (timestamp_now : string)
    (inp : PipelineInputs) (st : AppState) : (string + nat) * AppState :=
  match capture_image o with
  | inl exc => (inl exc, st)
  | inr image_data =>
      if truthy image_data then
        let fname := "manual_capture_" +:+ timestamp_now +:+ ".jpg" in
        let file_path := "uploads/" +:+ fname in
        let st0 := with_uploads (λ fs, <[file_path := default "" image_data]> fs) st in
        let recognition := recognize_face (in_deepface inp) in
        let record :=
          create_access_record (in_record_uuid inp) (in_now inp) fname
            recognition "manual" in
        let '(r, history) := new_dict record (access_history st0) in
        let st1 := add_access_record r (with_access_history (λ _, history) st0) in
        let notification := create_notification (in_notification_uuid inp) record in
        let '(n, notes) := new_dict notification (notifications st1) in
        let st2 := add_notification n (with_notifications (λ _, notes) st1) in
        let publish st' :=
          notify_clients
            (json_dumps (JObj [("type", JStr "manual_capture_with_recognition");
                               ("data", notification_json notification)])) st' in
        if rr_access_granted recognition then
          match open_door (in_esp32 inp) st2 with
          | (inl exc, st3) => (inl exc, st3)
          | (inr _, st3) => (inr r, publish st3)
          end
        else (inr r, publish st2)
      else (inl "ESP32 capture failed", st)
  end.

(** [take_photo]: the answer, and whether the capture thread was started. *)
Definition take_photo (logged_in : bool) : (json * Z) * bool :=
  if negb logged_in then (unauthenticated, false)
  else
    ((JObj [("success", JBool true);
            ("message", JStr "Capture started, processing in background...")], 202),
     true).

(** ** Face detection on stream frames *)

(** What [DeepFace.extract_faces] does with [enforce_detection=True]. *)
Inductive extract_outcome :=
  | FacesFound
  | ExtractValueError (exc : string)       (* no face in the image *)
  | ExtractOtherException (exc : string).

(** [if os.path.exists(stream_path): os.remove(stream_path)] inside
    [try/except Exception]. *)
Definition remove_file (remove_raises : bool) (path : string)
    (fs : gmap string string) : gmap string string :=
  if bool_decide (is_Some (fs !! path)) && remove_raises then fs else delete path fs.

(** [detect_face_stream]: [image_file] is None when the request has no
    file part [image] or one that is false (no file name); saving the
    file is taken to succeed, as in [upload]. *)
Definition detect_face_stream (logged_in : bool) (image_file : option string)
    (timestamp_now now : string) (extract : extract_outcome) (remove_raises : bool)
    (st : AppState) : (json * Z) * AppState :=
  if negb logged_in then (unauthenticated, st)
  else
    match image_file with
    | None => ((JObj [("face_detected", JBool false)], 400), st)
    | Some data =>
        let stream_filename := "stream_capture_" +:+ timestamp_now +:+ ".jpg" in
        let stream_path := "uploads/" +:+ stream_filename in
        let st1 := with_uploads (λ fs, <[stream_path := data]> fs) st in
        match extract with
        | FacesFound =>
            ((JObj [("face_detected", JBool true);
                    ("timestamp", JStr now);
                    ("status", JStr "processing");
                    ("filename", JStr stream_filename)], 200),
             process_face_recognition_async stream_path "stream_detection" st1)
        | ExtractValueError _ =>
            ((JObj [("face_detected", JBool false);
                    ("access_granted", JBool false);
                    ("timestamp", JStr now);
                    ("status", JStr "no_face")], 200),
             with_uploads (remove_file remove_raises stream_path) st1)
        | ExtractOtherException _ =>
            ((JObj [("face_detected", JBool false); ("status", JStr "error")], 500),
             with_uploads (remove_file remove_raises stream_path) st1)
        end
    end.

End Capture.

(** A stream frame for which a recognition task is submitted. *)
Definition frame_has_face (logged_in : bool) (image_file : option string)
    (extract : extract_outcome) : bool :=
  logged_in && bool_decide (is_Some image_file) &&
  match extract with
  | FacesFound => true
  | _ => false
  end.

(** ** Runs with captures, stream frames and the door route

    The steps of [app_event], the run of a capture thread, a request to
    [detect_face_stream], and a request to the door route, of which the
    state of app.py sees the call of [ESP32Controller.open_door]. *)
Inductive full_event :=
  | Core (e : app_event)
  | ManualCapture (o : capture_outcome) (timestamp_now : string) (inp : PipelineInputs)
  | StreamFrame (logged_in : bool) (image_file : option string)
      (timestamp_now now : string) (extract : extract_outcome) (remove_raises : bool)
  | DoorOpen (logged_in : bool) (o : esp32_outcome).

Definition full_step `{!PyRuntime} (e : full_event) (st : AppState) : AppState :=
  match e with
  | Core e => app_step e st
  | ManualCapture o ts inp => (capture_and_process o ts inp st).2
  | StreamFrame li image_file ts now extract remove_raises =>
      (detect_face_stream li image_file ts now extract remove_raises st).2
  | DoorOpen li o => if negb li then st else (open_door o st).2
  end.

Definition full_run `{!PyRuntime} (es : list full_event) (st : AppState) : AppState :=
  foldl (λ s e, full_step e s) st es.

(** ** The history route

    Strings are byte strings: the functions below agree with Python's on
    ASCII text, and on every text where they only compare and copy. *)

(** [s.replace(old, new)] for a non-empty [old], left to right without
    overlap; [skip] counts the characters of a match still to pass. *)
Fixpoint replace_from (old new s : string) (skip : nat) : string :=
  match s with
  | EmptyString => EmptyString
  | String c s' =>
      match skip with
      | S k => replace_from old new s' k
      | O =>
          if String.prefix old s
          then new +:+ replace_from old new s' (String.length old - 1)
          else String c (replace_from old new s' 0)
      end
  end.

Definition str_replace (old new s : string) : string := replace_from old new s 0.

(** [c in s] for a one-character string [c] *)
Fixpoint contains_char (c : ascii) (s : string) : bool :=
  match s with
  | EmptyString => false
  | String a s' => bool_decide (a = c) || contains_char c s'
  end.

(** [s.split(sep)] for a one-character [sep] *)
Fixpoint str_split (sep : ascii) (s : string) : list string :=
  match s with
  | EmptyString => [EmptyString]
  | String c s' =>
      if bool_decide (c = sep) then EmptyString :: str_split sep s'
      else
        match str_split sep s' with
        | piece :: rest => String c piece :: rest
        | [] => [String c EmptyString]
        end
  end.

(** [s[i:j]] for [0 <= i <= j] *)
Definition slice (i j : nat) (s : string) : string := String.substring i (j - i) s.

(** [s.endswith(suffix)] *)
Definition endswith (suffix s : string) : bool :=
  String.prefix (String.rev suffix) (String.rev s).

(** [sorted(names, reverse=True)]: descending in the order of [str], which
    on UTF-8 bytes is the order of the code points. *)
Definition name_ge (a b : string) : Prop := String.leb b a = true.

#[global] Instance name_ge_dec : RelDecision name_ge :=
  λ a b, decide (String.leb b a = true).

Definition sorted_descending (names : list string) : list string :=
  merge_sort name_ge names.

(** The dict [get_history] appends for one file name. *)
Definition history_entry (filename : string) : json :=
  let timestamp_str :=
    str_replace ".jpg" ""
      (str_replace "stream_capture_" ""
         (str_replace "manual_capture_" ""
            (str_replace "visitor_" "" filename))) in
  let formatted :=
    if contains_char "_" timestamp_str then
      let date_part := default "" (str_split "_" timestamp_str !! 0%nat) in
      let time_part := default "" (str_split "_" timestamp_str !! 1%nat) in
      (slice 6 8 date_part +:+ "." +:+ slice 4 6 date_part +:+ "." +:+ slice 0 4 date_part,
       slice 0 2 time_part +:+ ":" +:+ slice 2 4 time_part +:+ ":" +:+ slice 4 6 time_part)
    else ("Necunoscut", "Necunoscut") in
  JObj [("filename", JStr filename);
        ("url", JStr ("/uploads/" +:+ filename));
        ("date", JStr formatted.1);
        ("time", JStr formatted.2)].

(** [get_history]: [listing] is what [os.listdir(UPLOAD_FOLDER)] returns,
    or the exception it raises. *)
Definition get_history `{!PyRuntime} (logged_in : bool) (listing : string + list string)
    : json * Z :=
  if negb logged_in then unauthenticated
  else
    match listing with
    | inl _ => (JList [], 200)
    | inr names =>
        (JList (history_entry <$>
                  filter (λ f, endswith ".jpg" (str_lower f) = true)
                    (sorted_descending names)), 200)
    end.

(** [s.endswith((suffix1, suffix2, ...))] *)
Definition endswith_any (suffixes : list string) (s : string) : bool :=
  existsb (λ suffix, endswith suffix s) suffixes.

(** The dict [get_known_faces] appends for one file name. *)
Definition known_face_entry (filename : string) : json :=
  JObj [("filename", JStr filename);
        ("name", JStr (str_replace ".png" ""
                         (str_replace ".jpeg" "" (str_replace ".jpg" "" filename))));
        ("url", JStr ("/known_faces/" +:+ filename))].

(** [get_known_faces]: [listing] is what [os.listdir(KNOWN_FOLDER)] returns,
    or the exception it raises. *)
Definition get_known_faces `{!PyRuntime} (logged_in : bool)
    (listing : string + list string) : json * Z :=
  if negb logged_in then unauthenticated
  else
    match listing with
    | inl _ => (JList [], 200)
    | inr names =>
        (JList (known_face_entry <$>
                  filter (λ f, endswith_any [".jpg"; ".jpeg"; ".png"] (str_lower f) = true)
                    names), 200)
    end.

(** The characters [strftime] writes for [%Y%m%d] and [%H%M%S]. *)
Definition is_digit (c : ascii) : bool :=
  let n := nat_of_ascii c in (48 <=? n)%nat && (n <=? 57)%nat.

Fixpoint all_digits (s : string) : bool :=
  match s with
  | EmptyString => true
  | String c s' => is_digit c && all_digits s'
  end.

(** ** What a snapshot handler hands out

    The Python objects that occur in [get_notifications] and
    [get_access_history], told apart by what their holder reads once the
    logs have changed: the module-level list itself, a list object of its
    own holding references to the dicts (what [lst.copy()] creates), and the
    response [jsonify] builds, whose body is serialised when it is built. *)
Inductive py_object :=
  | GlobalList
  | ListObject (refs : list nat)
  | Response (body : json).

(** What the holder of [o] reads when the log is [l]: the global list
    follows the log's entries and dicts, a list object keeps its own
    references and follows the dicts, a response follows nothing. *)
Definition read {A} (to_json : A → json) (l : Log A) (o : py_object) : json :=
  match o with
  | GlobalList => JList (to_json <$> deref (store l) (entries l))
  | ListObject refs => JList (to_json <$> deref (store l) refs)
  | Response body => body
  end.

(** [jsonify(o)], called while the log is [l] *)
Definition jsonify {A} (to_json : A → json) (l : Log A) (o : py_object)
    : py_object :=
  Response (read to_json l o).

(** [get_notifications], with the objects it creates:
    [with notification_lock: return jsonify(notifications.copy())] *)
Definition get_notifications_response (logged_in : bool) (st : AppState)
    : py_object * Z :=
  if negb logged_in then (Response unauthenticated.1, unauthenticated.2)
  else
    let copy := ListObject (list_copy (entries (notifications st))) in
    (jsonify notification_json (notifications st) copy, 200).


(** ** Further concrete inputs *)

(** The bot created without a configuration file. *)
Definition unconfigured_machine : machine (list post_outcome) :=
  {| bot := new_bot "" "" true; world := []; alive := ∅; spawned := 0; trace := [] |}.

(** The bot inside the application with no dashboard connected. *)
Definition lonely_machine : machine (AppState * list post_outcome) :=
  {| bot := set_door_controller (app_controller "2025-01-01T12:10:00")
              (new_bot "123:abc" "777" true);
     world := (initial_state, []); alive := ∅; spawned := 0; trace := [] |}.

(** Two dashboards connect, an event is published, the first reads it. *)
Definition two_dashboards : list app_event :=
  [StreamOpen; StreamOpen; TelegramOpenDoor "2025-01-01T12:10:00"; StreamNext 0].

(** * Properties of telegram_bot.py *)

Section BotProperties.
Context {W : Type} `{!PyRuntime} `{!Environment W}.
Implicit Types (m : machine W) (b : TelegramBot W) (u : Update).

Lemma set_command_offset_same b : set_command_offset (command_offset b) b = b.
Proof. by destruct b. Qed.

Lemma send_message_bot text m : bot (send_message text m).2 = bot m.
Proof.
  unfold send_message.
  destruct (negb (enabled (bot m)) || negb (is_configured (bot m))); [done|].
  by destruct (requests_post _ _ _ _) as [[] ?].
Qed.

Lemma handle_command_bot c m : bot (handle_command c m).2 = bot m.
Proof.
  unfold handle_command.
  repeat (case_match; simpl; try done).
Qed.

Lemma dispatch_update_bot u m : bot (dispatch_update u m) = bot m.
Proof.
  unfold dispatch_update.
  destruct (message u) as [msg|]; [|done].
  destruct (String.eqb _ _); [|done].
  destruct (startswith _ _); [|done].
  destruct (handle_command _ m) as [reply m1] eqn:Hh.
  rewrite send_message_bot.
  change m1 with (reply, m1).2. rewrite <- Hh. apply handle_command_bot.
Qed.

Lemma process_update_bot u m :
  bot (process_update u m) = set_command_offset (update_id u + 1) (bot m).
Proof. unfold process_update. by rewrite dispatch_update_bot. Qed.

Lemma cursor_after_snoc c us u : cursor_after c (us ++ [u]) = update_id u + 1.
Proof. unfold cursor_after. by rewrite last_snoc. Qed.

Lemma process_batch_snoc us u m :
  process_batch (us ++ [u]) m = process_update u (process_batch us m).
Proof. unfold process_batch. by rewrite foldl_app. Qed.

Lemma process_batch_bot us m :
  bot (process_batch us m) =
  set_command_offset (cursor_after (command_offset (bot m)) us) (bot m).
Proof.
  induction us as [|u us IH] using rev_ind.
  - simpl. unfold cursor_after. simpl. by rewrite set_command_offset_same.
  - rewrite process_batch_snoc, process_update_bot, IH, cursor_after_snoc.
    by destruct (bot m).
Qed.

Lemma cursor_after_cons c u us :
  cursor_after c (u :: us) = cursor_after (update_id u + 1) us.
Proof.
  unfold cursor_after. destruct us as [|u' us']; [done|].
  change (last (u :: u' :: us')) with (last (u' :: us')).
  destruct (last (u' :: us')) eqn:Hl; [done|].
  by apply last_None in Hl.
Qed.

Lemma served_in_order_le c us : served_in_order c us = true → c ≤ cursor_after c us.
Proof.
  revert c. induction us as [|u us IH]; intros c Hs.
  - unfold cursor_after. simpl. lia.
  - simpl in Hs. apply andb_true_iff in Hs as [Hc Hs].
    apply bool_decide_eq_true in Hc. apply IH in Hs.
    rewrite cursor_after_cons. lia.
Qed.

Lemma worker_iteration_running p m :
  running (bot (worker_iteration p m)) = running (bot m).
Proof.
  destruct p as [| |code result]; simpl; try done.
  case_bool_decide; [|done]. rewrite process_batch_bot. by destruct (bot m).
Qed.

Lemma worker_not_running polls m :
  running (bot m) = false → command_listener_worker polls m = m.
Proof. intros Hr. destruct polls; simpl; [done|]. by rewrite Hr. Qed.

Lemma worker_app polls1 polls2 m :
  command_listener_worker (polls1 ++ polls2) m =
  command_listener_worker polls2 (command_listener_worker polls1 m).
Proof.
  revert m. induction polls1 as [|p polls1 IH]; intros m; simpl; [done|].
  destruct (running (bot m)) eqn:Hr; [apply IH|].
  by rewrite worker_not_running.
Qed.

Lemma worker_iteration_in_order p polls m :
  polls_in_order (command_offset (bot m)) (p :: polls) = true →
  command_offset (bot m) ≤ command_offset (bot (worker_iteration p m)) ∧
  polls_in_order (command_offset (bot (worker_iteration p m))) polls = true.
Proof.
  destruct p as [| |code result]; simpl; [done..|].
  case_bool_decide; [|done].
  intros [Hs Hp]%andb_true_iff. rewrite process_batch_bot. simpl.
  split; [by apply served_in_order_le|done].
Qed.

Lemma worker_monotone polls m :
  polls_in_order (command_offset (bot m)) polls = true →
  command_offset (bot m) ≤ command_offset (bot (command_listener_worker polls m)).
Proof.
  revert m. induction polls as [|p polls IH]; intros m Hp; simpl; [done|].
  destruct (running (bot m)); [|done].
  apply worker_iteration_in_order in Hp as [Hle Hp].
  etrans; [exact Hle|]. by apply IH.
Qed.

Lemma worker_in_order_app polls1 polls2 m :
  running (bot m) = true →
  polls_in_order (command_offset (bot m)) (polls1 ++ polls2) = true →
  polls_in_order (command_offset (bot (command_listener_worker polls1 m))) polls2 = true.
Proof.
  revert m. induction polls1 as [|p polls1 IH]; intros m Hr Hp; simpl; [done|].
  rewrite Hr. simpl in Hp.
  apply (worker_iteration_in_order p (polls1 ++ polls2)) in Hp as [_ Hp].
  apply IH; [|done]. by rewrite worker_iteration_running.
Qed.

Lemma served_in_order_app c us1 us2 :
  served_in_order c (us1 ++ us2) = true →
  served_in_order c us1 = true ∧ served_in_order (cursor_after c us1) us2 = true.
Proof.
  revert c. induction us1 as [|u us1 IH]; intros c; simpl.
  - done.
  - intros [Hc Hs]%andb_true_iff. rewrite cursor_after_cons.
    apply IH in Hs as [??]. split; [|done]. by apply andb_true_iff.
Qed.

Lemma cursor_after_app c us1 us2 :
  cursor_after c (us1 ++ us2) = cursor_after (cursor_after c us1) us2.
Proof.
  revert c. induction us1 as [|u us1 IH]; intros c; simpl.
  - done.
  - by rewrite !cursor_after_cons.
Qed.

Lemma polls_in_order_app_l c polls1 polls2 :
  polls_in_order c (polls1 ++ polls2) = true → polls_in_order c polls1 = true.
Proof.
  revert c. induction polls1 as [|p polls1 IH]; intros c Hp; [done|].
  simpl in *. destruct p as [| |code result]; try by apply IH.
  case_bool_decide; [|by apply IH].
  apply andb_true_iff in Hp as [Hs Hp]. apply andb_true_iff. split; [done|].
  by apply IH.
Qed.

(** C1 (amended). The cursor is set to the id of an update plus one before
    that update is dispatched, and dispatching leaves it alone; a batch
    whose last update has id 42 ends with the cursor at 43; polls that time
    out, raise or answer with another status than 200 leave the cursor as it
    is; and when the command source serves ids in ascending order, none
    below the cursor it was asked with, the cursor never decreases, neither
    from update to update inside a batch nor from poll to poll. *)
Theorem cursor_advances_and_is_monotone_for_ordered_source :
  (∀ u m,
     process_update u m =
       dispatch_update u (with_bot (set_command_offset (update_id u + 1)) m) ∧
     command_offset (bot (with_bot (set_command_offset (update_id u + 1)) m)) =
       update_id u + 1 ∧
     command_offset (bot (process_update u m)) = update_id u + 1) ∧
  (∀ us u m,
     update_id u = 42 →
     command_offset (bot (process_batch (us ++ [u]) m)) = 43 ∧
     command_offset (bot (worker_iteration (PollResponse 200 (us ++ [u])) m)) = 43) ∧
  (∀ p m,
     (∀ result, p ≠ PollResponse 200 result) →
     command_offset (bot (worker_iteration p m)) = command_offset (bot m)) ∧
  (∀ us1 us2 m,
     served_in_order (command_offset (bot m)) (us1 ++ us2) = true →
     command_offset (bot m) ≤ command_offset (bot (process_batch us1 m)) ∧
     command_offset (bot (process_batch us1 m)) ≤
       command_offset (bot (process_batch (us1 ++ us2) m))) ∧
  (∀ polls1 polls2 m,
     polls_in_order (command_offset (bot m)) (polls1 ++ polls2) = true →
     command_offset (bot m) ≤ command_offset (bot (command_listener_worker polls1 m)) ∧
     command_offset (bot (command_listener_worker polls1 m)) ≤
       command_offset (bot (command_listener_worker (polls1 ++ polls2) m))).
Proof.
  split; [|split; [|split; [|split]]].
  - intros u m. by rewrite process_update_bot.
  - intros us u m Hid. simpl.
    rewrite !process_batch_bot, cursor_after_snoc. simpl. lia.
  - intros p m Hp. destruct p as [| |code result]; simpl; [done..|].
    case_bool_decide as Hc; [|done]. subst code. by destruct (Hp result).
  - intros us1 us2 m Hs. apply served_in_order_app in Hs as [Hs1 Hs2].
    rewrite !process_batch_bot. simpl. split; [by apply served_in_order_le|].
    rewrite cursor_after_app. by apply served_in_order_le.
  - intros polls1 polls2 m Hp. rewrite worker_app.
    destruct (running (bot m)) eqn:Hr.
    + split.
      * apply worker_monotone. by apply polls_in_order_app_l in Hp.
      * apply worker_monotone. by apply worker_in_order_app.
    + by rewrite !worker_not_running.
Qed.

Lemma door_calls_app tr1 tr2 :
  door_calls (tr1 ++ tr2) = (door_calls tr1 + door_calls tr2)%nat.
Proof. unfold door_calls. by rewrite filter_app, length_app. Qed.

Lemma posted_messages_app tr1 tr2 :
  posted_messages (tr1 ++ tr2) = posted_messages tr1 ++ posted_messages tr2.
Proof. unfold posted_messages. by rewrite omap_app. Qed.

Lemma send_message_trace text m :
  trace (send_message text m).2 =
  trace m ++ (if enabled (bot m) && is_configured (bot m)
              then [MessagePosted (chat_id (bot m)) text] else []).
Proof.
  unfold send_message.
  destruct (enabled (bot m)), (is_configured (bot m)); simpl;
    try by rewrite app_nil_r.
  by destruct (requests_post _ _ _ _) as [[] ?].
Qed.

Lemma handle_command_open text f m :
  str_strip (str_lower text) = "/open" →
  door_controller (bot m) = Some f →
  handle_command text m =
    (reply_open (f (world m)).1,
     with_world (f (world m)).2 (emit DoorControllerCalled m)).
Proof.
  intros Hcmd Hf. unfold handle_command. rewrite Hcmd, Hf. simpl.
  by destruct (f (world m)).
Qed.

Lemma handle_command_trace c m :
  trace (handle_command c m).2 =
  trace m ++ (if String.eqb (str_strip (str_lower c)) "/open" then
                match door_controller (bot m) with
                | Some _ => [DoorControllerCalled]
                | None => []
                end
              else []).
Proof.
  unfold handle_command.
  destruct (String.eqb (str_strip (str_lower c)) "/open").
  - destruct (door_controller (bot m)) as [f|]; simpl.
    + by destruct (f (world m)).
    + by rewrite app_nil_r.
  - repeat case_match; simpl; by rewrite app_nil_r.
Qed.










Lemma worker_iteration_enabled p m :
  enabled (bot (worker_iteration p m)) = enabled (bot m).
Proof.
  destruct p as [| |code result]; simpl; try done.
  case_bool_decide; [|done]. by rewrite process_batch_bot.
Qed.


Lemma process_update_open u msg text f m :
  message u = Some msg →
  text_of msg = Some text →
  startswith "/" text = true →
  str_strip (str_lower text) = "/open" →
  door_controller (bot m) = Some f →
  py_str (chat_id_of msg) = chat_id (bot m) →
  trace (process_update u m) =
    trace m ++ DoorControllerCalled ::
      (if enabled (bot m) && is_configured (bot m)
       then [MessagePosted (chat_id (bot m)) (reply_open (f (world m)).1)]
       else []).
Proof.
  intros Hmsg Htext Hslash Hcmd Hf Hauth.
  unfold process_update, dispatch_update. rewrite Hmsg. simpl.
  rewrite Hauth, String.eqb_refl, Htext. simpl. rewrite Hslash.
  rewrite (handle_command_open text f) by done.
  rewrite send_message_trace. simpl. by rewrite <- app_assoc.
Qed.

(** C5 (amended). An update from the configured chat whose text is the
    /open command calls the injected controller exactly once, and then hands
    the reply to [send_message], which posts it when the bot is enabled and
    configured and posts nothing otherwise; an update from any other sender
    changes nothing but the cursor: no call, no message, no pause. *)
Theorem open_from_authorized_chat_calls_controller_once :
  (∀ u msg text f m,
     message u = Some msg →
     text_of msg = Some text →
     startswith "/" text = true →
     str_strip (str_lower text) = "/open" →
     door_controller (bot m) = Some f →
     py_str (chat_id_of msg) = chat_id (bot m) →
     door_calls (trace (process_update u m)) = S (door_calls (trace m)) ∧
     posted_messages (trace (process_update u m)) =
       posted_messages (trace m) ++
         (if enabled (bot m) && is_configured (bot m)
          then [(chat_id (bot m), reply_open (f (world m)).1)] else [])) ∧
  (∀ u msg m,
     message u = Some msg →
     py_str (chat_id_of msg) ≠ chat_id (bot m) →
     process_update u m = with_bot (set_command_offset (update_id u + 1)) m ∧
     trace (process_update u m) = trace m ∧
     world (process_update u m) = world m).
Proof.
  split.
  - intros u msg text f m Hmsg Htext Hslash Hcmd Hf Hauth.
    rewrite (process_update_open u msg text f m) by done.
    rewrite (door_calls_app _ (_ :: _)), (posted_messages_app _ (_ :: _)).
    split.
    + destruct (_ && _); unfold door_calls; simpl; lia.
    + by destruct (_ && _).
  - intros u msg m Hmsg Hauth.
    assert (process_update u m = with_bot (set_command_offset (update_id u + 1)) m)
      as ->; [|done].
    unfold process_update, dispatch_update. rewrite Hmsg. simpl.
    by rewrite (proj2 (String.eqb_neq _ _) Hauth).
Qed.

Lemma worker_iteration_bot p m :
  bot (worker_iteration p m) =
  set_command_offset (command_offset (bot (worker_iteration p m))) (bot m).
Proof.
  destruct p as [| |code result]; simpl; try by rewrite set_command_offset_same.
  case_bool_decide; simpl; [|by rewrite set_command_offset_same].
  by rewrite process_batch_bot.
Qed.

Lemma worker_bot polls m :
  bot (command_listener_worker polls m) =
  set_command_offset (command_offset (bot (command_listener_worker polls m))) (bot m).
Proof.
  revert m. induction polls as [|p polls IH]; intros m; simpl.
  - by rewrite set_command_offset_same.
  - destruct (running (bot m)); [|by rewrite set_command_offset_same].
    rewrite IH at 1. by rewrite worker_iteration_bot.
Qed.




Lemma door_calls_slept tr z : door_calls (tr ++ [Slept z]) = door_calls tr.
Proof.
  rewrite door_calls_app. unfold door_calls at 2.
  rewrite filter_cons_False by done. simpl. lia.
Qed.

Lemma delivered_cons p polls :
  delivered (p :: polls) =
  match p with
  | PollResponse code result => if bool_decide (code = 200) then result else []
  | _ => []
  end ++ delivered polls.
Proof. done. Qed.


Lemma handle_command_posts c m :
  posted_messages (trace (handle_command c m).2) = posted_messages (trace m).
Proof.
  rewrite handle_command_trace, posted_messages_app.
  repeat case_match; simpl; by rewrite app_nil_r.
Qed.

Lemma dispatch_update_posts u m :
  posted_messages (trace (dispatch_update u m)) =
  posted_messages (trace m) ++
    (if is_command_from (chat_id (bot m)) u && enabled (bot m) && is_configured (bot m)
     then [(chat_id (bot m), (handle_command (command_text u) m).1)] else []).
Proof.
  unfold dispatch_update, is_command_from, command_text.
  destruct (message u) as [msg|]; [|by rewrite app_nil_r].
  destruct (String.eqb (py_str (chat_id_of msg)) (chat_id (bot m))); simpl;
    [|by rewrite app_nil_r].
  destruct (startswith "/" (default "" (text_of msg))); simpl;
    [|by rewrite app_nil_r].
  pose proof (handle_command_posts (default "" (text_of msg)) m) as Hp.
  pose proof (handle_command_bot (default "" (text_of msg)) m) as Hb.
  destruct (handle_command (default "" (text_of msg)) m) as [reply m1].
  simpl in *. rewrite send_message_trace, posted_messages_app, Hp, Hb.
  by destruct (enabled (bot m) && is_configured (bot m)).
Qed.

Lemma is_configured_set_command_offset c b :
  is_configured (set_command_offset c b) = is_configured b.
Proof. done. Qed.

Lemma process_batch_posts us m :
  ∃ replies,
    posted_messages (trace (process_batch us m)) =
      posted_messages (trace m) ++ ((λ t, (chat_id (bot m), t)) <$> replies) ∧
    length replies =
      if enabled (bot m) && is_configured (bot m)
      then length (filter (λ u, is_command_from (chat_id (bot m)) u = true) us)
      else 0%nat.
Proof.
  induction us as [|u us IH] using rev_ind.
  - exists []. simpl. rewrite app_nil_r. by destruct (_ && _).
  - destruct IH as (replies & Hp & Hl).
    rewrite process_batch_snoc. unfold process_update.
    rewrite dispatch_update_posts. simpl. rewrite process_batch_bot. simpl.
    rewrite !is_configured_set_command_offset.
    rewrite Hp, filter_app, length_app, filter_cons, filter_nil.
    destruct (is_command_from (chat_id (bot m)) u); simpl.
    + destruct (enabled (bot m) && is_configured (bot m)) eqn:He; simpl.
      * eexists (replies ++ [_]). rewrite fmap_app, <- app_assoc. simpl.
        split; [done|]. rewrite length_app, Hl. simpl. lia.
      * exists replies. by rewrite app_nil_r.
    + exists replies. rewrite app_nil_r. split; [done|].
      rewrite Hl. destruct (_ && _); simpl; lia.
Qed.

Lemma posted_messages_slept tr z :
  posted_messages (tr ++ [Slept z]) = posted_messages tr.
Proof. by rewrite posted_messages_app, app_nil_r. Qed.

(** The messages posted by a whole run of the loop. *)
Lemma worker_posts polls m :
  ∃ replies,
    posted_messages (trace (command_listener_worker polls m)) =
      posted_messages (trace m) ++ ((λ t, (chat_id (bot m), t)) <$> replies) ∧
    length replies =
      if running (bot m) && enabled (bot m) && is_configured (bot m)
      then length (filter (λ u, is_command_from (chat_id (bot m)) u = true)
                     (delivered polls))
      else 0%nat.
Proof.
  revert m. induction polls as [|p polls IH]; intros m.
  - exists []. simpl. rewrite app_nil_r. by destruct (_ && _ && _).
  - simpl command_listener_worker.
    destruct (running (bot m)) eqn:Hr; [|exists []; by rewrite app_nil_r].
    destruct (IH (worker_iteration p m)) as (replies & Hp & Hl).
    rewrite worker_iteration_running, worker_iteration_enabled, Hr in Hl.
    assert (chat_id (bot (worker_iteration p m)) = chat_id (bot m)) as Hc
      by by rewrite worker_iteration_bot.
    assert (is_configured (bot (worker_iteration p m)) = is_configured (bot m)) as Hi
      by by rewrite worker_iteration_bot.
    rewrite Hc in Hp. rewrite Hc, Hi in Hl. rewrite Hp.
    rewrite delivered_cons, filter_app, length_app. simpl andb in *.
    destruct p as [| |code result]; simpl.
    + by exists replies.
    + exists replies. by rewrite posted_messages_slept.
    + case_bool_decide; simpl.
      * destruct (process_batch_posts result m) as (replies0 & Hp0 & Hl0).
        exists (replies0 ++ replies). rewrite Hp0, fmap_app, app_assoc.
        split; [done|]. rewrite length_app, Hl0, Hl.
        destruct (enabled (bot m) && is_configured (bot m)); lia.
      * exists replies. by rewrite posted_messages_slept.
Qed.



Lemma start_command_listener_offset m :
  command_offset (bot (start_command_listener m)) = command_offset (bot m).
Proof. unfold start_command_listener. by repeat case_match. Qed.

Lemma pause_bot returned m : bot (pause returned m) = bot m.
Proof. unfold pause. by case_match. Qed.

(** [update_config] never touches the cursor. *)
Lemma update_config_keeps_cursor new_token new_chat new_enabled returned m :
  command_offset (bot (update_config new_token new_chat new_enabled returned m)) =
  command_offset (bot m).
Proof.
  unfold update_config.
  match goal with
  | |- context [if ?c then _ else _] =>
      match c with (_ || _) && _ => destruct c end
  end.
  - rewrite start_command_listener_offset, pause_bot. simpl.
    destruct new_token, new_chat, new_enabled; simpl;
      repeat (case_match; simpl); done.
  - destruct new_token, new_chat, new_enabled; simpl;
      repeat (case_match; simpl); done.
Qed.

(** Changing only the enabled flag stops and starts nothing. *)
Lemma update_config_enabled_only e returned m :
  update_config None None (Some e) returned m = with_bot (set_enabled e) m.
Proof. done. Qed.

(** A changed token while the loop runs: when the old worker thread is
    still alive after the pause, [start_command_listener] returns at its
    first test and the listener is left stopped. *)
Lemma update_config_leaves_listener_stopped t new_enabled m :
  running (bot m) = true →
  thread_is_alive m = true →
  t ≠ bot_token (bot m) →
  let m' := update_config (Some t) None new_enabled false m in
  running (bot m') = false ∧ bot_token (bot m') = t ∧
  trace m' = trace m ++ [Slept 1] ∧ alive m' = alive m ∧
  command_thread (bot m') = command_thread (bot m).
Proof.
  intros Hr Ha Ht. unfold update_config.
  rewrite (proj2 (String.eqb_neq _ _) Ht). simpl.
  assert (running (bot match new_enabled with
                       | Some e => with_bot (set_enabled e) (with_bot (set_bot_token t) m)
                       | None => with_bot (set_bot_token t) m
                       end) = true) as -> by by destruct new_enabled.
  simpl. unfold start_command_listener, thread_is_alive in *.
  destruct new_enabled; simpl;
    destruct (command_thread (bot m)) eqn:Hth; try done;
    rewrite Ha; unfold pause; simpl; rewrite ?Hth; done.
Qed.

(** The same update when the worker has returned within the pause: a new
    thread is started and the loop runs again. *)
Lemma update_config_restarts_after_worker_returned t new_enabled m :
  running (bot m) = true →
  t ≠ bot_token (bot m) →
  t ≠ "" → chat_id (bot m) ≠ "" →
  let m' := update_config (Some t) None new_enabled true m in
  running (bot m') = true ∧ bot_token (bot m') = t ∧
  command_thread (bot m') = Some (spawned m) ∧
  trace m' = trace m ++ [Slept 1; ThreadStarted (spawned m)].
Proof.
  intros Hr Ht Hne Hc. unfold update_config.
  rewrite (proj2 (String.eqb_neq _ _) Ht). simpl.
  assert (running (bot match new_enabled with
                       | Some e => with_bot (set_enabled e) (with_bot (set_bot_token t) m)
                       | None => with_bot (set_bot_token t) m
                       end) = true) as -> by by destruct new_enabled.
  simpl. unfold start_command_listener, thread_is_alive, is_configured, pause.
  destruct new_enabled; simpl;
    rewrite (proj2 (String.eqb_neq _ _) Hne), (proj2 (String.eqb_neq _ _) Hc);
    simpl; destruct (command_thread (bot m)) as [t0|]; simpl;
    rewrite ?bool_decide_eq_false_2
      by (apply not_elem_of_difference; right; by apply elem_of_singleton);
    simpl;
    by rewrite <- ?app_assoc.
Qed.

End BotProperties.

(** * Properties of app.py *)

Section AppProperties.
Context `{!PyRuntime}.
Implicit Types (st : AppState) (l : list nat).

Lemma insert_front_take cap r l :
  (length l ≤ cap)%nat → insert_front cap r l = take cap (r :: l).
Proof.
  intros Hl. unfold insert_front. case_bool_decide as Hc.
  - rewrite removelast_firstn_len. simpl length in *.
    replace (Nat.pred (S (length l))) with cap by lia. done.
  - rewrite take_ge; [done|]. simpl in *. lia.
Qed.

Lemma insert_front_length cap r l :
  (length l ≤ cap)%nat → (length (insert_front cap r l) ≤ cap)%nat.
Proof. intros Hl. rewrite insert_front_take, length_take by done. lia. Qed.

Lemma insert_front_full cap r l :
  (length l ≤ cap)%nat →
  insert_front cap r l =
    if bool_decide (length l = cap) then removelast (r :: l) else r :: l.
Proof.
  intros Hl. unfold insert_front. simpl length.
  repeat case_bool_decide; try done; lia.
Qed.

Lemma take_reverse_snoc {A} n (xs : list A) x :
  take n (reverse (xs ++ [x])) = take n (x :: take n (reverse xs)).
Proof.
  rewrite reverse_snoc. destruct n as [|n]; [done|]. simpl.
  f_equal. rewrite take_take. f_equal. lia.
Qed.

Lemma insert_run_entries ins :
  entries (access_history (foldl insert_step initial_state ins)) =
    take 50 (reverse (inserted_records ins)) ∧
  entries (notifications (foldl insert_step initial_state ins)) =
    take 20 (reverse (inserted_notifications ins)).
Proof.
  induction ins as [|i ins [IHr IHn]] using rev_ind; [done|].
  rewrite foldl_app. simpl.
  unfold inserted_records, inserted_notifications in *. rewrite !omap_app.
  destruct i as [r|n]; simpl.
  - rewrite app_nil_r. split; [|done].
    rewrite insert_front_take, IHr, take_reverse_snoc; [done|].
    rewrite IHr, length_take. lia.
  - rewrite app_nil_r. split; [done|].
    rewrite insert_front_take, IHn, take_reverse_snoc; [done|].
    rewrite IHn, length_take. lia.
Qed.

Lemma log_wf_new_insert {A} cap (x : A) (l : Log A) :
  (length (entries l) ≤ cap)%nat →
  log_wf l →
  log_wf {| store := <[fresh (dom (store l)) := x]> (store l);
            entries := insert_front cap (fresh (dom (store l))) (entries l) |}.
Proof.
  intros Hlen Hwf r. simpl. rewrite insert_front_take by done.
  intros Hr%subseteq_take. apply elem_of_cons in Hr as [->|Hr].
  - rewrite lookup_insert_eq. eauto.
  - destruct (decide (fresh (dom (store l)) = r)) as [->|Hne].
    + rewrite lookup_insert_eq. eauto.
    + rewrite lookup_insert_ne by done. by apply Hwf.
Qed.

Lemma log_wf_alter {A} (f : A → A) r (l : Log A) :
  log_wf l → log_wf {| store := alter f r (store l); entries := entries l |}.
Proof.
  intros Hwf r' Hr'. simpl in *. apply Hwf in Hr' as [x Hx].
  destruct (decide (r = r')) as [->|Hne].
  - rewrite lookup_alter_eq, Hx. eauto.
  - rewrite lookup_alter_ne by done. eauto.
Qed.

(** What one run of the pipeline does to the two logs. *)
Lemma process_face_recognition_logs inp image_path meth st :
  let record :=
    create_access_record (in_record_uuid inp) (in_now inp)
      (path_basename image_path) (recognize_face (in_deepface inp)) meth in
  let r := fresh (dom (store (access_history st))) in
  let n := fresh (dom (store (notifications st))) in
  let st' := (process_face_recognition inp image_path meth st).2 in
  access_history st' =
    {| store := <[r := record]> (store (access_history st));
       entries := insert_front 50 r (entries (access_history st)) |} ∧
  notifications st' =
    {| store := <[n := create_notification (in_notification_uuid inp) record]>
                  (store (notifications st));
       entries := insert_front 20 n (entries (notifications st)) |}.
Proof.
  unfold process_face_recognition. simpl.
  destruct (in_telegram inp);
    (destruct (rr_access_granted _); [|done];
     unfold open_door; destruct (in_esp32 inp); [case_bool_decide|..]; done).
Qed.

Lemma grant_access_logs li fname now st :
  let st' := (grant_access li fname now st).2 in
  access_history st' =
    (if li then (grant_in_history fname now (access_history st)).2
     else access_history st) ∧
  notifications st' =
    (if li then (grant_in_notifications fname (notifications st)).2
     else notifications st).
Proof.
  unfold grant_access. destruct li; simpl; [|done].
  destruct (grant_in_history _ _ _) as [ru history].
  simpl. destruct (grant_in_notifications _ _) as [nu notes]. simpl.
  destruct ru; [|done]. unfold announce_grant. simpl.
  destruct (find_first _ _ _); [|done]. by destruct (store history !! _).
Qed.

Lemma app_step_logs_ok e st : logs_ok st → logs_ok (app_step e st).
Proof.
  intros (Hh & Hn & Hwh & Hwn).
  destruct e as [ts data|inp|li fname now|li| |q|q|now]; simpl.
  - done.
  - unfold executor_step. destruct (executor st) as [|[path meth] rest]; [done|].
    unfold run_task. simpl.
    pose proof (process_face_recognition_logs inp path meth
                  (with_executor (λ _, rest) st)) as [Hah Hno].
    destruct (process_face_recognition _ _ _ _) as [[exc|r] st']; simpl in *;
      unfold logs_ok; rewrite Hah, Hno; simpl;
      (split_and!; [by apply insert_front_length | by apply insert_front_length
                   | by apply log_wf_new_insert | by apply log_wf_new_insert]).
  - pose proof (grant_access_logs li fname now st) as [Hah Hno].
    simpl in *. unfold logs_ok. rewrite Hah, Hno. destruct li; [|done].
    unfold grant_in_history, grant_in_notifications.
    destruct (find_first _ _ (entries (access_history st)));
      destruct (find_first _ _ (entries (notifications st))); simpl;
      split_and!; try done; by apply log_wf_alter.
  - unfold clear_notifications. destruct li; simpl; [|done].
    split_and!; simpl; try done; try lia. by intros r ?%elem_of_nil.
  - done.
  - unfold event_stream_next. by repeat case_match.
  - unfold event_stream_close. by case_match.
  - done.
Qed.

Lemma app_run_logs_ok es st : logs_ok st → logs_ok (app_run es st).
Proof.
  revert st. induction es as [|e es IH]; intros st Hok; [done|].
  simpl. apply IH. by apply app_step_logs_ok.
Qed.

Lemma initial_state_ok : logs_ok initial_state.
Proof.
  split_and!; simpl; try lia; by intros r ?%elem_of_nil.
Qed.

(** C2. Whatever the sequence of insertions, the access history is the
    last 50 inserted records and the notification list the last 20 inserted
    notifications, newest first; an insertion puts the new entry in front,
    keeps the others in their order and, when the list was full, drops the
    last one and only that one; and in every reachable state the two lists
    hold at most 50 and 20 entries. *)
Theorem logs_bounded_newest_first :
  (∀ ins,
     let st := foldl insert_step initial_state ins in
     entries (access_history st) = take 50 (reverse (inserted_records ins)) ∧
     entries (notifications st) = take 20 (reverse (inserted_notifications ins)) ∧
     (length (entries (access_history st)) ≤ 50)%nat ∧
     (length (entries (notifications st)) ≤ 20)%nat) ∧
  (∀ ins x,
     let st := foldl insert_step initial_state ins in
     entries (access_history (add_access_record x st)) =
       (if bool_decide (length (entries (access_history st)) = 50%nat)
        then x :: removelast (entries (access_history st))
        else x :: entries (access_history st)) ∧
     entries (notifications (add_notification x st)) =
       (if bool_decide (length (entries (notifications st)) = 20%nat)
        then x :: removelast (entries (notifications st))
        else x :: entries (notifications st))) ∧
  (∀ es,
     let st := app_run es initial_state in
     (length (entries (access_history st)) ≤ 50)%nat ∧
     (length (entries (notifications st)) ≤ 20)%nat).
Proof.
  split; [|split].
  - intros ins st. destruct (insert_run_entries ins) as [Hr Hn].
    subst st. rewrite Hr, Hn, !length_take. split_and!; try done; lia.
  - intros ins x st. destruct (insert_run_entries ins) as [Hr Hn].
    assert (length (entries (access_history st)) ≤ 50)%nat as Hlr
      by (subst st; rewrite Hr, length_take; lia).
    assert (length (entries (notifications st)) ≤ 20)%nat as Hln
      by (subst st; rewrite Hn, length_take; lia).
    simpl. rewrite !insert_front_full by done.
    split; case_bool_decide as Hfull; try done.
    + destruct (entries (access_history st)); [done|]. done.
    + destruct (entries (notifications st)); [done|]. done.
  - intros es st. pose proof (app_run_logs_ok es _ initial_state_ok) as (?&?&_).
    done.
Qed.

Lemma head_insert_front cap r l :
  (0 < cap)%nat → head (insert_front cap r l) = Some r.
Proof.
  intros Hcap. unfold insert_front. case_bool_decide as Hc; [|done].
  destruct l as [|x l]; [simpl in Hc; lia|done].
Qed.

(** C3. When the recognizer raises, the pipeline still returns: its
    result is the reference of a new access record, first in the access
    history, with access_granted false and status error; the matching
    notification is first in the notification list; the door is not asked
    to open; and the task wrapper returns that record, not an exception --
    whatever the Telegram call and the ESP32 would do. *)
Theorem recognizer_failure_yields_error_record
    exc record_uuid now notification_uuid telegram esp32 image_path meth st :
  let inp :=
    {| in_deepface := FindRaises exc; in_record_uuid := record_uuid;
       in_now := now; in_notification_uuid := notification_uuid;
       in_telegram := telegram; in_esp32 := esp32 |} in
  let out := process_face_recognition inp image_path meth st in
  let r := fresh (dom (store (access_history st))) in
  let n := fresh (dom (store (notifications st))) in
  out.1 = inr r ∧
  (run_task inp (image_path, meth) st).1 = Some r ∧
  (∃ record,
     store (access_history out.2) !! r = Some record ∧
     access_granted record = false ∧ status record = "error" ∧
     recognized_person record = None ∧ method record = meth) ∧
  head (entries (access_history out.2)) = Some r ∧
  (∃ notification,
     store (notifications out.2) !! n = Some notification ∧
     n_access_granted notification = false ∧ n_status notification = "error") ∧
  head (entries (notifications out.2)) = Some n ∧
  calls out.2 = calls st ++ [VisitorNotification false None image_path].
Proof.
  intros inp out r n.
  pose proof (process_face_recognition_logs inp image_path meth st) as Hlogs.
  cbv zeta in Hlogs. destruct Hlogs as [Hah Hno].
  assert (out.1 = inr r ∧
          calls out.2 = calls st ++ [VisitorNotification false None image_path])
    as [Hres Hcalls].
  { subst out. unfold process_face_recognition. simpl. by destruct telegram. }
  split_and!.
  - done.
  - unfold run_task. simpl. fold out. destruct out as [[e|r'] st']; by simplify_eq/=.
  - subst out r. rewrite Hah. eexists. simpl. rewrite lookup_insert_eq. done.
  - subst out r. rewrite Hah. simpl. apply head_insert_front; lia.
  - subst out n. rewrite Hno. eexists. simpl. rewrite lookup_insert_eq. done.
  - subst out n. rewrite Hno. simpl. apply head_insert_front; lia.
  - done.
Qed.

(** C10. The answer of the upload handler is fixed before any recognition
    runs: status 200, status field processing, access_granted false, for
    every image and every state; the handler only stores the file and
    submits the recognition task, and leaves both logs as they were. *)
Theorem upload_answers_processing_and_not_granted timestamp_now data st :
  let out := upload timestamp_now data st in
  let fname := "visitor_" +:+ timestamp_now +:+ ".jpg" in
  out.1.2 = 200 ∧
  json_get "access_granted" out.1.1 = Some (JBool false) ∧
  json_get "status" out.1.1 = Some (JStr "processing") ∧
  json_get "filename" out.1.1 = Some (JStr fname) ∧
  executor out.2 = executor st ++ [("uploads/" +:+ fname, "automatic")] ∧
  access_history out.2 = access_history st ∧
  notifications out.2 = notifications st ∧
  (∀ inp,
     let later :=
       process_face_recognition inp ("uploads/" +:+ fname) "automatic" out.2 in
     ∃ record,
       store (access_history later.2) !! fresh (dom (store (access_history st))) =
         Some record ∧
       access_granted record = rr_access_granted (recognize_face (in_deepface inp)) ∧
       json_get "access_granted" out.1.1 = Some (JBool false)).
Proof.
  split_and!; try done.
  intros inp later.
  pose proof (process_face_recognition_logs inp
                ("uploads/" +:+ "visitor_" +:+ timestamp_now +:+ ".jpg") "automatic"
                (upload timestamp_now data st).2) as Hlogs.
  cbv zeta in Hlogs. destruct Hlogs as [Hah _].
  subst later. rewrite Hah. eexists. simpl. rewrite lookup_insert_eq. done.
Qed.

Lemma find_first_Some {A} (p : A → bool) (h : gmap nat A) refs r :
  find_first p h refs = Some r →
  ∃ i x, refs !! i = Some r ∧ h !! r = Some x ∧ p x = true ∧
         ∀ j r' x', (j < i)%nat → refs !! j = Some r' → h !! r' = Some x' →
                    p x' = false.
Proof.
  induction refs as [|r0 refs IH]; [done|]. simpl.
  destruct (h !! r0) as [x0|] eqn:Hr0.
  - destruct (p x0) eqn:Hp.
    + intros [= <-]. exists 0%nat, x0. split_and!; try done. intros; lia.
    + intros (i & x & Hi & Hx & Hpx & Hbefore)%IH.
      exists (S i), x. split_and!; try done.
      intros [|j] r' x' Hj Hl Hx'; simplify_eq/=; [done|].
      eapply Hbefore; [|done..]. lia.
  - intros (i & x & Hi & Hx & Hpx & Hbefore)%IH.
    exists (S i), x. split_and!; try done.
    intros [|j] r' x' Hj Hl Hx'; simplify_eq/=.
    eapply Hbefore; [|done..]. lia.
Qed.

Lemma find_first_None {A} (p : A → bool) (h : gmap nat A) refs :
  find_first p h refs = None →
  ∀ r x, r ∈ refs → h !! r = Some x → p x = false.
Proof.
  induction refs as [|r0 refs IH]; simpl.
  - by intros _ r x ?%elem_of_nil.
  - destruct (h !! r0) as [x0|] eqn:Hr0.
    + destruct (p x0) eqn:Hp; [done|].
      intros Hf r x [->|Hr]%elem_of_cons Hx; [by simplify_eq|by eapply IH].
    + intros Hf r x [->|Hr]%elem_of_cons Hx; [by simplify_eq|by eapply IH].
Qed.

Lemma with_access_history_same st :
  with_access_history (λ _, access_history st) st = st.
Proof. by destruct st. Qed.

Lemma with_notifications_same st :
  with_notifications (λ _, notifications st) st = st.
Proof. by destruct st. Qed.

(** C4. A manual grant changes no list, and changes at most two dicts:
    the first access record, in list order, whose filename is the given one
    and the first such notification.  The record gets access_granted true,
    status granted, its method followed by _manual_override and the grant
    timestamp; the notification gets access_granted true, status granted and
    the manual label.  The answer carries one flag per log, each true
    exactly when that log had a match; when neither has one the state is
    left as it was and both flags are false. *)
Theorem manual_grant_changes_first_match_only fname now st :
  let out := grant_access true fname now st in
  let found_r :=
    find_first (record_matches fname)
      (store (access_history st)) (entries (access_history st)) in
  let found_n :=
    find_first (notification_matches fname)
      (store (notifications st)) (entries (notifications st)) in
  (∀ r, found_r = Some r →
     ∃ i x, entries (access_history st) !! i = Some r ∧
            store (access_history st) !! r = Some x ∧ filename x = fname ∧
            ∀ j r' x', (j < i)%nat → entries (access_history st) !! j = Some r' →
                       store (access_history st) !! r' = Some x' →
                       filename x' ≠ fname) ∧
  (∀ n, found_n = Some n →
     ∃ i y, entries (notifications st) !! i = Some n ∧
            store (notifications st) !! n = Some y ∧ n_filename y = fname ∧
            ∀ j n' y', (j < i)%nat → entries (notifications st) !! j = Some n' →
                       store (notifications st) !! n' = Some y' →
                       n_filename y' ≠ fname) ∧
  entries (access_history out.2) = entries (access_history st) ∧
  entries (notifications out.2) = entries (notifications st) ∧
  (∀ r, store (access_history out.2) !! r =
          if bool_decide (found_r = Some r)
          then grant_record now <$> store (access_history st) !! r
          else store (access_history st) !! r) ∧
  (∀ n, store (notifications out.2) !! n =
          if bool_decide (found_n = Some n)
          then grant_notification <$> store (notifications st) !! n
          else store (notifications st) !! n) ∧
  (∀ x, access_granted (grant_record now x) = true ∧
        status (grant_record now x) = "granted" ∧
        method (grant_record now x) = method x +:+ "_manual_override" ∧
        manual_grant_timestamp (grant_record now x) = Some now ∧
        filename (grant_record now x) = filename x ∧
        uid (grant_record now x) = uid x) ∧
  (∀ y, n_access_granted (grant_notification y) = true ∧
        n_status (grant_notification y) = "granted" ∧
        n_recognition_result (grant_notification y) = "Acces permis manual" ∧
        n_filename (grant_notification y) = n_filename y ∧
        n_uid (grant_notification y) = n_uid y) ∧
  json_get "record_updated" out.1.1 = Some (JBool (bool_decide (is_Some found_r))) ∧
  json_get "notification_updated" out.1.1 =
    Some (JBool (bool_decide (is_Some found_n))) ∧
  (found_r = None → found_n = None →
     out.2 = st ∧
     json_get "record_updated" out.1.1 = Some (JBool false) ∧
     json_get "notification_updated" out.1.1 = Some (JBool false)).
Proof.
  intros out found_r found_n.
  pose proof (grant_access_logs true fname now st) as Hlogs.
  cbv zeta in Hlogs. destruct Hlogs as [Hah Hno]. fold out in Hah, Hno.
  assert (out.1.1 =
          JObj [("success", JBool true);
                ("message", JStr ("Acces permis pentru " +:+ fname +:+ " - se deschide ușa..."));
                ("record_updated", JBool (bool_decide (is_Some found_r)));
                ("notification_updated", JBool (bool_decide (is_Some found_n)))])
    as Hbody.
  { subst out found_r found_n. unfold grant_access, grant_in_history,
      grant_in_notifications. simpl.
    destruct (find_first (record_matches fname) _ _);
      destruct (find_first (notification_matches fname) _ _); done. }
  unfold grant_in_history in Hah. unfold grant_in_notifications in Hno.
  fold found_r in Hah. fold found_n in Hno.
  split_and!.
  - intros r (i & x & Hi & Hx & Hp & Hb)%find_first_Some.
    exists i, x. split_and!; try done.
    + by apply String.eqb_eq.
    + intros j r' x' Hj Hl Hx'. apply String.eqb_neq. by eapply Hb.
  - intros n (i & y & Hi & Hy & Hp & Hb)%find_first_Some.
    exists i, y. split_and!; try done.
    + by apply String.eqb_eq.
    + intros j n' y' Hj Hl Hy'. apply String.eqb_neq. by eapply Hb.
  - rewrite Hah. by destruct found_r.
  - rewrite Hno. by destruct found_n.
  - intros r. rewrite Hah. clear Hbody. destruct found_r as [r0|]; simpl.
    + destruct (decide (r0 = r)) as [->|Hne].
      * by rewrite bool_decide_eq_true_2, lookup_alter_eq.
      * rewrite bool_decide_eq_false_2 by congruence. by rewrite lookup_alter_ne.
    + done.
  - intros n. rewrite Hno. clear Hbody. destruct found_n as [n0|]; simpl.
    + destruct (decide (n0 = n)) as [->|Hne].
      * by rewrite bool_decide_eq_true_2, lookup_alter_eq.
      * rewrite bool_decide_eq_false_2 by congruence. by rewrite lookup_alter_ne.
    + done.
  - done.
  - done.
  - by rewrite Hbody.
  - by rewrite Hbody.
  - intros Hr Hn. rewrite Hbody, Hr, Hn. split_and!; try done.
    subst out found_r found_n. unfold grant_access, grant_in_history,
      grant_in_notifications. simpl. rewrite Hr. simpl. rewrite Hn. simpl.
    by rewrite with_access_history_same, with_notifications_same.
Qed.






Lemma foldl_alter_lookup (f : list string → list string) cs
    (qs : gmap nat (list string)) q :
  NoDup cs →
  foldl (λ qs c, alter f c qs) qs cs !! q =
    if bool_decide (q ∈ cs) then f <$> qs !! q else qs !! q.
Proof.
  intros Hnd. revert qs. induction Hnd as [|c cs Hc Hnd IH]; intros qs; [done|].
  simpl. rewrite IH. destruct (decide (q = c)) as [->|Hne].
  - rewrite (bool_decide_eq_false_2 (c ∈ cs)) by done.
    rewrite bool_decide_eq_true_2 by by left. by rewrite lookup_alter_eq.
  - rewrite lookup_alter_ne by done.
    case_bool_decide as Hq.
    + rewrite bool_decide_eq_true_2; [done|]. by right.
    + rewrite bool_decide_eq_false_2; [done|].
      by intros [?|?]%elem_of_cons.
Qed.

(** Publishing appends the message to the queue of every registered
    connection and to no other queue. *)
Lemma notify_clients_queues msg st q :
  NoDup (sse_clients st) →
  sse_clients (notify_clients msg st) = sse_clients st ∧
  queue_store (notify_clients msg st) !! q =
    if bool_decide (q ∈ sse_clients st)
    then (λ items, items ++ [msg]) <$> queue_store st !! q
    else queue_store st !! q.
Proof.
  intros Hnd. split; [done|]. unfold notify_clients. simpl.
  by apply foldl_alter_lookup.
Qed.

(** Closing the stream of queue [q] when an earlier registered queue [c]
    holds the same items: [c] is the one removed, [q] stays registered. *)
Lemma event_stream_close_removes_first_equal q c cs st :
  sse_clients st = c :: cs →
  c ≠ q →
  queue_store st !! c = queue_store st !! q →
  sse_clients (event_stream_close q st) = cs.
Proof.
  intros Hcs Hne Heq. unfold event_stream_close, list_contains. rewrite Hcs.
  simpl. unfold same_or_equal at 1 3.
  rewrite (bool_decide_eq_false_2 (c = q)) by done.
  rewrite (bool_decide_eq_true_2 (queue_store st !! c = queue_store st !! q)) by done.
  done.
Qed.

End AppProperties.

(** * The model run on concrete inputs *)

(** C1, witness: a batch ending with id 42, a poll that times out, and a
    run whose polls are served in order. *)
Lemma cursor_monotone_witness :
  update_id (bare_update 42) = 42 ∧
  command_offset
    (bot (process_batch ([bare_update 40; bare_update 41] ++ [bare_update 42])
            (demo_machine true))) = 43 ∧
  command_offset (bot (worker_iteration PollTimeout (demo_machine true))) =
    command_offset (bot (demo_machine true)) ∧
  served_in_order (command_offset (bot (demo_machine true)))
    ([bare_update 40] ++ [bare_update 41; bare_update 42]) = true ∧
  command_offset (bot (process_batch [bare_update 40] (demo_machine true))) ≤
    command_offset
      (bot (process_batch ([bare_update 40] ++ [bare_update 41; bare_update 42])
              (demo_machine true))) ∧
  polls_in_order (command_offset (bot (demo_machine true)))
    (demo_polls_before ++ demo_polls_after) = true ∧
  command_offset (bot (command_listener_worker demo_polls_before (demo_machine true))) ≤
    command_offset
      (bot (command_listener_worker (demo_polls_before ++ demo_polls_after)
              (demo_machine true))).
Proof.
  destruct (@cursor_advances_and_is_monotone_for_ordered_source
              (list post_outcome) ascii_runtime scripted_environment)
    as (_ & Hbatch & Hfailed & Hwithin & Hrun).
  split; [reflexivity|].
  split; [exact (proj1 (Hbatch _ (bare_update 42) (demo_machine true) eq_refl))|].
  split; [apply Hfailed; intros result; discriminate|].
  split; [reflexivity|].
  split; [exact (proj2 (Hwithin [bare_update 40] [bare_update 41; bare_update 42]
                          (demo_machine true) eq_refl))|].
  split; [reflexivity|].
  exact (proj2 (Hrun demo_polls_before demo_polls_after (demo_machine true) eq_refl)).
Defined.

(** C1, counterexample: the command source answers one poll with the ids
    10 and 3, in that order; the cursor goes to 11 and then back to 4. *)
Lemma cursor_rolls_back_on_unordered_batch :
  command_offset (bot (process_batch [bare_update 10] (demo_machine true))) = 11 ∧
  command_offset
    (bot (worker_iteration (PollResponse 200 [bare_update 10; bare_update 3])
            (demo_machine true))) = 4.
Proof. vm_compute. done. Qed.

(** C5, witness: /open from chat 777 to a bot configured for chat 777,
    and the same command from chat 999. *)
Lemma open_dispatch_witness :
  door_calls (trace (process_update authorized_open (demo_machine true))) = 1%nat ∧
  posted_messages (trace (process_update authorized_open (demo_machine true))) =
    [("777", "🚪 Comandă trimisă! Ușa se deschide...")] ∧
  process_update stranger_open (demo_machine true) =
    with_bot (set_command_offset 9) (demo_machine true).
Proof.
  destruct (@open_from_authorized_chat_calls_controller_once
              (list post_outcome) ascii_runtime scripted_environment)
    as [Hopen Hignored].
  destruct (Hopen authorized_open _ "/open" demo_controller (demo_machine true)
              eq_refl eq_refl eq_refl eq_refl eq_refl eq_refl) as [Hcalls Hposted].
  destruct (Hignored stranger_open _ (demo_machine true) eq_refl
              ltac:(vm_compute; discriminate)) as [Hsame _].
  split; [exact Hcalls|]. split; [exact Hposted|]. exact Hsame.
Defined.

(** C5, counterexample: the same authorized /open when the bot is
    configured with enabled false; the controller is called once and no
    reply is posted. *)
Lemma reply_not_posted_when_disabled :
  message authorized_open =
    Some {| chat_id_of := IdInt 777; text_of := Some "/open" |} ∧
  py_str (IdInt 777) = chat_id (bot (demo_machine false)) ∧
  str_strip (str_lower "/open") = "/open" ∧
  door_calls (trace (process_update authorized_open (demo_machine false))) = 1%nat ∧
  posted_messages (trace (process_update authorized_open (demo_machine false))) = [] ∧
  trace (process_update authorized_open (demo_machine false)) =
    [ThreadStarted 0; DoorControllerCalled].
Proof. vm_compute. done. Qed.


(** C7, the failing input: the listener runs in thread 0, which is alive
    and has not returned when the pause ends; the token is changed.  The new token is
    stored and the loop is told to stop, but no thread is started and the
    listener is left stopped; the cursor is as before. *)
Theorem restart_skipped_while_old_worker_is_alive :
  running (bot (demo_machine true)) = true ∧
  thread_is_alive (demo_machine true) = true ∧
  bot_token (bot (update_config (Some "456:new") None None false (demo_machine true))) =
    "456:new" ∧
  running (bot (update_config (Some "456:new") None None false (demo_machine true))) =
    false ∧
  trace (demo_machine true) = [ThreadStarted 0] ∧
  trace (update_config (Some "456:new") None None false (demo_machine true)) =
    [ThreadStarted 0; Slept 1] ∧
  threads_started
    (trace (update_config (Some "456:new") None None false (demo_machine true))) =
    threads_started (trace (demo_machine true)) ∧
  command_offset
    (bot (update_config (Some "456:new") None None false (demo_machine true))) =
    command_offset (bot (demo_machine true)).
Proof. vm_compute. done. Qed.

(** The same update when the old worker has returned within the pause. *)
Example restart_after_worker_returned :
  running (bot (update_config (Some "456:new") None None true (demo_machine true))) =
    true ∧
  threads_started
    (trace (update_config (Some "456:new") None None true (demo_machine true))) =
    [0%nat; 1%nat].
Proof. vm_compute. done. Qed.

(** C4, witness: in a state with one record and one notification, a
    grant for a file no entry has, and the entry found for the recorded
    file. *)
Lemma manual_grant_witness :
  find_first (record_matches "missing.jpg")
    (store (access_history demo_state)) (entries (access_history demo_state)) = None ∧
  find_first (notification_matches "missing.jpg")
    (store (notifications demo_state)) (entries (notifications demo_state)) = None ∧
  (grant_access true "missing.jpg" "2025-01-01T12:05:00" demo_state).2 = demo_state ∧
  json_get "record_updated"
    (grant_access true "missing.jpg" "2025-01-01T12:05:00" demo_state).1.1 =
    Some (JBool false) ∧
  json_get "notification_updated"
    (grant_access true "missing.jpg" "2025-01-01T12:05:00" demo_state).1.1 =
    Some (JBool false) ∧
  find_first (record_matches "visitor_20250101_120000.jpg")
    (store (access_history demo_state)) (entries (access_history demo_state)) =
    Some 0%nat ∧
  (∃ i x,
     entries (access_history demo_state) !! i = Some 0%nat ∧
     store (access_history demo_state) !! 0%nat = Some x ∧
     filename x = "visitor_20250101_120000.jpg" ∧
     ∀ j r' x', (j < i)%nat →
       entries (access_history demo_state) !! j = Some r' →
       store (access_history demo_state) !! r' = Some x' →
       filename x' ≠ "visitor_20250101_120000.jpg").
Proof.
  pose proof (manual_grant_changes_first_match_only
                "missing.jpg" "2025-01-01T12:05:00" demo_state) as Hgrant.
  cbv zeta in Hgrant.
  destruct Hgrant as (_ & _ & _ & _ & _ & _ & _ & _ & _ & _ & Hnone).
  pose proof (manual_grant_changes_first_match_only
                "visitor_20250101_120000.jpg" "2025-01-01T12:05:00" demo_state)
    as Hfound.
  cbv zeta in Hfound. destruct Hfound as (Hfirst & _).
  assert (find_first (record_matches "missing.jpg")
            (store (access_history demo_state))
            (entries (access_history demo_state)) = None) as Hr
    by (vm_compute; reflexivity).
  assert (find_first (notification_matches "missing.jpg")
            (store (notifications demo_state))
            (entries (notifications demo_state)) = None) as Hn
    by (vm_compute; reflexivity).
  assert (find_first (record_matches "visitor_20250101_120000.jpg")
            (store (access_history demo_state))
            (entries (access_history demo_state)) = Some 0%nat) as Hs
    by (vm_compute; reflexivity).
  split; [exact Hr|]. split; [exact Hn|].
  destruct (Hnone Hr Hn) as (Hsame & Hflag_r & Hflag_n).
  split; [exact Hsame|]. split; [exact Hflag_r|]. split; [exact Hflag_n|].
  split; [exact Hs|]. exact (Hfirst 0%nat Hs).
Defined.

(** A grant for the recorded file: both dicts are changed and reported. *)
Example manual_grant_on_recorded_file :
  deref (store (access_history demo_state)) (entries (access_history demo_state)) =
    [create_access_record "rec-1" "2025-01-01T12:00:00" "visitor_20250101_120000.jpg"
       (recognize_face (FindResult [])) "automatic"] ∧
  deref (store (access_history
                  (grant_access true "visitor_20250101_120000.jpg"
                     "2025-01-01T12:05:00" demo_state).2))
        (entries (access_history demo_state)) =
    [grant_record "2025-01-01T12:05:00"
       (create_access_record "rec-1" "2025-01-01T12:00:00"
          "visitor_20250101_120000.jpg" (recognize_face (FindResult [])) "automatic")] ∧
  json_get "record_updated"
    (grant_access true "visitor_20250101_120000.jpg" "2025-01-01T12:05:00"
       demo_state).1.1 = Some (JBool true) ∧
  json_get "notification_updated"
    (grant_access true "visitor_20250101_120000.jpg" "2025-01-01T12:05:00"
       demo_state).1.1 = Some (JBool true).
Proof. vm_compute. done. Qed.


(** The three objects read after a grant: the global list and the copied
    list share their dicts with the log and show the granted notification,
    the response built before the grant does not.  Read after another
    visitor was processed, the global list has one entry more, the copied
    list and the response have not. *)
Example copied_list_shares_dicts :
  n_access_granted <$>
    deref (store (notifications demo_state))
          (list_copy (entries (notifications demo_state))) = [false] ∧
  n_access_granted <$>
    deref (store (notifications
                    (grant_access true "visitor_20250101_120000.jpg"
                       "2025-01-01T12:05:00" demo_state).2))
          (list_copy (entries (notifications demo_state))) = [true].
Proof. vm_compute. done. Qed.

Example response_is_out_of_reach :
  let granted :=
    (grant_access true "visitor_20250101_120000.jpg" "2025-01-01T12:05:00"
       demo_state).2 in
  let visited :=
    app_run [Upload "20250101_120100" "jpeg";
             WorkerStep (demo_inputs (FindResult [["known_faces/ana.jpg"]]))]
      demo_state in
  let copy := ListObject (list_copy (entries (notifications demo_state))) in
  let response := (get_notifications_response true demo_state).1 in
  let now o := read notification_json (notifications demo_state) o in
  read notification_json (notifications granted) GlobalList ≠ now GlobalList ∧
  read notification_json (notifications granted) copy ≠ now copy ∧
  read notification_json (notifications granted) response = now response ∧
  read notification_json (notifications visited) GlobalList ≠ now GlobalList ∧
  read notification_json (notifications visited) copy = now copy ∧
  read notification_json (notifications visited) response = now response.
Proof.
  cbv zeta. split_and!; try (vm_compute; done);
    intros Heq; vm_compute in Heq; discriminate Heq.
Qed.

(** C6, the failing input: two dashboards connect, A then B, and neither
    has anything queued; B disconnects.  [sse_clients.remove(client_queue)]
    removes the first element equal to B's empty queue, which is A's queue.
    An event published afterwards is appended to B's queue, whose connection
    is gone, and A, still connected, is sent a ping. *)
Theorem closing_one_stream_unregisters_another :
  (event_stream_open initial_state).1.1 = 0%nat ∧
  (event_stream_open (event_stream_open initial_state).2).1.1 = 1%nat ∧
  sse_clients (event_stream_open (event_stream_open initial_state).2).2 =
    [0%nat; 1%nat] ∧
  sse_clients
    (event_stream_close 1 (event_stream_open (event_stream_open initial_state).2).2) =
    [1%nat] ∧
  queue_store
    (notify_clients "event"
       (event_stream_close 1
          (event_stream_open (event_stream_open initial_state).2).2)) !! 0%nat =
    Some [] ∧
  queue_store
    (notify_clients "event"
       (event_stream_close 1
          (event_stream_open (event_stream_open initial_state).2).2)) !! 1%nat =
    Some ["event"] ∧
  (event_stream_next 0
     (notify_clients "event"
        (event_stream_close 1
           (event_stream_open (event_stream_open initial_state).2).2))).1 =
    FramePing.
Proof. vm_compute. done. Qed.

(** With something still queued for A, the same disconnection removes
    B's queue, as intended. *)
Example closing_with_distinct_queues :
  sse_clients
    (event_stream_close 1
       (event_stream_open
          (notify_clients "event" (event_stream_open initial_state).2)).2) =
    [0%nat].
Proof. vm_compute. done. Qed.

(** The two files together: /open from the authorized chat puts the
    telegram_open_door event in the queue of the connected dashboard and
    the reply is posted. *)
Example telegram_open_reaches_dashboard :
  queue_store (world (process_update authorized_open app_machine)).1 !! 0%nat =
    Some [json_dumps
            (JObj [("type", JStr "telegram_open_door");
                   ("message", JStr "Telegram door open command received");
                   ("timestamp", JStr "2025-01-01T12:10:00")])] ∧
  posted_messages (trace (process_update authorized_open app_machine)) =
    [("777", "🚪 Comandă trimisă! Ușa se deschide...")] ∧
  command_offset (bot (process_update authorized_open app_machine)) = 8.
Proof. vm_compute. done. Qed.

(** * Further properties of telegram_bot.py *)

Section MoreBotProperties.
Context {W : Type} `{!PyRuntime} `{!Environment W}.
Implicit Types (m : machine W) (b : TelegramBot W) (u : Update).

Lemma start_twice m :
  start_command_listener (start_command_listener m) = start_command_listener m.
Proof.
  unfold start_command_listener at 2.
  destruct (thread_is_alive m) eqn:Ha.
  { unfold start_command_listener. by rewrite Ha. }
  destruct (negb (is_configured (bot m))) eqn:Hc.
  { unfold start_command_listener. by rewrite Ha, Hc. }
  assert (start_command_listener m =
          {| bot := set_command_thread (Some (spawned m)) (set_running true (bot m));
             world := world m; alive := {[spawned m]} ∪ alive m;
             spawned := S (spawned m);
             trace := trace m ++ [ThreadStarted (spawned m)] |}) as ->.
  { unfold start_command_listener. by rewrite Ha, Hc. }
  unfold start_command_listener, thread_is_alive. simpl.
  rewrite bool_decide_eq_true_2; [done|].
  by apply elem_of_union_l, elem_of_singleton.
Qed.

(** X1. Any number of calls of [start_command_listener] in a row has the
    effect of the first one.  When a worker thread is alive or the bot is
    not configured (token or chat empty) the calls change nothing and start
    no thread; otherwise they start exactly one thread, the one the first
    call creates: [running] is set, [command_thread] is that thread, it is
    alive, and one thread start is added to those made before. *)
Theorem repeated_start_is_one_start n m :
  let out := Nat.iter (S n) start_command_listener m in
  out = start_command_listener m ∧
  out =
    (if thread_is_alive m || negb (is_configured (bot m)) then m
     else {| bot := set_command_thread (Some (spawned m))
                      (set_running true (bot m));
             world := world m;
             alive := {[spawned m]} ∪ alive m;
             spawned := S (spawned m);
             trace := trace m ++ [ThreadStarted (spawned m)] |}) ∧
  threads_started (trace out) =
    threads_started (trace m) ++
      (if thread_is_alive m || negb (is_configured (bot m)) then []
       else [spawned m]) ∧
  (if thread_is_alive m || negb (is_configured (bot m))
   then running (bot out) = running (bot m) ∧
        command_thread (bot out) = command_thread (bot m)
   else running (bot out) = true ∧
        command_thread (bot out) = Some (spawned m) ∧
        thread_is_alive out = true).
Proof.
  intros out.
  assert (out = start_command_listener m) as Hout.
  { subst out. induction n as [|n IH]; [done|].
    change (Nat.iter (S (S n)) start_command_listener m)
      with (start_command_listener (Nat.iter (S n) start_command_listener m)).
    rewrite IH. apply start_twice. }
  rewrite Hout. clear out Hout. split; [done|].
  unfold start_command_listener.
  destruct (thread_is_alive m) eqn:Ha; simpl.
  { by rewrite app_nil_r. }
  destruct (negb (is_configured (bot m))) eqn:Hc; simpl.
  { by rewrite app_nil_r. }
  split_and!; try done.
  - unfold threads_started. by rewrite omap_app.
  - unfold thread_is_alive. simpl. rewrite bool_decide_eq_true_2; [done|].
    by apply elem_of_union_l, elem_of_singleton.
Qed.

Lemma sleeps_app tr1 tr2 : sleeps (tr1 ++ tr2) = sleeps tr1 ++ sleeps tr2.
Proof. apply omap_app. Qed.

Lemma threads_started_app tr1 tr2 :
  threads_started (tr1 ++ tr2) = threads_started tr1 ++ threads_started tr2.
Proof. apply omap_app. Qed.

Lemma dispatch_effects_quiet tr :
  Forall (λ e, is_dispatch_effect e = true) tr →
  sleeps tr = [] ∧ threads_started tr = [].
Proof.
  induction 1 as [|e tr He _ [IH1 IH2]]; [done|].
  destruct e; try done.
Qed.

Lemma send_message_effects text m :
  ∃ tr, trace (send_message text m).2 = trace m ++ tr ∧
        Forall (λ e, is_dispatch_effect e = true) tr ∧
        alive (send_message text m).2 = alive m ∧
        spawned (send_message text m).2 = spawned m.
Proof.
  unfold send_message. case_match.
  - exists []. by rewrite app_nil_r.
  - exists [MessagePosted (chat_id (bot m)) text].
    repeat case_match; simpl; split_and!; try done; by repeat constructor.
Qed.

Lemma handle_command_effects c m :
  ∃ tr, trace (handle_command c m).2 = trace m ++ tr ∧
        Forall (λ e, is_dispatch_effect e = true) tr ∧
        alive (handle_command c m).2 = alive m ∧
        spawned (handle_command c m).2 = spawned m.
Proof.
  unfold handle_command.
  repeat case_match; simpl;
    first [ by (exists []; rewrite app_nil_r)
          | exists [DoorControllerCalled]; split_and!; try done; by repeat constructor ].
Qed.

Lemma dispatch_update_effects u m :
  ∃ tr, trace (dispatch_update u m) = trace m ++ tr ∧
        Forall (λ e, is_dispatch_effect e = true) tr ∧
        alive (dispatch_update u m) = alive m ∧
        spawned (dispatch_update u m) = spawned m.
Proof.
  unfold dispatch_update.
  destruct (message u) as [msg|]; [|by (exists []; rewrite app_nil_r)].
  case_match; [|by (exists []; rewrite app_nil_r)].
  case_match; [|by (exists []; rewrite app_nil_r)].
  destruct (handle_command_effects (default "" (text_of msg)) m)
    as (tr1 & Ht1 & Hf1 & Ha1 & Hs1).
  destruct (handle_command (default "" (text_of msg)) m) as [reply m1].
  simpl in *.
  destruct (send_message_effects reply m1) as (tr2 & Ht2 & Hf2 & Ha2 & Hs2).
  exists (tr1 ++ tr2). rewrite Ht2, Ht1, Ha2, Ha1, Hs2, Hs1, app_assoc.
  split_and!; try done. by apply Forall_app.
Qed.

Lemma process_batch_effects us m :
  ∃ tr, trace (process_batch us m) = trace m ++ tr ∧
        Forall (λ e, is_dispatch_effect e = true) tr ∧
        alive (process_batch us m) = alive m ∧
        spawned (process_batch us m) = spawned m.
Proof.
  induction us as [|u us IH] using rev_ind.
  - exists []. by rewrite app_nil_r.
  - rewrite process_batch_snoc. destruct IH as (tr1 & Ht1 & Hf1 & Ha1 & Hs1).
    unfold process_update.
    destruct (dispatch_update_effects u
                (with_bot (set_command_offset (update_id u + 1)) (process_batch us m)))
      as (tr2 & Ht2 & Hf2 & Ha2 & Hs2).
    simpl in *. exists (tr1 ++ tr2).
    rewrite Ht2, Ht1, Ha2, Ha1, Hs2, Hs1, app_assoc.
    split_and!; try done. by apply Forall_app.
Qed.

Lemma worker_iteration_frame p m :
  alive (worker_iteration p m) = alive m ∧
  spawned (worker_iteration p m) = spawned m ∧
  threads_started (trace (worker_iteration p m)) = threads_started (trace m) ∧
  sleeps (trace (worker_iteration p m)) =
    sleeps (trace m) ++ (if poll_failed p then [5] else []).
Proof.
  destruct p as [| |code result]; simpl.
  - by rewrite app_nil_r.
  - by rewrite threads_started_app, sleeps_app, app_nil_r.
  - case_bool_decide; simpl.
    + destruct (process_batch_effects result m) as (tr & Ht & Hf & Ha & Hs).
      destruct (dispatch_effects_quiet tr Hf) as [Hq1 Hq2].
      by rewrite Ht, threads_started_app, sleeps_app, Hq1, Hq2, !app_nil_r.
    + by rewrite threads_started_app, sleeps_app, app_nil_r.
Qed.

(** X2. The loop changes nothing of the bot but the cursor: token, chat,
    flags, thread and controller are as before, no thread is started or
    ended. *)
Theorem worker_changes_only_the_cursor polls m :
  bot (command_listener_worker polls m) =
    set_command_offset (command_offset (bot (command_listener_worker polls m))) (bot m) ∧
  alive (command_listener_worker polls m) = alive m ∧
  spawned (command_listener_worker polls m) = spawned m ∧
  threads_started (trace (command_listener_worker polls m)) =
    threads_started (trace m).
Proof.
  split; [apply worker_bot|].
  revert m. induction polls as [|p polls IH]; intros m; simpl; [done|].
  destruct (running (bot m)); [|done].
  destruct (IH (worker_iteration p m)) as (-> & -> & ->).
  by destruct (worker_iteration_frame p m) as (-> & -> & -> & _).
Qed.

(** X3. The loop pauses five seconds after every poll that raised something
    other than a timeout or was answered with another status than 200,
    and at no other time. *)
Theorem worker_sleeps_once_per_failed_poll polls m :
  sleeps (trace (command_listener_worker polls m)) =
  sleeps (trace m) ++
    (if running (bot m)
     then replicate (length (filter (λ p, poll_failed p = true) polls)) 5
     else []).
Proof.
  revert m. induction polls as [|p polls IH]; intros m; simpl.
  - by destruct (running (bot m)); rewrite app_nil_r.
  - destruct (running (bot m)) eqn:Hr; [|by rewrite app_nil_r].
    rewrite IH, worker_iteration_running, Hr.
    destruct (worker_iteration_frame p m) as (_ & _ & _ & ->).
    rewrite <- app_assoc. f_equal.
    rewrite filter_cons. by destruct (poll_failed p).
Qed.


(** X5. Over a whole run of the loop, an enabled and configured bot posts
    one reply, to its own chat, for every delivered command of the
    authorized chat, and nothing else; otherwise it posts nothing. *)
Theorem one_reply_per_authorized_command polls m :
  ∃ replies,
    posted_messages (trace (command_listener_worker polls m)) =
      posted_messages (trace m) ++ ((λ t, (chat_id (bot m), t)) <$> replies) ∧
    length replies =
      if running (bot m) && enabled (bot m) && is_configured (bot m)
      then length (filter (λ u, is_command_from (chat_id (bot m)) u = true)
                     (delivered polls))
      else 0%nat.
Proof. apply worker_posts. Qed.

Lemma start_command_listener_frame m :
  bot_token (bot (start_command_listener m)) = bot_token (bot m) ∧
  chat_id (bot (start_command_listener m)) = chat_id (bot m) ∧
  enabled (bot (start_command_listener m)) = enabled (bot m) ∧
  door_controller (bot (start_command_listener m)) = door_controller (bot m) ∧
  world (start_command_listener m) = world m ∧
  door_calls (trace (start_command_listener m)) = door_calls (trace m) ∧
  posted_messages (trace (start_command_listener m)) = posted_messages (trace m).
Proof.
  unfold start_command_listener. repeat case_match; simpl; split_and!; try done.
  - rewrite door_calls_app. unfold door_calls at 2.
    rewrite filter_cons_False by done. simpl. lia.
  - by rewrite posted_messages_app, app_nil_r.
Qed.

Lemma pause_frame returned m :
  world (pause returned m) = world m ∧
  door_calls (trace (pause returned m)) = door_calls (trace m) ∧
  posted_messages (trace (pause returned m)) = posted_messages (trace m).
Proof.
  unfold pause. case_match; simpl;
    by rewrite door_calls_slept, posted_messages_slept.
Qed.

(** X6. [update_config] stores the values given and keeps the others; it
    never touches the cursor, the controller or the environment, calls no
    controller and posts nothing. *)
Theorem update_config_stores_values_and_keeps_the_rest
    new_token new_chat new_enabled returned m :
  let m' := update_config new_token new_chat new_enabled returned m in
  bot_token (bot m') = default (bot_token (bot m)) new_token ∧
  chat_id (bot m') = default (chat_id (bot m)) new_chat ∧
  enabled (bot m') = default (enabled (bot m)) new_enabled ∧
  command_offset (bot m') = command_offset (bot m) ∧
  door_controller (bot m') = door_controller (bot m) ∧
  world m' = world m ∧
  door_calls (trace m') = door_calls (trace m) ∧
  posted_messages (trace m') = posted_messages (trace m).
Proof.
  intros m'. subst m'.
  split_and!; [| | |apply update_config_keeps_cursor|..];
    unfold update_config;
    match goal with
    | |- context [if ?c then _ else _] =>
        match c with (_ || _) && _ => destruct c end
    end;
    rewrite ?(proj1 (start_command_listener_frame _)),
      ?(proj1 (proj2 (start_command_listener_frame _))),
      ?(proj1 (proj2 (proj2 (start_command_listener_frame _)))),
      ?(proj1 (proj2 (proj2 (proj2 (start_command_listener_frame _))))),
      ?(proj1 (proj2 (proj2 (proj2 (proj2 (start_command_listener_frame _)))))),
      ?(proj1 (proj2 (proj2 (proj2 (proj2 (proj2 (start_command_listener_frame _))))))),
      ?(proj2 (proj2 (proj2 (proj2 (proj2 (proj2 (start_command_listener_frame _))))))),
      ?pause_bot, ?(proj1 (pause_frame _ _)), ?(proj1 (proj2 (pause_frame _ _))),
      ?(proj2 (proj2 (pause_frame _ _)));
    destruct new_token as [t|], new_chat as [c|], new_enabled as [e|]; simpl;
    repeat match goal with
    | |- context [String.eqb ?a ?b] => destruct (String.eqb_spec a b)
    end; simpl in *; congruence.
Qed.

(** [update_config] in one piece: the three assignments, then the
    restart when a value changed and the loop runs. *)
Lemma update_config_normal_form new_token new_chat new_enabled returned m :
  update_config new_token new_chat new_enabled returned m =
  let m3 :=
    with_bot (λ b, set_enabled (default (enabled b) new_enabled)
                     (set_chat_id (default (chat_id b) new_chat)
                        (set_bot_token (default (bot_token b) new_token) b))) m in
  if (negb (String.eqb (default (bot_token (bot m)) new_token) (bot_token (bot m))) ||
      negb (String.eqb (default (chat_id (bot m)) new_chat) (chat_id (bot m)))) &&
     running (bot m)
  then start_command_listener (pause returned (stop_command_listener m3))
  else m3.
Proof.
  destruct m as [[tok chat en off th run ctl] w al sp tr].
  unfold update_config.
  destruct new_token as [t|], new_chat as [c|], new_enabled as [e|]; simpl;
    rewrite ?String.eqb_refl; simpl;
    repeat match goal with
    | |- context [String.eqb ?a ?b] => destruct (String.eqb_spec a b); subst; simpl
    end; try done.
Qed.

(** X7. [update_config] touches the listener only when the loop runs and the
    token or the chat changes: a stopped listener stays stopped whatever
    is configured, and unchanged values start and stop nothing. *)
Theorem update_config_leaves_listener_unless_running_and_changed
    new_token new_chat new_enabled returned m :
  running (bot m) = false ∨
    (default (bot_token (bot m)) new_token = bot_token (bot m) ∧
     default (chat_id (bot m)) new_chat = chat_id (bot m)) →
  let m' := update_config new_token new_chat new_enabled returned m in
  running (bot m') = running (bot m) ∧
  command_thread (bot m') = command_thread (bot m) ∧
  trace m' = trace m ∧ alive m' = alive m ∧ spawned m' = spawned m.
Proof.
  intros Hcase m'. subst m'. rewrite update_config_normal_form. simpl.
  destruct Hcase as [Hr|[Ht Hc]].
  - by rewrite Hr, andb_false_r.
  - by rewrite Ht, Hc, !String.eqb_refl.
Qed.

(** X8. A changed token or chat while the loop runs, when the old worker has
    left its loop within the pause: one new worker thread is started and
    the loop runs again with the new values. *)
Theorem update_config_restarts_when_worker_returned
    new_token new_chat new_enabled m :
  running (bot m) = true →
  default (bot_token (bot m)) new_token ≠ bot_token (bot m) ∨
    default (chat_id (bot m)) new_chat ≠ chat_id (bot m) →
  default (bot_token (bot m)) new_token ≠ "" →
  default (chat_id (bot m)) new_chat ≠ "" →
  let m' := update_config new_token new_chat new_enabled true m in
  running (bot m') = true ∧
  command_thread (bot m') = Some (spawned m) ∧
  thread_is_alive m' = true ∧
  trace m' = trace m ++ [Slept 1; ThreadStarted (spawned m)] ∧
  bot_token (bot m') = default (bot_token (bot m)) new_token ∧
  chat_id (bot m') = default (chat_id (bot m)) new_chat.
Proof.
  intros Hr Hch Ht Hc m'. subst m'. rewrite update_config_normal_form. simpl.
  rewrite Hr, andb_true_r.
  assert (negb (String.eqb (default (bot_token (bot m)) new_token) (bot_token (bot m))) ||
          negb (String.eqb (default (chat_id (bot m)) new_chat) (chat_id (bot m))) = true)
    as ->.
  { destruct Hch as [Hn|Hn]; apply String.eqb_neq in Hn; rewrite Hn; simpl;
      [done|by rewrite orb_true_r]. }
  unfold start_command_listener, thread_is_alive, is_configured, pause. simpl.
  apply String.eqb_neq in Ht, Hc. rewrite Ht, Hc. simpl.
  destruct (command_thread (bot m)) as [t0|]; simpl;
    rewrite ?bool_decide_eq_false_2
      by (apply not_elem_of_difference; right; by apply elem_of_singleton);
    simpl; rewrite <- ?app_assoc; split_and!; try done;
    apply bool_decide_eq_true_2; by apply elem_of_union_l, elem_of_singleton.
Qed.

End MoreBotProperties.

Section NotifierProperties.
Context {W : Type} `{!Environment W} `{!NotifierEnvironment W}.
Implicit Types (n : notifier W) (m : machine W).

Lemma send_text_posts text n :
  photos (send_text text n).2 = photos n ∧
  bot (core (send_text text n).2) = bot (core n) ∧
  posted_messages (trace (core (send_text text n).2)) =
    posted_messages (trace (core n)) ++
    (if enabled (bot (core n)) && is_configured (bot (core n))
     then [(chat_id (bot (core n)), text)] else []).
Proof.
  unfold send_text.
  pose proof (send_message_trace text (core n)) as Ht.
  pose proof (send_message_bot text (core n)) as Hb.
  destruct (send_message text (core n)) as [ok m]. simpl in *.
  rewrite Ht, posted_messages_app. split_and!; try done.
  by destruct (enabled (bot (core n)) && is_configured (bot (core n))).
Qed.

Lemma send_text_off text n :
  enabled (bot (core n)) && is_configured (bot (core n)) = false →
  send_text text n = (false, n).
Proof.
  intros Hoff. unfold send_text, send_message.
  destruct (enabled (bot (core n))), (is_configured (bot (core n)));
    try done; by destruct n.
Qed.

Lemma send_text_on text n :
  enabled (bot (core n)) && is_configured (bot (core n)) = true →
  (send_text text n).1 =
    match (requests_post (bot_token (bot (core n))) (chat_id (bot (core n))) text
             (world (core n))).1 with
    | PostResponse code => bool_decide (code = 200)
    | PostRaises _ => false
    end.
Proof.
  intros [He Hc]%andb_true_iff. unfold send_text, send_message.
  rewrite He, Hc. simpl.
  by destruct (requests_post _ _ _ _) as [[code|exc] w].
Qed.

(** X9. A visitor notification of a bot that is enabled and configured makes
    one request.  When the image path is given and the file exists it is
    the sendPhoto request, unless opening the file raises: opened, the
    photo is requested for the bot's chat with the message as caption and
    the call answers True exactly when the request is answered with status
    200; when opening raises no photo is requested and the call answers
    False; no text is posted either way.  Otherwise the message is posted
    as text to the bot's chat, no photo is requested, and the call answers
    True exactly when that request is answered with status 200.  A bot that is disabled or not configured
    sends nothing and answers False. *)
Theorem visitor_notification_sends_photo_or_text
    access_granted recognized_person image_path n :
  let out := send_visitor_notification access_granted recognized_person image_path n in
  let m := core n in
  let message :=
    visitor_message access_granted recognized_person (strftime_now (world m)) in
  bot (core out.2) = bot m ∧
  if enabled (bot m) && is_configured (bot m) then
    if truthy image_path && path_exists (default "" image_path) (world m) then
      posted_messages (trace (core out.2)) = posted_messages (trace m) ∧
      match (requests_post_photo (bot_token (bot m)) (chat_id (bot m))
               (default "" image_path) message (world m)).1 with
      | OpenRaises _ => photos out.2 = photos n ∧ out.1 = false
      | PhotoRequested o =>
          photos out.2 =
            photos n ++ [(chat_id (bot m), default "" image_path, message)] ∧
          out.1 = match o with
                  | PostResponse code => bool_decide (code = 200)
                  | PostRaises _ => false
                  end
      end
    else
      photos out.2 = photos n ∧
      posted_messages (trace (core out.2)) =
        posted_messages (trace m) ++ [(chat_id (bot m), message)] ∧
      out.1 = match (requests_post (bot_token (bot m)) (chat_id (bot m)) message
                       (world m)).1 with
              | PostResponse code => bool_decide (code = 200)
              | PostRaises _ => false
              end
  else out = (false, n).
Proof.
  intros out m message. subst out. unfold send_visitor_notification. fold m message.
  destruct (enabled (bot m) && is_configured (bot m)) eqn:Hon.
  - destruct image_path as [p|]; simpl.
    + destruct (negb (String.eqb p "") && path_exists p (world m)) eqn:Hp.
      * unfold send_photo. fold m.
        apply andb_true_iff in Hon as [-> ->]. apply andb_true_iff in Hp as [_ ->].
        simpl.
        destruct (requests_post_photo _ _ _ _ _) as [[exc|o] w]; simpl;
          by split_and!.
      * destruct (send_text_posts message n) as (Hph & Hb & Hpost).
        fold m in Hb, Hpost. rewrite Hon in Hpost. split_and!; try done.
        by apply send_text_on.
    + destruct (send_text_posts message n) as (Hph & Hb & Hpost).
      fold m in Hb, Hpost. rewrite Hon in Hpost. split_and!; try done.
      by apply send_text_on.
  - assert (send_text message n = (false, n)) as Htext by by apply send_text_off.
    destruct image_path as [p|]; simpl; [|by rewrite Htext].
    destruct (negb (String.eqb p "") && path_exists p (world m)); [|by rewrite Htext].
    unfold send_photo. fold m.
    by destruct (enabled (bot m)), (is_configured (bot m)).
Qed.

(** X10. Without a configuration file, or with one that cannot be read, the
    bot is created without token and chat: app.py's start leaves its
    listener stopped, it sends nothing, and configuring it later through
    [update_config] does not start the listener.  A file holding a JSON
    value that is no object makes the creation raise. *)
Theorem bot_without_configuration_never_listens
    `{!PyRuntime} exc controller (w : W) text token chat en returned items photos0 :
  let m := {| bot := set_door_controller controller (new_bot "" "" true);
              world := w; alive := ∅; spawned := 0%nat; trace := [] |} in
  start_bot ConfigMissing controller w = inr (Some m) ∧
  start_bot (ConfigUnreadable exc) controller w = inr (Some m) ∧
  running (bot m) = false ∧ command_thread (bot m) = None ∧
  send_message text m = (false, m) ∧
  (∀ granted person image_path,
     send_visitor_notification granted person image_path
       {| core := m; photos := photos0 |} = (false, {| core := m; photos := photos0 |})) ∧
  (∀ polls, command_listener_worker polls m = m) ∧
  running (bot (update_config (Some token) (Some chat) en returned m)) = false ∧
  trace (update_config (Some token) (Some chat) en returned m) = [] ∧
  start_bot (W:=W) (ConfigJson (JList items)) controller w =
    inl "'list' object has no attribute 'get'".
Proof.
  intros m. split_and!; try done.
  - intros granted person image_path. unfold send_visitor_notification.
    destruct image_path as [p|]; simpl; [|done].
    by destruct (negb (String.eqb p "") && path_exists p w).
  - intros polls. by apply worker_not_running.
  - rewrite update_config_normal_form. simpl. by rewrite andb_false_r.
  - rewrite update_config_normal_form. simpl. by rewrite andb_false_r.
Qed.

End NotifierProperties.


(** * Further properties of app.py *)

Section MoreAppProperties.
Context `{!PyRuntime}.
Implicit Types (st : AppState) (l : list nat).

Lemma notify_clients_hub_ok msg st : hub_ok st → hub_ok (notify_clients msg st).
Proof.
  intros [Hnd Hq]. split; [done|]. intros c Hc.
  destruct (notify_clients_queues msg st c Hnd) as [_ ->].
  rewrite bool_decide_eq_true_2 by done.
  destruct (Hq c Hc) as [items ->]. by eexists.
Qed.

Lemma list_remove_sublist qs q cs : sublist (list_remove qs q cs) cs.
Proof.
  induction cs as [|c cs IH]; simpl; [done|].
  case_match; [by apply sublist_cons|by apply sublist_skip].
Qed.

Lemma event_stream_open_hub_ok st : hub_ok st → hub_ok (event_stream_open st).2.
Proof.
  intros [Hnd Hq]. simpl.
  assert (fresh (dom (queue_store st)) ∉ sse_clients st) as Hfresh.
  { intros Hin. apply Hq, elem_of_dom in Hin. by apply is_fresh in Hin. }
  split; simpl.
  - apply NoDup_app. split_and!; [done| |apply NoDup_singleton].
    intros c Hc ->%list_elem_of_singleton. done.
  - intros c [Hc| ->%list_elem_of_singleton]%elem_of_app.
    + rewrite lookup_insert_ne; [by apply Hq|]. by intros <-.
    + by rewrite lookup_insert_eq.
Qed.

Lemma event_stream_next_hub_ok q st : hub_ok st → hub_ok (event_stream_next q st).2.
Proof.
  intros [Hnd Hq]. unfold event_stream_next.
  destruct (queue_store st !! q) as [[|msg rest]|] eqn:Hl; [done| |done].
  split; [done|]. simpl. intros c Hc.
  destruct (decide (c = q)) as [->|Hne].
  - by rewrite lookup_insert_eq.
  - rewrite lookup_insert_ne by done. by apply Hq.
Qed.

Lemma event_stream_close_hub_ok q st : hub_ok st → hub_ok (event_stream_close q st).
Proof.
  intros [Hnd Hq]. unfold event_stream_close. case_match; [|done].
  pose proof (list_remove_sublist (queue_store st) q (sse_clients st)) as Hsub.
  split; simpl.
  - by apply (sublist_NoDup _ _ Hnd).
  - intros c Hc. apply Hq. by apply (elem_of_sublist _ _ _ Hc).
Qed.

(** The hub after a run of the pipeline: that of the state before, with
    the event published unless the door request raised. *)
Lemma process_face_recognition_hub inp image_path meth st :
  let out := process_face_recognition inp image_path meth st in
  let recognition := recognize_face (in_deepface inp) in
  let record :=
    create_access_record (in_record_uuid inp) (in_now inp)
      (path_basename image_path) recognition meth in
  let event :=
    json_dumps
      (JObj [("type", JStr (event_type_of meth (rr_access_granted recognition)));
             ("data", notification_json
                        (create_notification (in_notification_uuid inp) record))]) in
  match out.1 with
  | inr _ =>
      sse_clients out.2 = sse_clients (notify_clients event st) ∧
      queue_store out.2 = queue_store (notify_clients event st)
  | inl exc =>
      sse_clients out.2 = sse_clients st ∧ queue_store out.2 = queue_store st ∧
      rr_access_granted recognition = true ∧ in_esp32 inp = EspOtherException exc
  end.
Proof.
  unfold process_face_recognition. simpl.
  destruct (rr_access_granted (recognize_face (in_deepface inp))) eqn:Hg;
    destruct (in_telegram inp); simpl;
    try (destruct (in_esp32 inp) as [code| |]; simpl; try case_bool_decide); simpl;
    done.
Qed.

Lemma process_face_recognition_hub_ok inp image_path meth st :
  hub_ok st → hub_ok (process_face_recognition inp image_path meth st).2.
Proof.
  intros Hok. pose proof (process_face_recognition_hub inp image_path meth st) as Hh.
  simpl in Hh. unfold hub_ok.
  destruct (process_face_recognition inp image_path meth st).1.
  - destruct Hh as (-> & -> & _). apply Hok.
  - destruct Hh as (-> & ->). by apply notify_clients_hub_ok.
Qed.

Lemma grant_access_hub li fname now st :
  let out := grant_access li fname now st in
  (sse_clients out.2 = sse_clients st ∧ queue_store out.2 = queue_store st) ∨
  ∃ msg, sse_clients out.2 = sse_clients (notify_clients msg st) ∧
         queue_store out.2 = queue_store (notify_clients msg st).
Proof.
  unfold grant_access. destruct li; simpl; [|by left].
  destruct (grant_in_history fname now (access_history st)) as [upd history] eqn:Hh.
  destruct (grant_in_notifications fname _) as [nupd notes] eqn:Hn.
  simpl. destruct upd; [|by left].
  unfold announce_grant. simpl.
  repeat case_match; try by left.
  right. by eexists.
Qed.

Lemma app_step_hub_ok e st : hub_ok st → hub_ok (app_step e st).
Proof.
  intros Hok. destruct e as [ts data|inp|li fname now|li| |q|q|now]; simpl.
  - apply Hok.
  - unfold executor_step. destruct (executor st) as [|[p meth] rest] eqn:He; [done|].
    unfold run_task. simpl.
    pose proof (process_face_recognition_hub_ok inp p meth
                  (with_executor (λ _, rest) st) Hok) as Hp.
    by destruct (process_face_recognition inp p meth _) as [[?|?] ?].
  - destruct (grant_access_hub li fname now st) as [[Hc Hq]|(msg & Hc & Hq)];
      unfold hub_ok; rewrite Hc, Hq; [apply Hok|by apply notify_clients_hub_ok].
  - unfold clear_notifications. by destruct li.
  - by apply event_stream_open_hub_ok.
  - by apply event_stream_next_hub_ok.
  - by apply event_stream_close_hub_ok.
  - by apply notify_clients_hub_ok.
Qed.

Lemma app_run_hub_ok es : hub_ok (app_run es initial_state).
Proof.
  induction es as [|e es IH] using rev_ind.
  - split; [constructor|]. by intros c ?%elem_of_nil.
  - unfold app_run. rewrite foldl_app. simpl. by apply app_step_hub_ok.
Qed.

Lemma with_hub_same st : with_hub (queue_store st) (sse_clients st) st = st.
Proof. by destruct st. Qed.

Lemma stream_frames_empty k q st :
  queue_store st !! q = Some [] →
  stream_frames k q st = (replicate k FramePing, st).
Proof.
  intros Hq. induction k as [|k IH]; [done|].
  simpl. unfold event_stream_next. rewrite Hq. by rewrite IH.
Qed.

Lemma stream_frames_drain items k q st :
  queue_store st !! q = Some items →
  (stream_frames (length items + k) q st).1 =
    (FrameData <$> items) ++ replicate k FramePing.
Proof.
  revert st. induction items as [|msg items IH]; intros st Hq.
  - simpl. by rewrite stream_frames_empty.
  - simpl. unfold event_stream_next. rewrite Hq.
    specialize (IH (with_hub (<[q := items]> (queue_store st)) (sse_clients st) st)).
    destruct (stream_frames (length items + k) q _) as [fs st2].
    simpl in *. rewrite IH; [done|]. by rewrite lookup_insert_eq.
Qed.

Lemma publish_all_queue msgs q items st :
  hub_ok st → q ∈ sse_clients st → queue_store st !! q = Some items →
  queue_store (foldl (λ s msg, notify_clients msg s) st msgs) !! q =
    Some (items ++ msgs).
Proof.
  revert st items. induction msgs as [|msg msgs IH]; intros st items Hok Hin Hq.
  - by rewrite app_nil_r.
  - simpl. rewrite (IH _ (items ++ [msg])).
    + by rewrite <- app_assoc.
    + by apply notify_clients_hub_ok.
    + done.
    + destruct (notify_clients_queues msg st q (proj1 Hok)) as [_ ->].
      by rewrite bool_decide_eq_true_2, Hq.
Qed.

Lemma process_face_recognition_calls inp image_path meth st :
  calls (process_face_recognition inp image_path meth st).2 =
  calls st ++
    VisitorNotification (rr_access_granted (recognize_face (in_deepface inp)))
      (rr_recognized_person (recognize_face (in_deepface inp))) image_path ::
    (if rr_access_granted (recognize_face (in_deepface inp))
     then [OpenDoorRequest] else []).
Proof.
  unfold process_face_recognition. simpl.
  destruct (rr_access_granted (recognize_face (in_deepface inp))) eqn:Hg;
    destruct (in_telegram inp); simpl;
    try (destruct (in_esp32 inp) as [code| |]; simpl; try case_bool_decide); simpl;
    by rewrite <- ?app_assoc.
Qed.

Lemma notify_clients_calls msg st : calls (notify_clients msg st) = calls st.
Proof. done. Qed.

Lemma grant_access_calls li fname now st :
  calls (grant_access li fname now st).2 = calls st.
Proof.
  unfold grant_access. destruct li; simpl; [|done].
  destruct (grant_in_history fname now (access_history st)) as [upd history].
  destruct (grant_in_notifications fname _) as [nupd notes].
  simpl. destruct upd; [|done].
  unfold announce_grant. simpl. by repeat case_match.
Qed.

Lemma recognize_face_granted o :
  rr_access_granted (recognize_face o) = true ↔
  ∃ best rows frames, o = FindResult ((best :: rows) :: frames).
Proof.
  split.
  - destruct o as [e|[|[|best rows] frames]]; try done. by eexists _, _, _.
  - by intros (best & rows & frames & ->).
Qed.

(** X11. A run of the pipeline logs its record at the head of the history and
    then ends in one of two ways, decided by the door request.  When the
    face is recognised and the request to the ESP32 raises something that
    is not a RequestException, the exception leaves the pipeline: nothing
    is published to the hub and the task returns None, although the
    record is logged.  In every other case -- no
    recognised face, or a door request that is answered or raises a
    RequestException -- the pipeline returns the record, the task returns
    it, and the event has been published to the hub. *)
Theorem pipeline_publishes_unless_door_request_raises inp image_path meth st :
  let out := process_face_recognition inp image_path meth st in
  let recognition := recognize_face (in_deepface inp) in
  let record :=
    create_access_record (in_record_uuid inp) (in_now inp)
      (path_basename image_path) recognition meth in
  let event :=
    json_dumps
      (JObj [("type", JStr (event_type_of meth (rr_access_granted recognition)));
             ("data", notification_json
                        (create_notification (in_notification_uuid inp) record))]) in
  store (access_history out.2) !! fresh (dom (store (access_history st))) =
    Some record ∧
  head (entries (access_history out.2)) =
    Some (fresh (dom (store (access_history st)))) ∧
  out.1 =
    match in_esp32 inp with
    | EspOtherException exc =>
        if rr_access_granted recognition then inl exc
        else inr (fresh (dom (store (access_history st))))
    | _ => inr (fresh (dom (store (access_history st))))
    end ∧
  match out.1 with
  | inr r =>
      r = fresh (dom (store (access_history st))) ∧
      (run_task inp (image_path, meth) st).1 = Some r ∧
      sse_clients out.2 = sse_clients (notify_clients event st) ∧
      queue_store out.2 = queue_store (notify_clients event st)
  | inl exc =>
      rr_access_granted recognition = true ∧
      in_esp32 inp = EspOtherException exc ∧
      (run_task inp (image_path, meth) st).1 = None ∧
      sse_clients out.2 = sse_clients st ∧ queue_store out.2 = queue_store st
  end.
Proof.
  intros out recognition record event.
  destruct (process_face_recognition_logs inp image_path meth st) as [Hah _].
  cbv zeta in Hah. fold out recognition record in Hah |- *.
  rewrite Hah. simpl.
  split; [by rewrite lookup_insert_eq|].
  split; [apply head_insert_front; lia|].
  split.
  { subst out. unfold process_face_recognition. simpl. fold recognition.
    destruct (rr_access_granted recognition); [|by destruct (in_esp32 inp)].
    unfold open_door. destruct (in_esp32 inp) as [code|exc|exc]; simpl; try done.
    by case_bool_decide. }
  pose proof (process_face_recognition_hub inp image_path meth st) as Hh.
  cbv zeta in Hh. fold out recognition record event in Hh.
  unfold run_task. simpl. fold out.
  assert (∀ r, out.1 = inr r → r = fresh (dom (store (access_history st)))) as Hr.
  { subst out. unfold process_face_recognition. simpl.
    repeat (case_match; simpl); congruence. }
  destruct out as [[exc|r] st'] eqn:Hout; simpl in *.
  - by destruct Hh as (-> & -> & -> & ->).
  - destruct Hh as (-> & ->). split_and!; try done. by apply Hr.
Qed.

Lemma recognize_face_consistent o :
  (rr_access_granted (recognize_face o) = true ↔ rr_status (recognize_face o) = "granted") ∧
  (rr_status (recognize_face o) = "granted" ∨ rr_status (recognize_face o) = "denied" ∨
   rr_status (recognize_face o) = "error").
Proof. destruct o as [e|[|[|best rows] frames]]; simpl; split; try done; auto. Qed.

Lemma grant_record_consistent now x : record_consistent (grant_record now x).
Proof. split; [done|by left]. Qed.

Lemma grant_notification_consistent y : notification_consistent (grant_notification y).
Proof. split; [done|by left]. Qed.

Lemma app_step_consistent e st :
  map_Forall (λ _ x, record_consistent x) (store (access_history st)) →
  map_Forall (λ _ y, notification_consistent y) (store (notifications st)) →
  map_Forall (λ _ x, record_consistent x) (store (access_history (app_step e st))) ∧
  map_Forall (λ _ y, notification_consistent y) (store (notifications (app_step e st))).
Proof.
  intros Hh Hn. destruct e as [ts data|inp|li fname now|li| |q|q|now]; simpl;
    try done.
  - unfold executor_step. destruct (executor st) as [|[p meth] rest] eqn:He; [done|].
    unfold run_task. simpl.
    destruct (process_face_recognition_logs inp p meth (with_executor (λ _, rest) st))
      as [Hah Hno].
    cbv zeta in Hah, Hno.
    destruct (process_face_recognition inp p meth _) as [[?|?] st'];
      simpl in *; rewrite Hah, Hno; simpl;
      (split; (apply map_Forall_insert_2; [|done]));
      apply recognize_face_consistent.
  - destruct (grant_access_logs li fname now st) as [Hah Hno].
    cbv zeta in Hah, Hno. rewrite Hah, Hno.
    destruct li; [|done].
    unfold grant_in_history, grant_in_notifications.
    split; case_match; simpl; try done.
    + intros r x [[_ (x0 & _ & ->)]|[_ Hx]]%lookup_alter_Some;
        [apply grant_record_consistent|by apply (Hh r)].
    + intros r x [[_ (x0 & _ & ->)]|[_ Hx]]%lookup_alter_Some;
        [apply grant_notification_consistent|by apply (Hn r)].
  - unfold clear_notifications. by destruct li.
  - unfold event_stream_next. by repeat case_match.
  - unfold event_stream_close. by case_match.
Qed.

Lemma find_first_ext {A} (p : A → bool) (h h' : gmap nat A) refs :
  (∀ r, r ∈ refs → p <$> h' !! r = p <$> h !! r) →
  find_first p h' refs = find_first p h refs.
Proof.
  induction refs as [|r refs IH]; intros Hp; [done|]. simpl.
  pose proof (Hp r (list_elem_of_here _ _)) as Hr.
  rewrite IH by (intros r' Hr'; apply Hp; by right).
  destruct (h !! r), (h' !! r); simpl in Hr; try done.
  by injection Hr as ->.
Qed.

Lemma find_first_after_grant fname now (l : Log AccessRecord) :
  find_first (record_matches fname) (store (grant_in_history fname now l).2)
    (entries (grant_in_history fname now l).2) =
  find_first (record_matches fname) (store l) (entries l).
Proof.
  unfold grant_in_history.
  destruct (find_first (record_matches fname) (store l) (entries l)) as [r|] eqn:Hf;
    simpl; [|done].
  rewrite <- Hf. apply find_first_ext. intros r' _.
  destruct (decide (r' = r)) as [->|Hne].
  - rewrite lookup_alter_eq. by destruct (store l !! r).
  - by rewrite lookup_alter_ne.
Qed.

(** X12. A manual grant publishes one [access_granted_manual] event carrying
    the record as it is after the update when a record of the file is
    found, and publishes nothing otherwise. *)
Theorem manual_grant_publishes_the_updated_record fname now st :
  let out := grant_access true fname now st in
  let found :=
    r ← find_first (record_matches fname)
           (store (access_history st)) (entries (access_history st));
    store (access_history st) !! r in
  sse_clients out.2 = sse_clients st ∧
  queue_store out.2 =
    match found with
    | Some x =>
        queue_store
          (notify_clients
             (json_dumps (JObj [("type", JStr "access_granted_manual");
                                ("data", record_json (grant_record now x))])) st)
    | None => queue_store st
    end ∧
  (is_Some found ↔
   json_get "record_updated" out.1.1 = Some (JBool true)).
Proof.
  intros out found. subst out found. unfold grant_access. simpl.
  pose proof (find_first_after_grant fname now (access_history st)) as Hagain.
  unfold grant_in_history in *.
  destruct (find_first (record_matches fname) (store (access_history st))
              (entries (access_history st))) as [r|] eqn:Hf; simpl in *.
  - destruct (find_first_Some _ _ _ _ Hf) as (i & x & _ & Hx & _).
    destruct (grant_in_notifications fname (notifications st)) as [nupd notes].
    simpl. unfold announce_grant. simpl. rewrite Hagain, Hx. simpl.
    rewrite lookup_alter_eq, Hx. simpl. by split_and!.
  - simpl. destruct (grant_in_notifications fname (notifications st)) as [nupd notes].
    simpl. split_and!; try done.
Qed.

(** X13. Granting the same file twice changes the same record twice: the
    suffix is appended to the method a second time and the grant
    timestamp is that of the second request. *)
Theorem second_grant_appends_the_suffix_again fname now1 now2 st r :
  find_first (record_matches fname)
    (store (access_history st)) (entries (access_history st)) = Some r →
  let st1 := (grant_access true fname now1 st).2 in
  let st2 := (grant_access true fname now2 st1).2 in
  ∃ x, store (access_history st) !! r = Some x ∧
       store (access_history st2) !! r =
         Some (grant_record now2 (grant_record now1 x)) ∧
       method (grant_record now2 (grant_record now1 x)) =
         (method x +:+ "_manual_override") +:+ "_manual_override" ∧
       manual_grant_timestamp (grant_record now2 (grant_record now1 x)) = Some now2.
Proof.
  intros Hf st1 st2.
  destruct (find_first_Some _ _ _ _ Hf) as (i & x & _ & Hx & _).
  exists x. split; [done|]. split; [|done].
  subst st2.
  destruct (grant_access_logs true fname now2 st1) as [-> _].
  subst st1.
  destruct (grant_access_logs true fname now1 st) as [-> _].
  pose proof (find_first_after_grant fname now1 (access_history st)) as Hagain.
  unfold grant_in_history at 1. rewrite Hagain, Hf. simpl.
  rewrite lookup_alter_eq. unfold grant_in_history. rewrite Hf. simpl.
  by rewrite lookup_alter_eq, Hx.
Qed.

Lemma filter_other_not_in (q : nat) (cs : list nat) : q ∉ cs → filter (λ c, c ≠ q) cs = cs.
Proof.
  induction cs as [|c cs IH]; [done|].
  intros [Hne Hin]%not_elem_of_cons.
  rewrite filter_cons_True by done. by rewrite IH.
Qed.

Lemma list_remove_filter (qs : gmap nat (list string)) (q : nat) (cs : list nat) :
  NoDup cs →
  forallb (λ c, bool_decide (c = q) || negb (bool_decide (qs !! c = qs !! q))) cs = true →
  list_remove qs q cs = filter (λ c, c ≠ q) cs ∧
  (list_contains qs q cs = false → q ∉ cs).
Proof.
  induction 1 as [|c cs Hc Hnd IH]; [by split; [|intros _ ?%elem_of_nil]|].
  simpl. intros [Hhead Htail]%andb_true_iff. destruct (IH Htail) as [IH1 IH2].
  unfold same_or_equal. destruct (decide (c = q)) as [->|Hne].
  - rewrite bool_decide_eq_true_2 by done. simpl.
    rewrite filter_cons_False by (by intros ?).
    by rewrite filter_other_not_in.
  - rewrite bool_decide_eq_false_2 in Hhead |- * by done. simpl in *.
    apply negb_true_iff in Hhead. rewrite Hhead. simpl.
    rewrite filter_cons_True by done. rewrite IH1. split; [done|].
    intros Hno. apply not_elem_of_cons. split; [done|]. by apply IH2.
Qed.

End MoreAppProperties.

(** X14. With no dashboard connected the callback still reports success: the
    bot answers that the door opens, while nothing is queued for any
    dashboard and the ESP32 is not contacted. *)
Theorem telegram_open_without_dashboard_reports_success
    now text (m : machine (AppState * list post_outcome)) :
  door_controller (bot m) = Some (app_controller now) →
  str_strip (str_lower text) = "/open" →
  sse_clients (world m).1 = [] →
  (handle_command text m).1 = "🚪 Comandă trimisă! Ușa se deschide..." ∧
  world (handle_command text m).2 = world m.
Proof.
  intros Hctl Hopen Hnone.
  rewrite (handle_command_open text (app_controller now) m Hopen Hctl).
  unfold app_controller, door_controller_callback, notify_clients. simpl.
  rewrite Hnone. simpl. split; [done|].
  destruct (world m) as [st posts]. simpl in *. rewrite <- Hnone.
  by rewrite with_hub_same.
Qed.

Lemma foldl_cleanup_blocked (remove_raises : string → bool) (paths : list string) :
  foldl (λ acc file_path, acc ≫= cleanup_file (remove_raises file_path) file_path)
    None paths = None.
Proof. by induction paths. Qed.

Lemma release_unlocked rm : lock_held rm = false → release rm = rm.
Proof. destruct rm as [tf lk]. simpl. by intros ->. Qed.

Lemma cleanup_all_blocked remove_raises s :
  lock_held (manager s) = false → temp_files (manager s) ≠ ∅ →
  cleanup_all remove_raises s = None.
Proof.
  intros Hfree Hne. unfold cleanup_all, acquire. rewrite Hfree. simpl.
  destruct (elements (temp_files (manager s))) as [|p paths] eqn:He.
  - by apply elements_empty_inv, leibniz_equiv in He.
  - simpl. by rewrite foldl_cleanup_blocked.
Qed.

(** X15. [cleanup_all] returns only when no file is tracked: with a tracked
    file it calls [cleanup_file] while it holds the lock, and that call
    waits for the same lock for ever. *)
Theorem cleanup_all_returns_only_when_nothing_is_tracked remove_raises s :
  cleanup_all remove_raises s =
    if lock_held (manager s) then None
    else if decide (temp_files (manager s) = ∅) then Some s else None.
Proof.
  destruct (lock_held (manager s)) eqn:Hlk.
  - unfold cleanup_all, acquire. by rewrite Hlk.
  - destruct (decide (temp_files (manager s) = ∅)) as [Hempty|Hne].
    + unfold cleanup_all, acquire. rewrite Hlk, Hempty. simpl.
      rewrite elements_empty. simpl.
      destruct s as [[tf lk] fs]. simpl in *. by subst.
    + by apply cleanup_all_blocked.
Qed.

(** X16. A temporary image file is deleted and forgotten when its [with] block
    ends; when deleting it raises, the file stays tracked, and a later
    [cleanup_all] never returns. *)
Theorem temp_file_is_removed_when_the_block_ends temp_path body remove_raises s :
  lock_held (manager s) = false →
  let inside := body temp_path ({[temp_path]} ∪ files s) in
  with_temp_image_file temp_path body false s =
    Some {| manager := {| temp_files := temp_files (manager s) ∖ {[temp_path]};
                          lock_held := false |};
            files := inside ∖ {[temp_path]} |} ∧
  (temp_path ∈ inside →
   ∃ s', with_temp_image_file temp_path body true s = Some s' ∧
         temp_path ∈ temp_files (manager s') ∧ temp_path ∈ files s' ∧
         cleanup_all remove_raises s' = None).
Proof.
  intros Hfree inside. unfold with_temp_image_file, temp_image_file_enter, acquire.
  rewrite Hfree. simpl. unfold cleanup_file, acquire. simpl. fold inside.
  rewrite andb_false_r.
  rewrite bool_decide_eq_true_2 by (by apply elem_of_union_l, elem_of_singleton).
  split.
  - simpl. unfold release. simpl. do 3 f_equal.
    apply set_eq. intros x. rewrite !elem_of_difference, elem_of_union, elem_of_singleton.
    tauto.
  - intros Hin. rewrite bool_decide_eq_true_2 by done. simpl.
    eexists. split; [done|]. simpl.
    split; [by apply elem_of_union_l, elem_of_singleton|]. split; [done|].
    apply cleanup_all_blocked; [done|]. simpl.
    intros Hempty. apply (not_elem_of_empty (C:=gset string) temp_path).
    rewrite <- Hempty. by apply elem_of_union_l, elem_of_singleton.
Qed.

Section FullRunProperties.
Context `{!PyRuntime}.
Implicit Types (st : AppState) (l : list nat).

Lemma captured_spec o :
  captured o = match capture_image o with
               | inr image_data => if truthy image_data then image_data else None
               | inl _ => None
               end.
Proof.
  unfold captured. destruct (capture_image o) as [exc|[content|]]; simpl; try done.
  by destruct (String.eqb content "").
Qed.

Lemma capture_and_process_failed o ts inp st :
  captured o = None →
  (capture_and_process o ts inp st).2 = st ∧
  ∃ msg, (capture_and_process o ts inp st).1 = inl msg.
Proof.
  rewrite captured_spec. unfold capture_and_process.
  destruct (capture_image o) as [exc|image_data]; [by eauto|].
  destruct (truthy image_data) eqn:Ht; [|by eauto].
  intros ->. done.
Qed.

(** A capture that yields an image runs the pipeline of an upload on the
    saved file, without the visitor notification and with its own
    event. *)
Lemma capture_and_process_captured o ts inp st data :
  captured o = Some data →
  let fname := "manual_capture_" +:+ ts +:+ ".jpg" in
  let recognition := recognize_face (in_deepface inp) in
  let record :=
    create_access_record (in_record_uuid inp) (in_now inp) fname recognition "manual" in
  let notification := create_notification (in_notification_uuid inp) record in
  let r := fresh (dom (store (access_history st))) in
  let n := fresh (dom (store (notifications st))) in
  let event :=
    json_dumps (JObj [("type", JStr "manual_capture_with_recognition");
                      ("data", notification_json notification)]) in
  let out := capture_and_process o ts inp st in
  uploads out.2 = <["uploads/" +:+ fname := data]> (uploads st) ∧
  executor out.2 = executor st ∧
  access_history out.2 =
    {| store := <[r := record]> (store (access_history st));
       entries := insert_front 50 r (entries (access_history st)) |} ∧
  notifications out.2 =
    {| store := <[n := notification]> (store (notifications st));
       entries := insert_front 20 n (entries (notifications st)) |} ∧
  calls out.2 =
    calls st ++ (if rr_access_granted recognition then [OpenDoorRequest] else []) ∧
  match out.1 with
  | inr r' =>
      r' = r ∧
      sse_clients out.2 = sse_clients (notify_clients event st) ∧
      queue_store out.2 = queue_store (notify_clients event st)
  | inl exc =>
      rr_access_granted recognition = true ∧ in_esp32 inp = EspOtherException exc ∧
      sse_clients out.2 = sse_clients st ∧ queue_store out.2 = queue_store st
  end.
Proof.
  rewrite captured_spec. unfold capture_and_process.
  destruct (capture_image o) as [exc|image_data]; [done|].
  destruct (truthy image_data) eqn:Ht; [|done].
  intros ->. simpl.
  destruct (rr_access_granted (recognize_face (in_deepface inp))) eqn:Hg; simpl;
    try (destruct (in_esp32 inp) as [code| |]; simpl; try case_bool_decide); simpl;
    rewrite ?app_nil_r; done.
Qed.

Lemma detect_face_stream_frame li image_file ts now extract remove_raises st :
  let out := detect_face_stream li image_file ts now extract remove_raises st in
  access_history out.2 = access_history st ∧
  notifications out.2 = notifications st ∧
  sse_clients out.2 = sse_clients st ∧
  queue_store out.2 = queue_store st ∧
  calls out.2 = calls st.
Proof.
  unfold detect_face_stream. destruct li, image_file, extract; done.
Qed.

Lemma full_step_hub_ok e st : hub_ok st → hub_ok (full_step e st).
Proof.
  intros Hok. destruct e as [e|o ts inp|li image_file ts now extract rr|li o]; simpl;
    [| | |by destruct li, o as [code| |]; simpl; try case_bool_decide].
  - by apply app_step_hub_ok.
  - destruct (captured o) as [data|] eqn:Hc.
    + pose proof (capture_and_process_captured o ts inp st data Hc) as Hk.
      cbv zeta in Hk. destruct Hk as (_ & _ & _ & _ & _ & Hk). unfold hub_ok.
      destruct (capture_and_process o ts inp st).1.
      * destruct Hk as (_ & _ & -> & ->). apply Hok.
      * destruct Hk as (_ & -> & ->). by apply notify_clients_hub_ok.
    + by destruct (capture_and_process_failed o ts inp st Hc) as [-> _].
  - destruct (detect_face_stream_frame li image_file ts now extract rr st)
      as (_ & _ & Hc & Hq & _).
    unfold hub_ok. rewrite Hc, Hq. apply Hok.
Qed.

Lemma full_run_hub_ok es : hub_ok (full_run es initial_state).
Proof.
  induction es as [|e es IH] using rev_ind.
  - split; [constructor|]. by intros c ?%elem_of_nil.
  - unfold full_run. rewrite foldl_app. simpl. by apply full_step_hub_ok.
Qed.

Lemma full_step_consistent e st :
  map_Forall (λ _ x, record_consistent x) (store (access_history st)) →
  map_Forall (λ _ y, notification_consistent y) (store (notifications st)) →
  map_Forall (λ _ x, record_consistent x) (store (access_history (full_step e st))) ∧
  map_Forall (λ _ y, notification_consistent y) (store (notifications (full_step e st))).
Proof.
  intros Hh Hn. destruct e as [e|o ts inp|li image_file ts now extract rr|li o]; simpl;
    [| | |by destruct li, o as [code| |]; simpl; try case_bool_decide].
  - by apply app_step_consistent.
  - destruct (captured o) as [data|] eqn:Hc.
    + pose proof (capture_and_process_captured o ts inp st data Hc) as Hk.
      cbv zeta in Hk. destruct Hk as (_ & _ & -> & -> & _). simpl.
      split; (apply map_Forall_insert_2; [|done]); apply recognize_face_consistent.
    + by destruct (capture_and_process_failed o ts inp st Hc) as [-> _].
  - destruct (detect_face_stream_frame li image_file ts now extract rr st)
      as (-> & -> & _). done.
Qed.

(** X17. In every reachable state, publishing a message appends it to the
    queue of every connected dashboard and changes nothing else of the
    hub. *)
Theorem publish_reaches_every_connected_dashboard es msg :
  let st := full_run es initial_state in
  sse_clients (notify_clients msg st) = sse_clients st ∧
  (∀ q, q ∈ sse_clients st →
        ∃ items, queue_store st !! q = Some items ∧
                 queue_store (notify_clients msg st) !! q = Some (items ++ [msg])) ∧
  (∀ q, q ∉ sse_clients st →
        queue_store (notify_clients msg st) !! q = queue_store st !! q).
Proof.
  intros st. destruct (full_run_hub_ok es) as [Hnd Hq]. fold st in Hnd, Hq.
  split_and!; [done| |].
  - intros q Hin. destruct (Hq q Hin) as [items Hi]. exists items. split; [done|].
    destruct (notify_clients_queues msg st q Hnd) as [_ ->].
    by rewrite bool_decide_eq_true_2, Hi.
  - intros q Hin. destruct (notify_clients_queues msg st q Hnd) as [_ ->].
    by rewrite bool_decide_eq_false_2.
Qed.

(** X18. A dashboard that connects in any reachable state receives the
    connected frame.  When messages are then published one after the
    other, with nothing else done to the hub in between (no stream is
    opened, read or closed), the reads of its stream that follow give
    exactly those messages, in the order of publication, and then one
    keep-alive for every further read. *)
Theorem subscriber_receives_published_messages_in_order es msgs k :
  let opened := event_stream_open (full_run es initial_state) in
  let q := opened.1.1 in
  let st2 := foldl (λ s msg, notify_clients msg s) opened.2 msgs in
  opened.1.2 = FrameConnected ∧
  (stream_frames (length msgs + k) q st2).1 =
    (FrameData <$> msgs) ++ replicate k FramePing.
Proof.
  intros opened q st2. split; [done|].
  apply stream_frames_drain. subst st2 q opened.
  rewrite (publish_all_queue msgs _ []); [done| | |].
  - apply event_stream_open_hub_ok, full_run_hub_ok.
  - simpl. apply elem_of_app. right. by apply list_elem_of_singleton.
  - simpl. by rewrite lookup_insert_eq.
Qed.

(** X19. In every reachable state the flag and the status of every record and
    of every notification agree: granted is true exactly when the status
    is granted, and the status is one of granted, denied and error. *)
Theorem flag_and_status_agree_in_reachable_states es :
  map_Forall (λ _ x, record_consistent x)
    (store (access_history (full_run es initial_state))) ∧
  map_Forall (λ _ y, notification_consistent y)
    (store (notifications (full_run es initial_state))).
Proof.
  induction es as [|e es [IH1 IH2]] using rev_ind.
  - split; apply map_Forall_empty.
  - unfold full_run. rewrite foldl_app. simpl. by apply full_step_consistent.
Qed.

(** X20. Closing a stream in a reachable state in which no other connection's
    queue holds the same items: exactly the queue of that stream is
    unregistered, and no queue is changed. *)
Theorem closing_unregisters_own_queue_when_contents_differ es q :
  let st := full_run es initial_state in
  forallb (λ c, bool_decide (c = q) ||
                negb (bool_decide (queue_store st !! c = queue_store st !! q)))
    (sse_clients st) = true →
  sse_clients (event_stream_close q st) = filter (λ c, c ≠ q) (sse_clients st) ∧
  queue_store (event_stream_close q st) = queue_store st.
Proof.
  intros st Hdiff. destruct (full_run_hub_ok es) as [Hnd _]. fold st in Hnd.
  destruct (list_remove_filter (queue_store st) q (sse_clients st) Hnd Hdiff)
    as [Hrm Hno].
  unfold event_stream_close.
  destruct (list_contains (queue_store st) q (sse_clients st)) eqn:Hc; simpl.
  - by rewrite Hrm.
  - by rewrite filter_other_not_in by by apply Hno.
Qed.

(** X21. Where the requests and tasks that [full_step] covers call
    [ESP32Controller.open_door] and
    [telegram_bot.send_visitor_notification], the two calls that [calls]
    records.  The door request is made by the door route for a
    logged-in user, and otherwise only when DeepFace found a match: by a
    run of the recognition pipeline, after the visitor notification of
    that run, or by a manual capture that yielded an image.  The visitor
    notification is called by every run of the pipeline and nowhere else.
    An upload, a manual grant, clearing the notifications, the event
    stream, the Telegram [/open] callback, a stream frame and the door
    route without a login make neither call.  Requests to the camera (the
    capture of a manual capture is one) are not among the recorded
    calls. *)
Theorem door_is_requested_only_for_a_recognised_face e st :
  calls (full_step e st) =
    calls st ++
    match e with
    | Core (WorkerStep inp) =>
        match executor st with
        | (image_path, meth) :: _ =>
            let recognition := recognize_face (in_deepface inp) in
            VisitorNotification (rr_access_granted recognition)
              (rr_recognized_person recognition) image_path ::
            (if rr_access_granted recognition then [OpenDoorRequest] else [])
        | [] => []
        end
    | ManualCapture o _ inp =>
        if bool_decide (is_Some (captured o)) &&
           rr_access_granted (recognize_face (in_deepface inp))
        then [OpenDoorRequest] else []
    | DoorOpen logged_in _ => if logged_in then [OpenDoorRequest] else []
    | _ => []
    end ∧
  ∀ inp, rr_access_granted (recognize_face (in_deepface inp)) = true ↔
         ∃ best rows frames, in_deepface inp = FindResult ((best :: rows) :: frames).
Proof.
  split; [|intros inp; apply recognize_face_granted].
  destruct e as [e|o ts inp|li image_file ts now extract rr|li o]; simpl;
    [| | |destruct li, o as [code| |]; simpl; try case_bool_decide;
          by rewrite ?app_nil_r].
  - destruct e as [ts data|inp|li fname now|li| |q|q|now]; simpl;
      rewrite ?app_nil_r; try done.
    + unfold executor_step. destruct (executor st) as [|[p meth] rest] eqn:He;
        [by rewrite app_nil_r|].
      unfold run_task. simpl.
      pose proof (process_face_recognition_calls inp p meth
                    (with_executor (λ _, rest) st)) as Hc.
      by destruct (process_face_recognition inp p meth _) as [[?|?] ?].
    + apply grant_access_calls.
    + unfold clear_notifications. by destruct li.
    + unfold event_stream_next. by repeat case_match.
    + unfold event_stream_close. by case_match.
  - destruct (captured o) as [data|] eqn:Hc.
    + pose proof (capture_and_process_captured o ts inp st data Hc) as Hk.
      cbv zeta in Hk. destruct Hk as (_ & _ & _ & _ & -> & _).
      by rewrite bool_decide_eq_true_2 by by eexists.
    + destruct (capture_and_process_failed o ts inp st Hc) as [-> _].
      rewrite bool_decide_eq_false_2 by (by intros [? ?]). simpl.
      by rewrite app_nil_r.
  - destruct (detect_face_stream_frame li image_file ts now extract rr st)
      as (_ & _ & _ & _ & ->). by rewrite app_nil_r.
Qed.


(** X22. The background function of a manual capture, given the outcome of
    its capture request to the camera.  When the request yields no image
    (an answer other than 200, an empty body or an exception) the state
    is left as it was and an error message is returned.  When it yields an
    image, the image is saved and a record and a notification with method
    manual are logged, each a new dict at the head of its list;
    [send_visitor_notification] is never called, and
    [ESP32Controller.open_door] is called exactly when the face was
    recognised. *)
Theorem manual_capture_logs_without_notifying_telegram o ts inp st :
  let out := capture_and_process o ts inp st in
  let fname := "manual_capture_" +:+ ts +:+ ".jpg" in
  let recognition := recognize_face (in_deepface inp) in
  let record :=
    create_access_record (in_record_uuid inp) (in_now inp) fname recognition "manual" in
  match captured o with
  | None => out.2 = st ∧ ∃ msg, out.1 = inl msg
  | Some data =>
      uploads out.2 = <["uploads/" +:+ fname := data]> (uploads st) ∧
      store (access_history out.2) !! fresh (dom (store (access_history st))) =
        Some record ∧
      head (entries (access_history out.2)) =
        Some (fresh (dom (store (access_history st)))) ∧
      store (notifications out.2) !! fresh (dom (store (notifications st))) =
        Some (create_notification (in_notification_uuid inp) record) ∧
      head (entries (notifications out.2)) =
        Some (fresh (dom (store (notifications st)))) ∧
      calls out.2 =
        calls st ++ (if rr_access_granted recognition then [OpenDoorRequest] else [])
  end.
Proof.
  intros out fname recognition record.
  destruct (captured o) as [data|] eqn:Hc.
  - pose proof (capture_and_process_captured o ts inp st data Hc) as Hk.
    cbv zeta in Hk. fold out fname recognition record in Hk.
    destruct Hk as (Hu & _ & Hh & Hn & Hcalls & _). rewrite Hu, Hh, Hn, Hcalls. simpl.
    rewrite !lookup_insert_eq. split_and!; try done; apply head_insert_front; lia.
  - by apply capture_and_process_failed.
Qed.

(** X23. The frame route changes neither the logs nor the hub and calls
    neither [send_visitor_notification] nor [ESP32Controller.open_door].
    Without a login it answers 401, with no [face_detected] key, and
    without an image 400: nothing is saved and no task is submitted.  With
    an image the frame is saved; when a face is found in it the answer is
    200 with [face_detected] true, a [stream_detection] task for the saved
    file is submitted and the file is kept; when [extract_faces] raises
    ValueError the answer is 200, and for any other exception 500, both
    with [face_detected] false: no task is submitted and the file of that
    name is deleted again, unless deleting raises, which leaves it in
    place. *)
Theorem stream_frame_submits_a_task_only_for_a_face
    li image_file ts now extract remove_raises st :
  let out := detect_face_stream li image_file ts now extract remove_raises st in
  let path := "uploads/" +:+ ("stream_capture_" +:+ ts +:+ ".jpg") in
  let face := frame_has_face li image_file extract in
  access_history out.2 = access_history st ∧
  notifications out.2 = notifications st ∧
  sse_clients out.2 = sse_clients st ∧
  queue_store out.2 = queue_store st ∧
  calls out.2 = calls st ∧
  executor out.2 =
    executor st ++ (if face then [(path, "stream_detection")] else []) ∧
  json_get "face_detected" out.1.1 = (if li then Some (JBool face) else None) ∧
  out.1.2 =
    (if negb li then 401
     else match image_file, extract with
          | None, _ => 400
          | Some _, ExtractOtherException _ => 500
          | Some _, _ => 200
          end) ∧
  uploads out.2 =
    match image_file with
    | Some data =>
        if negb li then uploads st
        else if face || remove_raises then <[path := data]> (uploads st)
        else delete path (uploads st)
    | None => uploads st
    end.
Proof.
  intros out path face. subst out path face.
  unfold detect_face_stream, frame_has_face, remove_file,
    process_face_recognition_async.
  destruct li, image_file as [data|], extract; simpl;
    rewrite ?app_nil_r, ?lookup_insert_eq; simpl;
    split_and!; try done;
    destruct remove_raises; simpl; by rewrite ?delete_insert_eq.
Qed.

(** X24. File names carry the time to the second, so two requests within one
    second share a file: the second upload overwrites the image of the
    first while both tasks stay queued, and a stream frame without a face
    deletes the file of a frame with a face whose task is still queued. *)
Theorem requests_within_one_second_share_a_file
    ts data1 data2 now1 now2 exc remove_raises st :
  let upload_path := "uploads/" +:+ ("visitor_" +:+ ts +:+ ".jpg") in
  let uploaded := (upload ts data2 (upload ts data1 st).2).2 in
  let stream_path := "uploads/" +:+ ("stream_capture_" +:+ ts +:+ ".jpg") in
  let streamed :=
    (detect_face_stream true (Some data2) ts now2 (ExtractValueError exc) false
       (detect_face_stream true (Some data1) ts now1 FacesFound remove_raises st).2).2 in
  uploads uploaded !! upload_path = Some data2 ∧
  executor uploaded =
    executor st ++ [(upload_path, "automatic"); (upload_path, "automatic")] ∧
  uploads streamed !! stream_path = None ∧
  executor streamed = executor st ++ [(stream_path, "stream_detection")].
Proof.
  simpl. unfold remove_file. rewrite lookup_insert_eq, andb_false_r, lookup_delete_eq.
  by rewrite <- app_assoc.
Qed.

End FullRunProperties.

Section ListViewProperties.
Context `{!PyRuntime}.
Implicit Types (st : AppState) (l : list nat).

Lemma fresh_not_in_log {A} (lg : Log A) :
  log_wf lg → fresh (dom (store lg)) ∉ entries lg.
Proof.
  intros Hwf Hin. apply Hwf, elem_of_dom in Hin. by apply is_fresh in Hin.
Qed.

Lemma NoDup_insert_front cap r l :
  (length l ≤ cap)%nat → NoDup l → r ∉ l → NoDup (insert_front cap r l).
Proof.
  intros Hlen Hnd Hr. rewrite insert_front_take by done.
  apply (sublist_NoDup _ (r :: l)); [by constructor|apply sublist_take].
Qed.

Lemma app_step_logs_nodup e st :
  logs_ok st → logs_nodup st → logs_nodup (app_step e st).
Proof.
  intros (Hh & Hn & Hwh & Hwn) [Hdh Hdn].
  destruct e as [ts data|inp|li fname now|li| |q|q|now]; simpl; try done.
  - unfold executor_step. destruct (executor st) as [|[path meth] rest]; [done|].
    unfold run_task. simpl.
    pose proof (process_face_recognition_logs inp path meth
                  (with_executor (λ _, rest) st)) as [Hah Hno].
    destruct (process_face_recognition _ _ _ _) as [[exc|r] st']; simpl in *;
      unfold logs_nodup; rewrite Hah, Hno; simpl;
      (split; apply NoDup_insert_front; try done; by apply fresh_not_in_log).
  - pose proof (grant_access_logs li fname now st) as [Hah Hno].
    simpl in *. unfold logs_nodup. rewrite Hah, Hno. destruct li; [|done].
    unfold grant_in_history, grant_in_notifications.
    by destruct (find_first _ _ (entries (access_history st)));
      destruct (find_first _ _ (entries (notifications st))).
  - unfold clear_notifications. destruct li; simpl; [|done].
    split; [done|constructor].
  - unfold event_stream_next. by repeat case_match.
  - unfold event_stream_close. by case_match.
Qed.

Lemma full_step_logs e st :
  logs_ok st ∧ logs_nodup st → logs_ok (full_step e st) ∧ logs_nodup (full_step e st).
Proof.
  intros [Hok Hnd]. destruct e as [e|o ts inp|li image_file ts now extract rr|li o];
    simpl; [| | |by destruct li, o as [code| |]; simpl; try case_bool_decide].
  - split; [by apply app_step_logs_ok|by apply app_step_logs_nodup].
  - destruct Hok as (Hh & Hn & Hwh & Hwn). destruct Hnd as [Hdh Hdn].
    destruct (captured o) as [data|] eqn:Hc.
    + pose proof (capture_and_process_captured o ts inp st data Hc) as Hk.
      cbv zeta in Hk. destruct Hk as (_ & _ & Hah & Hno & _).
      unfold logs_ok, logs_nodup. rewrite Hah, Hno. simpl.
      split_and!; try (by apply insert_front_length);
        try (by apply log_wf_new_insert);
        apply NoDup_insert_front; try done; by apply fresh_not_in_log.
    + by destruct (capture_and_process_failed o ts inp st Hc) as [-> _].
  - destruct (detect_face_stream_frame li image_file ts now extract rr st)
      as (Hah & Hno & _).
    unfold logs_ok, logs_nodup. by rewrite Hah, Hno.
Qed.

Lemma full_run_logs es :
  logs_ok (full_run es initial_state) ∧ logs_nodup (full_run es initial_state).
Proof.
  induction es as [|e es IH] using rev_ind.
  - split; [apply initial_state_ok|split; constructor].
  - unfold full_run. rewrite foldl_app. simpl. by apply full_step_logs.
Qed.

Lemma deref_cons {A} (h : gmap nat A) r refs :
  deref h (r :: refs) =
  match h !! r with
  | Some x => x :: deref h refs
  | None => deref h refs
  end.
Proof. done. Qed.

Lemma deref_alter_not_in {A} (f : A → A) r (h : gmap nat A) refs :
  r ∉ refs → deref (alter f r h) refs = deref h refs.
Proof.
  induction refs as [|r0 refs IH]; [done|].
  intros [Hne Hin]%not_elem_of_cons.
  rewrite !deref_cons, lookup_alter_ne by done. by rewrite IH.
Qed.

Lemma deref_alter_at {A} (f : A → A) r (h : gmap nat A) refs i :
  NoDup refs → (∀ r', r' ∈ refs → is_Some (h !! r')) → refs !! i = Some r →
  deref (alter f r h) refs = alter f i (deref h refs).
Proof.
  intros Hnd. revert i. induction Hnd as [|r0 refs Hr0 Hnd IH]; intros i Hall Hi;
    [done|].
  destruct (Hall r0 (list_elem_of_here _ _)) as [x Hx].
  rewrite !deref_cons, Hx. destruct i as [|i]; simpl in Hi.
  - simplify_eq. rewrite lookup_alter_eq, Hx. simpl.
    f_equal. by apply deref_alter_not_in.
  - assert (r0 ≠ r) as Hne.
    { intros ->. apply Hr0. by eapply list_elem_of_lookup_2. }
    rewrite lookup_alter_ne, Hx by done. simpl. f_equal.
    apply IH; [|done]. intros r' Hr'. apply Hall. by right.
Qed.

Lemma find_first_list_find {A} (p : A → bool) (h : gmap nat A) refs :
  (∀ r, r ∈ refs → is_Some (h !! r)) →
  match find_first p h refs with
  | Some r =>
      ∃ i x, list_find (λ x, p x = true) (deref h refs) = Some (i, x) ∧
             refs !! i = Some r ∧ h !! r = Some x
  | None => list_find (λ x, p x = true) (deref h refs) = None
  end.
Proof.
  induction refs as [|r0 refs IH]; intros Hall; [done|].
  destruct (Hall r0 (list_elem_of_here _ _)) as [x Hx].
  specialize (IH (λ r Hr, Hall r (list_elem_of_further _ _ _ Hr))).
  rewrite deref_cons. simpl. rewrite Hx. simpl.
  destruct (p x) eqn:Hp.
  - exists 0%nat, x. rewrite decide_True by done. done.
  - rewrite decide_False by congruence.
    destruct (find_first p h refs) as [r|].
    + destruct IH as (i & y & -> & Hi & Hy). by exists (S i), y.
    + by rewrite IH.
Qed.

Lemma grant_list_view {A} (p : A → bool) (f : A → A) (lg : Log A) :
  log_wf lg → NoDup (entries lg) →
  let found := find_first p (store lg) (entries lg) in
  deref (match found with
         | Some r => alter f r (store lg)
         | None => store lg
         end) (entries lg) =
  match list_find (λ x, p x = true) (deref (store lg) (entries lg)) with
  | Some (i, _) => alter f i (deref (store lg) (entries lg))
  | None => deref (store lg) (entries lg)
  end.
Proof.
  intros Hwf Hnd found. subst found.
  pose proof (find_first_list_find p (store lg) (entries lg) Hwf) as Hfind.
  destruct (find_first p (store lg) (entries lg)) as [r|].
  - destruct Hfind as (i & x & -> & Hi & _). by apply deref_alter_at.
  - by rewrite Hfind.
Qed.

(** X25. In every reachable state, also with manual captures and stream
    frames, the access history holds at most 50 entries and the
    notifications at most 20, every entry is a dict of its own (none is
    in a list twice) and none is missing. *)
Theorem logs_stay_bounded_with_captures_and_frames es :
  let st := full_run es initial_state in
  (length (entries (access_history st)) ≤ 50)%nat ∧
  (length (entries (notifications st)) ≤ 20)%nat ∧
  NoDup (entries (access_history st)) ∧ NoDup (entries (notifications st)) ∧
  length (deref (store (access_history st)) (entries (access_history st))) =
    length (entries (access_history st)) ∧
  length (deref (store (notifications st)) (entries (notifications st))) =
    length (entries (notifications st)).
Proof.
  intros st. destruct (full_run_logs es) as [(Hh & Hn & Hwh & Hwn) [Hdh Hdn]].
  fold st in Hh, Hn, Hwh, Hwn, Hdh, Hdn. split_and!; try done.
  - clear -Hwh. unfold log_wf in Hwh. induction (entries (access_history st)) as [|r l IH];
      [done|].
    destruct (Hwh r (list_elem_of_here _ _)) as [x Hx]. rewrite deref_cons, Hx. simpl.
    f_equal. apply IH. intros r' Hr'. apply Hwh. by right.
  - clear -Hwn. unfold log_wf in Hwn. induction (entries (notifications st)) as [|r l IH];
      [done|].
    destruct (Hwn r (list_elem_of_here _ _)) as [x Hx]. rewrite deref_cons, Hx. simpl.
    f_equal. apply IH. intros r' Hr'. apply Hwn. by right.
Qed.

(** X26. What the dashboard reads after a manual grant, in every reachable
    state: the access history as it was with exactly one entry changed,
    the first one recorded for the file, and likewise the
    notifications; with no entry for the file the lists are as before. *)
Theorem manual_grant_changes_one_entry_of_each_list es fname now :
  let st := full_run es initial_state in
  let st' := (grant_access true fname now st).2 in
  let history := deref (store (access_history st)) (entries (access_history st)) in
  let notes := deref (store (notifications st)) (entries (notifications st)) in
  get_access_history true st' =
    (JList (record_json <$>
              match list_find (λ x, record_matches fname x = true) history with
              | Some (i, _) => alter (grant_record now) i history
              | None => history
              end), 200) ∧
  get_notifications true st' =
    (JList (notification_json <$>
              match list_find (λ y, notification_matches fname y = true) notes with
              | Some (i, _) => alter grant_notification i notes
              | None => notes
              end), 200).
Proof.
  intros st st' history notes.
  destruct (full_run_logs es) as [(_ & _ & Hwh & Hwn) [Hdh Hdn]].
  fold st in Hwh, Hwn, Hdh, Hdn.
  destruct (grant_access_logs true fname now st) as [Hah Hno].
  cbv zeta in Hah, Hno. fold st' in Hah, Hno.
  unfold get_access_history, get_notifications, list_copy. simpl.
  rewrite Hah, Hno. unfold grant_in_history, grant_in_notifications.
  pose proof (grant_list_view (record_matches fname) (grant_record now)
                (access_history st) Hwh Hdh) as Hvh.
  pose proof (grant_list_view (notification_matches fname) grant_notification
                (notifications st) Hwn Hdn) as Hvn.
  cbv zeta in Hvh, Hvn. fold history in Hvh. fold notes in Hvn.
  rewrite <- Hvh, <- Hvn.
  by destruct (find_first (record_matches fname) _ _),
       (find_first (notification_matches fname) _ _).
Qed.

Lemma process_face_recognition_frame inp image_path meth st :
  executor (process_face_recognition inp image_path meth st).2 = executor st ∧
  uploads (process_face_recognition inp image_path meth st).2 !! image_path =
    uploads st !! image_path ∧
  ∀ r, (process_face_recognition inp image_path meth st).1 = inr r →
       r = fresh (dom (store (access_history st))).
Proof.
  unfold process_face_recognition. simpl.
  destruct (rr_access_granted (recognize_face (in_deepface inp))) eqn:Hg;
    destruct (in_telegram inp); simpl;
    try (destruct (in_esp32 inp) as [code| |]; simpl; try case_bool_decide); simpl;
    split_and!; try done; congruence.
Qed.

(** X27. An upload, end to end: when no task is waiting, the worker step that
    follows an upload runs the pipeline on the uploaded file.  The run
    logs its record and its notification: each is a new dict at the head
    of its list.  When the pipeline returns, it returns that record, and
    every dashboard connected at that time finds one [new_visitor] event
    for it at the end of its queue; it does not return only when the face
    was recognised and the door request raised something that is not a
    RequestException. *)
Theorem upload_reaches_connected_dashboards es ts data inp :
  let st := full_run es initial_state in
  executor st = [] →
  let out := executor_step inp (upload ts data st).2 in
  let path := "uploads/" +:+ ("visitor_" +:+ ts +:+ ".jpg") in
  let record :=
    create_access_record (in_record_uuid inp) (in_now inp) (path_basename path)
      (recognize_face (in_deepface inp)) "automatic" in
  let event :=
    json_dumps
      (JObj [("type", JStr "new_visitor");
             ("data", notification_json
                        (create_notification (in_notification_uuid inp) record))]) in
  executor out.2 = [] ∧
  uploads out.2 !! path = Some data ∧
  store (access_history st) !! fresh (dom (store (access_history st))) = None ∧
  store (access_history out.2) !! fresh (dom (store (access_history st))) =
    Some record ∧
  head (entries (access_history out.2)) =
    Some (fresh (dom (store (access_history st)))) ∧
  store (notifications st) !! fresh (dom (store (notifications st))) = None ∧
  store (notifications out.2) !! fresh (dom (store (notifications st))) =
    Some (create_notification (in_notification_uuid inp) record) ∧
  head (entries (notifications out.2)) =
    Some (fresh (dom (store (notifications st)))) ∧
  match out.1 with
  | Some (Some r) =>
      r = fresh (dom (store (access_history st))) ∧
      store (access_history out.2) !! r = Some record ∧
      ∀ q, q ∈ sse_clients st →
           ∃ items, queue_store st !! q = Some items ∧
                    queue_store out.2 !! q = Some (items ++ [event])
  | Some None =>
      rr_access_granted (recognize_face (in_deepface inp)) = true ∧
      ∃ exc, in_esp32 inp = EspOtherException exc
  | None => False
  end.
Proof.
  intros st Hempty out path record event.
  destruct (full_run_hub_ok es) as [Hnd Hq]. fold st in Hnd, Hq.
  subst out. unfold upload, process_face_recognition_async, executor_step. simpl.
  rewrite Hempty. simpl. unfold run_task. simpl. fold path.
  set (st1 := with_executor (λ _, [])
                (with_executor (λ q, q ++ [(path, "automatic")])
                   (with_uploads (λ fs, <[path := data]> fs) st))).
  destruct (process_face_recognition_frame inp path "automatic" st1)
    as (Hex & Hup & Hr).
  simpl in Hex, Hup, Hr. rewrite lookup_insert_eq in Hup.
  pose proof (process_face_recognition_hub inp path "automatic" st1) as Hhub.
  pose proof (process_face_recognition_logs inp path "automatic" st1) as [Hah Hno].
  cbv zeta in Hhub, Hah, Hno.
  assert (∀ {A} (h : gmap nat A), h !! fresh (dom h) = None) as Hfresh.
  { intros A h. apply not_elem_of_dom, is_fresh. }
  destruct (process_face_recognition inp path "automatic" st1) as [[exc|r] st2];
    simpl in *.
  - destruct Hhub as (_ & _ & Hg & He). rewrite Hah, Hno. simpl.
    rewrite !lookup_insert_eq.
    split_and!; try done; try (apply head_insert_front; lia). by eexists.
  - rewrite Hah, Hno. simpl. rewrite !lookup_insert_eq.
    split_and!; try done; try (apply head_insert_front; lia).
    + by apply Hr.
    + rewrite (Hr r eq_refl). by rewrite lookup_insert_eq.
    + intros q Hin. destruct Hhub as [_ ->].
      destruct (Hq q Hin) as [items Hi]. exists items. split; [done|].
      rewrite foldl_alter_lookup by done.
      by rewrite bool_decide_eq_true_2, Hi.
Qed.

End ListViewProperties.

Lemma append_cons c (s1 s2 : string) : String c s1 +:+ s2 = String c (s1 +:+ s2).
Proof. done. Qed.

Lemma append_nil_l (s : string) : "" +:+ s = s.
Proof. done. Qed.

Lemma append_assoc (s1 s2 s3 : string) : (s1 +:+ s2) +:+ s3 = s1 +:+ (s2 +:+ s3).
Proof.
  induction s1 as [|c s1 IH]; [done|]. rewrite !append_cons. by f_equal.
Qed.

Lemma append_empty_r (s : string) : s +:+ "" = s.
Proof. induction s as [|c s IH]; [done|]. rewrite append_cons. by f_equal. Qed.

Lemma contains_char_app c s1 s2 :
  contains_char c (s1 +:+ s2) = contains_char c s1 || contains_char c s2.
Proof.
  induction s1 as [|a s1 IH]; [done|].
  rewrite append_cons. simpl. by rewrite IH, orb_assoc.
Qed.

Lemma all_digits_contains c s :
  is_digit c = false → all_digits s = true → contains_char c s = false.
Proof.
  intros Hc. induction s as [|a s IH]; simpl; [done|].
  intros [Ha Hs]%andb_true_iff. rewrite IH by done.
  rewrite bool_decide_eq_false_2; [done|]. intros ->. congruence.
Qed.

Lemma prefix_false c old a s :
  a ≠ c → String.prefix (String c old) (String a s) = false.
Proof. intros Hne. simpl. destruct (ascii_dec c a); [by subst|done]. Qed.

Lemma replace_from_absent c old new s1 s2 :
  contains_char c s1 = false →
  replace_from (String c old) new (s1 +:+ s2) 0 =
  s1 +:+ replace_from (String c old) new s2 0.
Proof.
  induction s1 as [|a s1 IH]; [done|].
  intros [Ha Hs]%orb_false_iff. apply bool_decide_eq_false_1 in Ha.
  rewrite !append_cons. cbn [replace_from]. rewrite prefix_false by done.
  by rewrite IH.
Qed.

Lemma replace_from_absent_all c old new s :
  contains_char c s = false → str_replace (String c old) new s = s.
Proof.
  intros Hs. unfold str_replace. rewrite <- (append_empty_r s) at 1.
  rewrite replace_from_absent by done. simpl. apply append_empty_r.
Qed.

Lemma str_split_absent sep s :
  contains_char sep s = false → str_split sep s = [s].
Proof.
  induction s as [|a s IH]; [done|]. simpl.
  intros [Ha Hs]%orb_false_iff. rewrite Ha, IH by done. done.
Qed.

Lemma str_split_app sep s1 s2 :
  contains_char sep s1 = false →
  str_split sep (s1 +:+ String sep s2) = s1 :: str_split sep s2.
Proof.
  induction s1 as [|a s1 IH].
  - intros _. rewrite append_nil_l. simpl. by rewrite bool_decide_eq_true_2.
  - intros [Ha Hs]%orb_false_iff. rewrite append_cons. simpl.
    rewrite Ha, IH by done. done.
Qed.

Lemma prefix_app (s1 s2 : string) : String.prefix s1 (s1 +:+ s2) = true.
Proof.
  induction s1 as [|c s1 IH]; [by destruct s2|]. rewrite append_cons. simpl.
  destruct (ascii_dec c c); [exact IH|congruence].
Qed.

Lemma replace_from_skip old new (s1 s2 : string) :
  replace_from old new (s1 +:+ s2) (String.length s1) = replace_from old new s2 0.
Proof.
  induction s1 as [|c s1 IH]; [done|]. rewrite append_cons. by simpl.
Qed.

(** Replacing a prefix that is there: the search goes on after it. *)
Lemma replace_prefix c old new s :
  str_replace (String c old) new (String c old +:+ s) =
  new +:+ str_replace (String c old) new s.
Proof.
  unfold str_replace. rewrite append_cons. cbn [replace_from].
  change (String c (old +:+ s)) with (String c old +:+ s). rewrite prefix_app.
  change (String.length (String c old) - 1)%nat with (String.length old - 0)%nat.
  by rewrite Nat.sub_0_r, replace_from_skip.
Qed.

(** [manual_capture_] does not occur in [stream_capture_]. *)
Lemma replace_manual_in_stream s :
  str_replace "manual_capture_" "" ("stream_capture_" +:+ s) =
  "stream_capture_" +:+ str_replace "manual_capture_" "" s.
Proof.
  unfold str_replace. rewrite !append_cons, append_nil_l. by simpl.
Qed.

(** The timestamp left after the four replacements, for a file name the
    application writes. *)
Lemma timestamp_of_written_name prefix date time :
  prefix ∈ ["visitor_"; "manual_capture_"; "stream_capture_"] →
  all_digits date = true → all_digits time = true →
  str_replace ".jpg" ""
    (str_replace "stream_capture_" ""
       (str_replace "manual_capture_" ""
          (str_replace "visitor_" "" (prefix +:+ date +:+ "_" +:+ time +:+ ".jpg")))) =
  date +:+ "_" +:+ time.
Proof.
  intros Hp Hd Ht.
  assert (∀ c, is_digit c = false → c ≠ "_"%char → c ≠ "."%char → c ≠ "j"%char →
               c ≠ "p"%char → c ≠ "g"%char →
               contains_char c (date +:+ "_" +:+ time +:+ ".jpg") = false) as Hrest.
  { intros c Hc H1 H2 H3 H4 H5. rewrite !contains_char_app.
    rewrite (all_digits_contains c date), (all_digits_contains c time) by done.
    simpl. by rewrite !bool_decide_eq_false_2 by congruence. }
  assert (str_replace ".jpg" "" (date +:+ "_" +:+ time +:+ ".jpg") =
          date +:+ "_" +:+ time) as Hjpg.
  { unfold str_replace.
    rewrite <- (append_assoc date), <- (append_assoc (date +:+ "_")).
    rewrite replace_from_absent.
    - simpl. by rewrite append_empty_r, append_assoc.
    - rewrite !contains_char_app.
      rewrite (all_digits_contains "." date), (all_digits_contains "." time) by done.
      done. }
  apply elem_of_cons in Hp as [->|Hp]; [|apply elem_of_cons in Hp as [->|Hp];
    [|apply list_elem_of_singleton in Hp as ->]].
  - rewrite replace_prefix, append_nil_l.
    rewrite (replace_from_absent_all "v"), (replace_from_absent_all "m"),
      (replace_from_absent_all "s") by (by apply Hrest). done.
  - rewrite (replace_from_absent_all "v") by
      (by rewrite contains_char_app, Hrest).
    rewrite replace_prefix, append_nil_l.
    rewrite (replace_from_absent_all "m"), (replace_from_absent_all "s")
      by (by apply Hrest). done.
  - rewrite (replace_from_absent_all "v") by
      (by rewrite contains_char_app, Hrest).
    rewrite replace_manual_in_stream, (replace_from_absent_all "m") by (by apply Hrest).
    rewrite replace_prefix, append_nil_l.
    rewrite (replace_from_absent_all "s") by (by apply Hrest). done.
Qed.

Lemma history_entry_of_written_name prefix date time :
  prefix ∈ ["visitor_"; "manual_capture_"; "stream_capture_"] →
  all_digits date = true → all_digits time = true →
  let filename := prefix +:+ date +:+ "_" +:+ time +:+ ".jpg" in
  history_entry filename =
    JObj [("filename", JStr filename);
          ("url", JStr ("/uploads/" +:+ filename));
          ("date", JStr (slice 6 8 date +:+ "." +:+ slice 4 6 date +:+ "." +:+
                         slice 0 4 date));
          ("time", JStr (slice 0 2 time +:+ ":" +:+ slice 2 4 time +:+ ":" +:+
                         slice 4 6 time))].
Proof.
  intros Hp Hd Ht filename. subst filename. unfold history_entry.
  rewrite timestamp_of_written_name by done.
  rewrite (append_cons "_" "" time), append_nil_l.
  rewrite contains_char_app. simpl. rewrite orb_true_r.
  rewrite str_split_app by (by apply all_digits_contains).
  rewrite str_split_absent by (by apply all_digits_contains).
  done.
Qed.

(** X28. Every file the application writes ([visitor_], [manual_capture_] or
    [stream_capture_], then [%Y%m%d_%H%M%S], then [.jpg]) is shown by the
    history with the day, month and year and the hour, minute and second
    of its name, and it is in the answer of [get_history] when it is in
    the upload folder. *)
Theorem history_shows_date_and_time_of_written_files
    `{!PyRuntime} prefix date time :
  prefix ∈ ["visitor_"; "manual_capture_"; "stream_capture_"] →
  all_digits date = true → all_digits time = true →
  let filename := prefix +:+ date +:+ "_" +:+ time +:+ ".jpg" in
  let shown :=
    JObj [("filename", JStr filename);
          ("url", JStr ("/uploads/" +:+ filename));
          ("date", JStr (slice 6 8 date +:+ "." +:+ slice 4 6 date +:+ "." +:+
                         slice 0 4 date));
          ("time", JStr (slice 0 2 time +:+ ":" +:+ slice 2 4 time +:+ ":" +:+
                         slice 4 6 time))] in
  history_entry filename = shown ∧
  ∀ names,
    filename ∈ names → endswith ".jpg" (str_lower filename) = true →
    ∃ listed, get_history true (inr names) = (JList listed, 200) ∧ shown ∈ listed.
Proof.
  intros Hp Hd Ht filename shown.
  pose proof (history_entry_of_written_name prefix date time Hp Hd Ht) as Hentry.
  cbv zeta in Hentry. fold filename shown in Hentry. split; [done|].
  intros names Hin Hjpg. eexists. split; [done|].
  rewrite <- Hentry. apply list_elem_of_fmap_2, list_elem_of_filter. split; [done|].
  unfold sorted_descending. by rewrite merge_sort_Permutation.
Qed.

(** X29. A known face stored under a name without a dot ([add_known_face] and
    [upload_known_face] write [<safe_name>.jpg], and a safe name has
    none) is listed under that name, whichever of the three extensions
    the file has, and it is in the answer of [get_known_faces] when it is
    in the folder. *)
Theorem known_face_is_listed_under_its_name `{!PyRuntime} stem ext :
  contains_char "." stem = false →
  ext ∈ [".jpg"; ".jpeg"; ".png"] →
  let shown :=
    JObj [("filename", JStr (stem +:+ ext));
          ("name", JStr stem);
          ("url", JStr ("/known_faces/" +:+ stem +:+ ext))] in
  known_face_entry (stem +:+ ext) = shown ∧
  ∀ names,
    stem +:+ ext ∈ names →
    endswith_any [".jpg"; ".jpeg"; ".png"] (str_lower (stem +:+ ext)) = true →
    ∃ listed, get_known_faces true (inr names) = (JList listed, 200) ∧ shown ∈ listed.
Proof.
  intros Hstem Hext shown.
  assert (known_face_entry (stem +:+ ext) = shown) as Hentry.
  { subst shown. unfold known_face_entry. do 3 f_equal.
    apply elem_of_cons in Hext as [->|Hext]; [|apply elem_of_cons in Hext as [->|Hext];
      [|apply list_elem_of_singleton in Hext as ->]].
    - unfold str_replace at 3. rewrite replace_from_absent by done. simpl.
      rewrite append_empty_r.
      by rewrite (replace_from_absent_all "." "jpeg"),
        (replace_from_absent_all "." "png") by done.
    - unfold str_replace at 3. rewrite replace_from_absent by done. simpl.
      unfold str_replace at 2. rewrite replace_from_absent by done. simpl.
      rewrite append_empty_r. by rewrite (replace_from_absent_all "." "png") by done.
    - unfold str_replace at 3. rewrite replace_from_absent by done. simpl.
      unfold str_replace at 2. rewrite replace_from_absent by done. simpl.
      unfold str_replace. rewrite replace_from_absent by done. simpl.
      by rewrite append_empty_r. }
  split; [done|].
  intros names Hin Hjpg. eexists. split; [done|].
  rewrite <- Hentry. by apply list_elem_of_fmap_2, list_elem_of_filter.
Qed.

Section DoorRouteProperties.
Context {X : Type} `{!Environment X} `{!NotifierEnvironment (AppState * X)}.
#[local] Existing Instance lift_environment.
Implicit Types (n : notifier (AppState * X)).

Lemma send_text_app_state text n :
  (world (core (send_text text n).2)).1 = (world (core n)).1.
Proof.
  unfold send_text, send_message. simpl.
  destruct (negb (enabled (bot (core n))) || negb (is_configured (bot (core n))));
    [done|].
  simpl. destruct (requests_post _ _ _ _) as [[exc|code] x]; done.
Qed.

(** X30. The door route of a logged-in user asks the ESP32 once and requests
    no photo.  When the ESP32 answers 200 the route answers 200 with
    success true and calls [send_door_opened_notification("manual")], which
    posts its message to the bot's chat only when the bot is enabled and
    configured.  When the ESP32 answers another status or the request
    raises a RequestException the route answers 500 with success false and
    nothing is posted.  When the request raises anything else the
    exception leaves the handler, which builds no answer, and nothing is
    posted.  Without a login the answer is 401, nothing is asked of the
    ESP32 and nothing is sent. *)
Theorem door_route_notifies_telegram_only_after_success o n :
  let out := open_door_route true o n in
  let m := core n in
  let opened := answered_200 o in
  open_door_route false o n = (inr unauthenticated, n) ∧
  (world (core out.2)).1 = full_step (DoorOpen true o) (world m).1 ∧
  calls (world (core out.2)).1 = calls (world m).1 ++ [OpenDoorRequest] ∧
  photos out.2 = photos n ∧
  posted_messages (trace (core out.2)) =
    posted_messages (trace m) ++
    (if opened && enabled (bot m) && is_configured (bot m)
     then [(chat_id (bot m),
            door_opened_message "manual"
              (strftime_hms (call OpenDoorRequest (world m).1, (world m).2)))]
     else []) ∧
  match out.1 with
  | inr answer =>
      answer.2 = (if opened then 200 else 500) ∧
      json_get "success" answer.1 = Some (JBool opened)
  | inl exc => o = EspOtherException exc
  end ∧
  match o with
  | EspOtherException exc => out.1 = inl exc
  | _ => ∃ answer, out.1 = inr answer
  end.
Proof.
  intros out m opened. subst out opened. unfold open_door_route, open_door. simpl.
  fold m. split; [done|].
  destruct o as [code|exc|exc]; simpl.
  - case_bool_decide as Hc; simpl.
    + subst code. simpl.
      set (n1 := with_core (with_world (call OpenDoorRequest (world m).1, (world m).2)) n).
      set (text := door_opened_message "manual" _).
      destruct (send_text_posts text n1) as (Hph & Hb & Hpost).
      pose proof (send_text_app_state text n1) as Hst.
      unfold send_door_opened_notification. fold text.
      change (strftime_hms (world (core n1))) with
        (strftime_hms (call OpenDoorRequest (world m).1, (world m).2)).
      fold text. rewrite Hst, Hph, Hpost. split_and!; try done. by eexists.
    + rewrite app_nil_r. split_and!; try done. by eexists.
  - rewrite app_nil_r. split_and!; try done. by eexists.
  - rewrite app_nil_r. by split_and!.
Qed.

End DoorRouteProperties.


(** * The further properties on concrete inputs *)

(** X7, witness: a bot without token and chat is given both while its
    listener is stopped; nothing is started. *)
Lemma update_config_on_stopped_listener_witness :
  running (bot unconfigured_machine) = false ∧
  running (bot (update_config (Some "123:abc") (Some "777") None false
                  unconfigured_machine)) = false ∧
  trace (update_config (Some "123:abc") (Some "777") None false
           unconfigured_machine) = [] ∧
  is_configured (bot (update_config (Some "123:abc") (Some "777") None false
                        unconfigured_machine)) = true.
Proof.
  pose proof (update_config_leaves_listener_unless_running_and_changed
                (Some "123:abc") (Some "777") None false unconfigured_machine
                (or_introl eq_refl)) as Hquiet.
  cbv zeta in Hquiet. destruct Hquiet as (Hr & _ & Ht & _).
  split; [reflexivity|]. split; [exact Hr|]. split; [exact Ht|]. reflexivity.
Defined.

(** X8, witness: the running listener of the demo bot is given a new token
    and its worker returns within the pause. *)
Lemma update_config_restart_witness :
  running (bot (demo_machine true)) = true ∧
  running (bot (update_config (Some "456:new") None None true (demo_machine true))) =
    true ∧
  command_thread
    (bot (update_config (Some "456:new") None None true (demo_machine true))) =
    Some 1%nat ∧
  bot_token (bot (update_config (Some "456:new") None None true (demo_machine true))) =
    "456:new".
Proof.
  assert (running (bot (demo_machine true)) = true) as Hr by reflexivity.
  assert (default (bot_token (bot (demo_machine true))) (Some "456:new") ≠
            bot_token (bot (demo_machine true)) ∨
          default (chat_id (bot (demo_machine true))) None ≠
            chat_id (bot (demo_machine true))) as Hch
    by (left; vm_compute; discriminate).
  assert (default (bot_token (bot (demo_machine true))) (Some "456:new") ≠ "") as Ht
    by (vm_compute; discriminate).
  assert (default (chat_id (bot (demo_machine true))) None ≠ "") as Hc
    by (vm_compute; discriminate).
  pose proof (update_config_restarts_when_worker_returned
                (Some "456:new") None None (demo_machine true) Hr Hch Ht Hc) as Hre.
  cbv zeta in Hre. destruct Hre as (Hrun & Hth & _ & _ & Htok & _).
  split; [exact Hr|]. split; [exact Hrun|]. split; [exact Hth|]. exact Htok.
Defined.

(** X13, witness: the recorded visitor is granted twice. *)
Lemma second_grant_witness :
  find_first (record_matches "visitor_20250101_120000.jpg")
    (store (access_history demo_state)) (entries (access_history demo_state)) =
    Some 0%nat ∧
  ∃ x, store (access_history demo_state) !! 0%nat = Some x ∧
       store (access_history
                (grant_access true "visitor_20250101_120000.jpg" "2025-01-01T12:06:00"
                   (grant_access true "visitor_20250101_120000.jpg"
                      "2025-01-01T12:05:00" demo_state).2).2) !! 0%nat =
         Some (grant_record "2025-01-01T12:06:00"
                 (grant_record "2025-01-01T12:05:00" x)) ∧
       method (grant_record "2025-01-01T12:06:00"
                 (grant_record "2025-01-01T12:05:00" x)) =
         (method x +:+ "_manual_override") +:+ "_manual_override" ∧
       manual_grant_timestamp
         (grant_record "2025-01-01T12:06:00" (grant_record "2025-01-01T12:05:00" x)) =
         Some "2025-01-01T12:06:00".
Proof.
  assert (find_first (record_matches "visitor_20250101_120000.jpg")
            (store (access_history demo_state))
            (entries (access_history demo_state)) = Some 0%nat) as Hf
    by (vm_compute; reflexivity).
  split; [exact Hf|].
  exact (second_grant_appends_the_suffix_again "visitor_20250101_120000.jpg"
           "2025-01-01T12:05:00" "2025-01-01T12:06:00" demo_state 0%nat Hf).
Defined.

(** X20, witness: the second dashboard disconnects while the event is still
    queued for it and the first has read it. *)
Lemma closing_with_different_contents_witness :
  sse_clients (full_run (Core <$> two_dashboards) initial_state) = [0%nat; 1%nat] ∧
  sse_clients (event_stream_close 1 (full_run (Core <$> two_dashboards) initial_state)) =
    filter (λ c, c ≠ 1%nat)
      (sse_clients (full_run (Core <$> two_dashboards) initial_state)) ∧
  queue_store (event_stream_close 1 (full_run (Core <$> two_dashboards) initial_state)) =
    queue_store (full_run (Core <$> two_dashboards) initial_state).
Proof.
  split; [vm_compute; reflexivity|].
  apply (closing_unregisters_own_queue_when_contents_differ
           (Core <$> two_dashboards) 1%nat).
  vm_compute. reflexivity.
Defined.

(** X14, witness: [/open] arrives while no dashboard is connected. *)
Lemma telegram_open_without_dashboard_witness :
  sse_clients (world lonely_machine).1 = [] ∧
  (handle_command "/open" lonely_machine).1 = "🚪 Comandă trimisă! Ușa se deschide..." ∧
  world (handle_command "/open" lonely_machine).2 = world lonely_machine.
Proof.
  split; [reflexivity|].
  exact (telegram_open_without_dashboard_reports_success
           "2025-01-01T12:10:00" "/open" lonely_machine eq_refl eq_refl eq_refl).
Defined.

(** X16, witness: a temporary file is used while nothing else is tracked. *)
Lemma temp_file_witness :
  lock_held (manager {| manager := new_manager; files := ∅ |}) = false ∧
  with_temp_image_file "uploads/tmp1.jpg" (λ _ fs, fs) false
    {| manager := new_manager; files := ∅ |} =
    Some {| manager := {| temp_files := ∅ ∖ {["uploads/tmp1.jpg"]}; lock_held := false |};
            files := ({["uploads/tmp1.jpg"]} ∪ ∅) ∖ {["uploads/tmp1.jpg"]} |}.
Proof.
  split; [reflexivity|].
  exact (proj1 (temp_file_is_removed_when_the_block_ends "uploads/tmp1.jpg"
                  (λ _ fs, fs) (λ _, false)
                  {| manager := new_manager; files := ∅ |} eq_refl)).
Defined.

(** X28, witness: the file of the visitor uploaded on 1 January 2025 at noon. *)
Lemma history_witness :
  all_digits "20250101" = true ∧ all_digits "120000" = true ∧
  history_entry "visitor_20250101_120000.jpg" =
    JObj [("filename", JStr "visitor_20250101_120000.jpg");
          ("url", JStr "/uploads/visitor_20250101_120000.jpg");
          ("date", JStr "01.01.2025");
          ("time", JStr "12:00:00")].
Proof.
  split; [reflexivity|]. split; [reflexivity|].
  exact (proj1 (history_shows_date_and_time_of_written_files
                  "visitor_" "20250101" "120000"
                  (list_elem_of_here _ _) eq_refl eq_refl)).
Defined.

(** X29, witness: the face stored as ana.jpg. *)
Lemma known_face_witness :
  contains_char "." "ana" = false ∧
  known_face_entry "ana.jpg" =
    JObj [("filename", JStr "ana.jpg");
          ("name", JStr "ana");
          ("url", JStr "/known_faces/ana.jpg")].
Proof.
  split; [reflexivity|].
  exact (proj1 (known_face_is_listed_under_its_name "ana" ".jpg" eq_refl
                  (list_elem_of_here _ _))).
Defined.

(** X27, witness: one dashboard is connected and no task is waiting when a
    visitor is uploaded. *)
Lemma upload_reaches_dashboard_witness :
  executor (full_run [Core StreamOpen] initial_state) = [] ∧
  executor
    (executor_step (demo_inputs (FindResult []))
       (upload "20250101_120000" "jpeg" (full_run [Core StreamOpen] initial_state)).2).2 =
    [] ∧
  uploads
    (executor_step (demo_inputs (FindResult []))
       (upload "20250101_120000" "jpeg" (full_run [Core StreamOpen] initial_state)).2).2
    !! ("uploads/" +:+ ("visitor_" +:+ "20250101_120000" +:+ ".jpg")) = Some "jpeg" ∧
  head (entries (access_history
    (executor_step (demo_inputs (FindResult []))
       (upload "20250101_120000" "jpeg" (full_run [Core StreamOpen] initial_state)).2).2)) =
    Some (fresh (dom (store (access_history (full_run [Core StreamOpen] initial_state))))).
Proof.
  pose proof (upload_reaches_connected_dashboards [Core StreamOpen]
                "20250101_120000" "jpeg" (demo_inputs (FindResult [])) eq_refl)
    as Hend.
  cbv zeta in Hend. destruct Hend as (Hex & Hup & _ & _ & Hhead & _).
  split; [reflexivity|]. split; [exact Hex|]. split; [exact Hup|exact Hhead].
Defined.
